(** * Expander graph propagation: the convolution layer, the propagation
      engine and the graph readout of [models/gnn.py] and
      [models/conv/gin.py], embedded as Rocq functions.

    Tensors are lists of rows.  The element type is kept abstract (class
    [Scalar]); the algebraic identities the masking arithmetic relies on are
    collected in [ExactScalar], and the integers give an instance on which
    every definition evaluates. *)

From Stdlib Require Import String List ZArith Bool Arith Lia Reals Lra.
Import ListNotations.

(* ================================================================= *)
(** ** Scalars *)

Class Scalar : Type := {
  carrier : Type;
  zero : carrier;
  one : carrier;
  add : carrier -> carrier -> carrier;
  sub : carrier -> carrier -> carrier;
  mul : carrier -> carrier -> carrier;
  relu : carrier -> carrier;          (* F.relu on one element *)
  gt0 : carrier -> bool               (* the test [t > 0] on one element *)
}.

(** The identities of exact arithmetic used by multiply-by-mask updates. *)
Class ExactScalar (S : Scalar) : Prop := {
  mul_one_l : forall x : carrier, mul one x = x;
  mul_one_r : forall x : carrier, mul x one = x;
  mul_zero_l : forall x : carrier, mul zero x = zero;
  mul_zero_r : forall x : carrier, mul x zero = zero;
  add_zero_l : forall x : carrier, add zero x = x;
  add_zero_r : forall x : carrier, add x zero = x;
  sub_one_one : sub one one = zero;
  sub_one_zero : sub one zero = one;
  gt0_one : gt0 one = true;
  gt0_zero : gt0 zero = false
}.

#[export] Instance ZScalar : Scalar := {|
  carrier := Z;
  zero := 0%Z;
  one := 1%Z;
  add := Z.add;
  sub := Z.sub;
  mul := Z.mul;
  relu := Z.max 0;
  gt0 := fun x => (0 <? x)%Z
|}.

(* ================================================================= *)
(** ** Tensors *)

Section Tensors.
Context {S : Scalar}.

Definition vec := list carrier.
Definition matrix := list vec.

Fixpoint map2 {A B C} (f : A -> B -> C) (xs : list A) (ys : list B) : list C :=
  match xs, ys with
  | x :: xs', y :: ys' => f x y :: map2 f xs' ys'
  | _, _ => []
  end.

(** Elementwise operations on equally shaped tensors. *)
Definition vadd : vec -> vec -> vec := map2 add.
Definition vmul : vec -> vec -> vec := map2 mul.
Definition madd : matrix -> matrix -> matrix := map2 vadd.
Definition mmul : matrix -> matrix -> matrix := map2 vmul.

(** Operations with a broadcast scalar: [c * t], [c + t], [c - t]. *)
Definition smul (c : carrier) (m : matrix) : matrix := map (map (mul c)) m.
Definition sadd (c : carrier) (m : matrix) : matrix := map (map (add c)) m.
Definition ssub (c : carrier) (m : matrix) : matrix := map (map (sub c)) m.

Definition vrelu : vec -> vec := map relu.
Definition mrelu : matrix -> matrix := map vrelu.

Definition zeros (d : nat) : vec := repeat zero d.

(** [t.shape[0]] and [t.shape[1]]. *)
Definition shape0 (m : matrix) : nat := length m.
Definition shape1 (m : matrix) : nat := length (hd [] m).

(** [mask.unsqueeze(dim=-1).expand(mask.shape[0], d)]. *)
Definition expand (mask : vec) (d : nat) : matrix :=
  map (fun m => repeat m d) mask.

(** [torch.ones((n, d))]. *)
Definition ones (n d : nat) : matrix := repeat (repeat one d) n.

(** Row [i] of a tensor; the empty row outside the tensor. *)
Definition row (m : matrix) (i : nat) : vec := nth i m [].

(** Every row has width [d] and there are [n] rows. *)
Definition shaped (n d : nat) (m : matrix) : Prop :=
  length m = n /\ Forall (fun r => length r = d) m.

Definition of_bool (b : bool) : carrier := if b then one else zero.
End Tensors.

(* ================================================================= *)
(** ** Exceptions and the forward-pass monad *)

Inductive exn : Type :=
| ValueError (msg : string)
| NotImplementedError
| AssertionError
| AttributeError (name : string)
| IndexError
| UnboundLocalError (name : string).

(** A constructor call either raises or returns the object. *)
Definition result (A : Type) : Type := (exn + A)%type.

(** The random generator as the stream of keep/drop outcomes still to be
    drawn; [F.dropout] in training mode is its only consumer. *)
Definition tape : Type := nat -> bool.

Definition M (A : Type) : Type := tape -> result (A * tape).

Definition ret {A} (a : A) : M A := fun t => inr (a, t).

Definition bind {A B} (c : M A) (k : A -> M B) : M B :=
  fun t => match c t with
           | inl e => inl e
           | inr (a, t') => k a t'
           end.

Definition raise {A} (e : exn) : M A := fun _ => inl e.

Declare Scope monad_scope.
Delimit Scope monad_scope with monad.
Notation "x <- c ;; k" := (bind c (fun x => k))
  (at level 61, c at next level, right associativity) : monad_scope.
Open Scope monad_scope.

(** [xs[i]] on a Python list. *)
Definition index {A} (xs : list A) (i : nat) : M A :=
  match nth_error xs i with
  | Some a => ret a
  | None => raise IndexError
  end.

(** [for i in range_: acc = body(acc, i)]. *)
Fixpoint for_each {A} (range_ : list nat) (body : A -> nat -> M A) (acc : A) : M A :=
  match range_ with
  | [] => ret acc
  | i :: rest => acc' <- body acc i ;; for_each rest body acc'
  end.

(** The value a run returns, if it returns. *)
Definition value {A} (r : result (A * tape)) : result A :=
  match r with
  | inl e => inl e
  | inr (a, _) => inr a
  end.

(* ================================================================= *)
(** ** Message passing with additive aggregation
       ([torch_geometric.nn.MessagePassing], [aggr = "add"]) *)

(** A [2 x E] index tensor: row 0 and row 1. *)
Definition edge_index : Type := (list nat * list nat)%type.

(** [edge_index[[1, 0]]]. *)
Definition swap_rows (ei : edge_index) : edge_index := (snd ei, fst ei).

Section MessagePassing.
Context {S : Scalar}.

(** [x[idx]]. *)
Definition gather (x : matrix) (idx : list nat) : matrix := map (row x) idx.

Fixpoint set_row (m : matrix) (k : nat) (r : vec) : matrix :=
  match m, k with
  | [], _ => []
  | _ :: m', O => r :: m'
  | r0 :: m', Datatypes.S k' => r0 :: set_row m' k' r
  end.

(** [scatter(src, index, dim=0, dim_size=n, reduce="add")]: the rows of
    [src] are added one after the other into the row their index names. *)
Definition scatter_add (src : matrix) (idx : list nat) (n d : nat) : matrix :=
  fold_left (fun out kr => set_row out (fst kr) (vadd (row out (fst kr)) (snd kr)))
            (combine idx src) (repeat (zeros d) n).

(** [MessagePassing.propagate]: gather the rows at the sending end of
    every edge, build the messages, add them up at the receiving end. *)
Definition mp_propagate (flow : string)
           (message : matrix -> option matrix -> matrix)
           (update : matrix -> matrix)
           (ei : edge_index) (x : matrix) (edge_attr : option matrix) : matrix :=
  let '(i, j) := if (flow =? "source_to_target")%string
                 then (snd ei, fst ei) else (fst ei, snd ei) in
  let x_j := gather x j in
  update (scatter_add (message x_j edge_attr) i (shape0 x) (shape1 x)).
End MessagePassing.

(* ================================================================= *)
(** ** Sublayers of [torch.nn] and [torch.nn.functional] *)

Section TorchNN.
Context {S : Scalar}.

(** [torch.nn.Linear]: an affine map applied to every row. *)
Definition Linear : Type := vec -> vec.
Definition Linear_forward (l : Linear) (x : matrix) : matrix := map l x.

(** [torch.nn.BatchNorm1d]: in training mode every column is normalised
    with the statistics of the whole batch; in evaluation mode every row
    goes through the same affine map built from the running statistics. *)
Record BatchNorm1d : Type := {
  bn_batch : matrix -> matrix;
  bn_running : vec -> vec
}.
Definition BatchNorm1d_forward (bn : BatchNorm1d) (training : bool)
           (x : matrix) : matrix :=
  if training then bn_batch bn x else map (bn_running bn) x.

(** [Sequential(Linear, BatchNorm1d, ReLU, Linear)]. *)
Definition feed_forward (l1 : Linear) (bn : BatchNorm1d) (l2 : Linear)
           (training : bool) (x : matrix) : matrix :=
  Linear_forward l2 (mrelu (BatchNorm1d_forward bn training (Linear_forward l1 x))).

(** The next [n] outcomes of the generator. *)
Definition draw (n : nat) : M (list bool) :=
  fun t => inr (map t (seq 0 n), fun k => t (n + k)).

(** One row under dropout: a kept entry is rescaled, a dropped one is
    zeroed ([x * keep * scale]). *)
Definition dropout_row (scale : carrier) (r : vec) : M vec :=
  keeps <- draw (length r) ;;
  ret (map2 (fun x (keep : bool) => mul x (mul (of_bool keep) scale)) r keeps).

Fixpoint dropout_rows (scale : carrier) (h : matrix) : M matrix :=
  match h with
  | [] => ret []
  | r :: h' => r' <- dropout_row scale r ;;
               rest <- dropout_rows scale h' ;;
               ret (r' :: rest)
  end.

(** [F.dropout(h, p, training)], with [p] given by the factor
    [scale = 1 / (1 - p)] applied to the surviving entries. *)
Definition F_dropout (h : matrix) (scale : carrier) (training : bool) : M matrix :=
  if training then dropout_rows scale h else ret h.
End TorchNN.

(* ================================================================= *)
(** ** [GINConv] ([models/conv/gin.py]) *)

Section GINConv.
Context {S : Scalar}.

(** The sublayers [torch.nn] allocates for one [GINConv]: the pieces of
    the feed-forward block, the scalar [eps], and the three candidate
    edge encoders. *)
Record GINParams : Type := {
  new_Linear_in : Linear;                  (* Linear(emb_dim, 2*emb_dim) *)
  new_BatchNorm : BatchNorm1d;             (* BatchNorm1d(2*emb_dim) *)
  new_Linear_out : Linear;                 (* Linear(2*emb_dim, emb_dim) *)
  new_eps : carrier;                       (* Parameter(Tensor([0])) *)
  new_BondEncoder : matrix -> matrix;      (* BondEncoder(emb_dim) *)
  new_Linear7 : Linear;                    (* Linear(7, emb_dim) *)
  new_Linear2 : Linear                     (* Linear(2, emb_dim) *)
}.

Record GINConv : Type := {
  flow : string;
  mlp : bool -> matrix -> matrix;
  eps : carrier;
  edge_encoder : matrix -> matrix
}.

(** [GINConv.__init__(emb_dim, task, flow=None)]. *)
Definition GINConv_init (p : GINParams) (emb_dim : nat) (task : string)
           (flow_arg : option string) : result GINConv :=
  let fl := match flow_arg with
            | None => "source_to_target"%string
            | Some f => f
            end in
  let ff := feed_forward (new_Linear_in p) (new_BatchNorm p) (new_Linear_out p) in
  if (task =? "mol")%string then
    inr {| flow := fl; mlp := ff; eps := new_eps p;
           edge_encoder := new_BondEncoder p |}
  else if (task =? "ppo")%string then
    inr {| flow := fl; mlp := ff; eps := new_eps p;
           edge_encoder := Linear_forward (new_Linear7 p) |}
  else if (task =? "code2")%string then
    inr {| flow := fl; mlp := ff; eps := new_eps p;
           edge_encoder := Linear_forward (new_Linear2 p) |}
  else inl NotImplementedError.

(** [GINConv.message(x_j, edge_attr)]. *)
Definition message (x_j : matrix) (edge_attr : option matrix) : matrix :=
  match edge_attr with
  | Some ea => mrelu (madd x_j ea)
  | None => mrelu x_j
  end.

(** [GINConv.update(aggr_out)]. *)
Definition update (aggr_out : matrix) : matrix := aggr_out.

(** The input of the convolution after the optional masking step
    ([if masking: x = x * expander_node_mask]). *)
Definition masked_input (x : matrix) (masking : bool) (mask : matrix) : matrix :=
  if masking then mmul x mask else x.

(** The value of [out] after line 43 of [GINConv.forward], before the
    directional update. *)
Definition GINConv_out (c : GINConv) (training : bool) (x : matrix)
           (ei : edge_index) (edge_attr : option matrix)
           (masking : bool) (mask : matrix) : matrix :=
  let edge_embedding := match edge_attr with
                        | Some ea => Some (edge_encoder c ea)
                        | None => None
                        end in
  let x := masked_input x masking mask in
  mlp c training
      (madd (smul (add one (eps c)) x)
            (mp_propagate (flow c) message update ei x edge_embedding)).

(** [GINConv.forward(x, edge_index, edge_attr, masking,
    expander_node_mask, update_nodes)]. *)
Definition GINConv_forward (c : GINConv) (training : bool) (x : matrix)
           (ei : edge_index) (edge_attr : option matrix)
           (masking : bool) (mask : matrix) (update_nodes : string) : matrix :=
  let out := GINConv_out c training x ei edge_attr masking mask in
  let x := masked_input x masking mask in
  if (update_nodes =? "expander")%string then
    madd (mmul (ssub one mask) out) (mmul mask x)
  else if (update_nodes =? "original")%string then
    madd (mmul mask out) (mmul (ssub one mask) x)
  else out.

(** *** The aggregation as the specification words it *)

(** The message of edge number [e]: [relu(source + edge vector)], or
    [relu(source)] without edge features. *)
Definition edge_message (x : matrix) (sources : list nat)
           (edge_embedding : option matrix) (e : nat) : vec :=
  match edge_embedding with
  | Some ea => vrelu (vadd (row x (nth e sources O)) (row ea e))
  | None => vrelu (row x (nth e sources O))
  end.

(** The numbers of the edges that arrive at node [i]. *)
Definition incoming (targets : list nat) (n_edges : nat) (i : nat) : list nat :=
  filter (fun e => Nat.eqb (nth e targets O) i) (seq 0 n_edges).

(** Per target node, the sum of the messages of its incoming edges. *)
Definition incoming_sum (x : matrix) (ei : edge_index)
           (edge_embedding : option matrix) : matrix :=
  let n_edges := match edge_embedding with
                 | Some ea => Nat.min (Nat.min (length (snd ei)) (length (fst ei))) (length ea)
                 | None => Nat.min (length (snd ei)) (length (fst ei))
                 end in
  map (fun i => fold_left vadd
                  (map (edge_message x (fst ei) edge_embedding)
                       (incoming (snd ei) n_edges i))
                  (zeros (shape1 x)))
      (seq 0 (shape0 x)).

(** [h] with the rows of the hub nodes (mask bit 0) set to zero. *)
Definition zero_hub_rows (bits : list bool) (h : matrix) : matrix :=
  map2 (fun (b : bool) r => if b then r else zeros (length r)) bits h.
End GINConv.

(* ================================================================= *)
(** ** Batched graphs, layer objects and their allocation *)

Section Objects.
Context {S : Scalar}.

Record BatchedGraph : Type := {
  x : matrix;
  edge_index_ : edge_index;
  edge_attr : option matrix;
  node_depth : matrix;
  batch : list Z;
  expander_edge_index : edge_index;
  expander_node_mask : vec;
  num_nodes : nat
}.

(** A convolution object called as
    [conv(h, edge_index, edge_attr, masking, mask, update_nodes)];
    [GINConv] and [GCNConv] are both used through this signature. *)
Definition ConvLayer : Type :=
  bool -> matrix -> edge_index -> option matrix -> bool -> matrix -> string
  -> matrix.

(** [SumConv] of [models/conv/summation.py], called as
    [summation(h, expander_edge_index)]. *)
Definition SumConv : Type := bool -> matrix -> edge_index -> matrix.

(** A node encoder, called with the node features and, for the sequence
    task, the node depths. *)
Definition NodeEncoder : Type := matrix -> option matrix -> matrix.

(** Which sublayer of which layer an allocation is for. *)
Inductive slot : Type :=
| Main (layer : nat)
| ExpanderLeft (layer : nat)
| ExpanderRight (layer : nat).

(** Everything the constructors allocate: the learnable sublayers, one
    per slot, whatever values training has given them. *)
Record Alloc : Type := {
  gin_params : slot -> GINParams;
  (* GCNConv(emb_dim, task, flow) of models/conv/gcn.py *)
  new_GCNConv : slot -> nat -> string -> option string -> result ConvLayer;
  new_BatchNorm1d : slot -> BatchNorm1d;
  (* SumConv(emb_dim, mlp) *)
  new_SumConv : nat -> nat -> bool -> SumConv;
  new_AtomEncoder : matrix -> matrix;
  new_Embedding : matrix -> matrix
}.

Definition rbind {A B} (r : result A) (k : A -> result B) : result B :=
  match r with
  | inl e => inl e
  | inr a => k a
  end.

(** [for i in range_: acc = body(acc, i)] inside a constructor. *)
Fixpoint rfor_each {A} (range_ : list nat) (body : A -> nat -> result A)
         (acc : A) : result A :=
  match range_ with
  | [] => inr acc
  | i :: rest => rbind (body acc i) (rfor_each rest body)
  end.

(** The node encoder selected by the task key. *)
Definition select_node_encoder (a : Alloc) (task : string)
           (node_encoder : option NodeEncoder) : result (option NodeEncoder) :=
  if (task =? "mol")%string then inr (Some (fun x _ => new_AtomEncoder a x))
  else if (task =? "ppa")%string then inr (Some (fun x _ => new_Embedding a x))
  else if (task =? "code2")%string then
    match node_encoder with
    | Some e => inr (Some e)
    | None => inl AssertionError
    end
  else inr None.

(** The convolution of the configured kind for one slot. *)
Definition new_conv (a : Alloc) (gnn_type : string) (s : slot) (emb_dim : nat)
           (task : string) (flow_arg : option string) : result ConvLayer :=
  if (gnn_type =? "gin")%string then
    rbind (GINConv_init (gin_params a s) emb_dim task flow_arg)
          (fun c => inr (GINConv_forward c))
  else if (gnn_type =? "gcn")%string then
    new_GCNConv a s emb_dim task flow_arg
  else inl (ValueError "Undefined GNN type").

(** The Jumping-Knowledge step at the end of both forward passes. *)
Definition JK_aggregate (JK : string) (num_layer : nat) (h_list : list matrix)
  : M matrix :=
  if (JK =? "last")%string then
    match h_list with
    | [] => raise IndexError
    | _ => ret (last h_list [])
    end
  else if (JK =? "sum")%string then
    (* node_representation = 0; the first addition is [0 + h_list[0]] *)
    h0 <- index h_list 0 ;;
    for_each (seq 1 num_layer)
             (fun acc layer => h <- index h_list layer ;; ret (madd acc h))
             (sadd zero h0)
  else raise (UnboundLocalError "node_representation").
End Objects.

(* ================================================================= *)
(** ** [GNN_node]: propagation on the original graph only *)

Module GNN_node.
Section Def.
Context {S : Scalar}.

Record t : Type := {
  num_layer : nat;
  drop_scale : carrier;          (* 1 / (1 - drop_ratio) *)
  JK : string;
  task : string;
  residual : bool;
  node_encoder : option NodeEncoder;
  convs : list ConvLayer;
  batch_norms : list BatchNorm1d
}.

(** [GNN_node.__init__]. *)
Definition init (a : Alloc) (num_layer_ emb_dim : nat) (task_ : string)
           (node_encoder_ : option NodeEncoder) (drop_scale_ : carrier)
           (JK_ : string) (residual_ : bool) (gnn_type : string) : result t :=
  if num_layer_ <? 2 then
    inl (ValueError "Number of GNN layers must be greater than 1.")
  else
    rbind (select_node_encoder a task_ node_encoder_) (fun enc =>
    rbind (rfor_each (seq 0 num_layer_)
             (fun (acc : list ConvLayer * list BatchNorm1d) layer =>
                rbind (new_conv a gnn_type (Main layer) emb_dim task_ None)
                      (fun c => inr (fst acc ++ [c],
                                     snd acc ++ [new_BatchNorm1d a (Main layer)])))
             ([], []))
          (fun ls =>
    inr {| num_layer := num_layer_; drop_scale := drop_scale_; JK := JK_;
           task := task_; residual := residual_; node_encoder := enc;
           convs := fst ls; batch_norms := snd ls |})).

(** One iteration of the layer loop: the new entry of [h_list]. *)
Definition layer_step (m : t) (training : bool) (bg : BatchedGraph)
           (mask : matrix) (h_list : list matrix) (layer : nat) : M matrix :=
  h_in <- index h_list layer ;;
  conv <- index (convs m) layer ;;
  bn <- index (batch_norms m) layer ;;
  let h := conv training h_in (edge_index_ bg) (edge_attr bg) false mask
                "original"%string in
  let h := BatchNorm1d_forward bn training h in
  h <- (if layer =? num_layer m - 1
        then F_dropout h (drop_scale m) training
        else F_dropout (mrelu h) (drop_scale m) training) ;;
  ret (if residual m then madd h h_in else h).

(** The encoder output, [h_list[0]]. *)
Definition encode (m : t) (bg : BatchedGraph) : M matrix :=
  match node_encoder m with
  | None => raise (AttributeError "node_encoder")
  | Some enc =>
      if (task m =? "code2")%string
      then ret (enc (x bg) (Some (node_depth bg)))
      else ret (enc (x bg) None)
  end.

(** Lines 59-88 of [forward]: the history [h_list]. *)
Definition history (m : t) (training : bool) (bg : BatchedGraph)
  : M (list matrix) :=
  h <- encode m bg ;;
  let expander_node_mask := ones (shape0 (x bg)) (shape1 h) in
  for_each (seq 0 (num_layer m))
           (fun h_list layer =>
              h' <- layer_step m training bg expander_node_mask h_list layer ;;
              ret (h_list ++ [h']))
           [h].

(** [GNN_node.forward]. *)
Definition forward (m : t) (training : bool) (bg : BatchedGraph) : M matrix :=
  h_list <- history m training bg ;;
  JK_aggregate (JK m) (num_layer m) h_list.
End Def.
End GNN_node.

(* ================================================================= *)
(** ** [GNN_node_expander]: propagation with the expander phases *)

Module GNN_node_expander.
Section Def.
Context {S : Scalar}.

Record t : Type := {
  num_layer : nat;
  drop_scale : carrier;          (* 1 / (1 - drop_ratio) *)
  JK : string;
  task : string;
  residual : bool;
  expander_edge_handling : string;
  node_encoder : option NodeEncoder;
  convs : list ConvLayer;
  batch_norms : list BatchNorm1d;
  expander_left_convs : list ConvLayer;
  expander_left_batch_norms : list BatchNorm1d;
  expander_right_convs : list ConvLayer;
  expander_right_batch_norms : list BatchNorm1d;
  summation : list SumConv
}.

(** [expander_edge_handling in ["summation", "summation-mlp"]]. *)
Definition is_summation (handling : string) : bool :=
  (handling =? "summation")%string || (handling =? "summation-mlp")%string.

(** The module lists while the constructor loop fills them. *)
Record lists : Type := {
  l_convs : list ConvLayer;
  l_batch_norms : list BatchNorm1d;
  l_left_convs : list ConvLayer;
  l_left_batch_norms : list BatchNorm1d;
  l_right_convs : list ConvLayer;
  l_right_batch_norms : list BatchNorm1d;
  l_summation : list SumConv
}.

Definition no_lists : lists :=
  {| l_convs := []; l_batch_norms := []; l_left_convs := [];
     l_left_batch_norms := []; l_right_convs := [];
     l_right_batch_norms := []; l_summation := [] |}.

(** The body of the constructor loop for one [layer]. *)
Definition init_layer (a : Alloc) (num_layer_ emb_dim : nat) (task_ : string)
           (gnn_type handling : string) (acc : lists) (layer : nat)
  : result lists :=
  let inner := negb (layer =? num_layer_ - 1) in
  let st := Some "source_to_target"%string in
  rbind (new_conv a gnn_type (Main layer) emb_dim task_ None) (fun c =>
  rbind (if inner && negb (is_summation handling)
         then rbind (new_conv a gnn_type (ExpanderLeft layer) emb_dim task_ st)
                    (fun l => inr (l_left_convs acc ++ [l]))
         else inr (l_left_convs acc)) (fun lefts =>
  rbind (if inner
         then rbind (new_conv a gnn_type (ExpanderRight layer) emb_dim task_ st)
                    (fun r => inr (l_right_convs acc ++ [r]))
         else inr (l_right_convs acc)) (fun rights =>
  inr {| l_convs := l_convs acc ++ [c];
         l_batch_norms := l_batch_norms acc ++ [new_BatchNorm1d a (Main layer)];
         l_left_convs := lefts;
         l_left_batch_norms :=
           if inner
           then l_left_batch_norms acc ++ [new_BatchNorm1d a (ExpanderLeft layer)]
           else l_left_batch_norms acc;
         l_right_convs := rights;
         l_right_batch_norms :=
           if inner
           then l_right_batch_norms acc ++ [new_BatchNorm1d a (ExpanderRight layer)]
           else l_right_batch_norms acc;
         l_summation :=
           if inner && is_summation handling
           then l_summation acc
                  ++ [new_SumConv a layer emb_dim (handling =? "summation-mlp")%string]
           else l_summation acc |}))).

(** [GNN_node_expander.__init__]. *)
Definition init (a : Alloc) (num_layer_ emb_dim : nat) (task_ : string)
           (node_encoder_ : option NodeEncoder) (drop_scale_ : carrier)
           (JK_ : string) (residual_ : bool) (gnn_type handling : string)
  : result t :=
  if num_layer_ <? 2 then
    inl (ValueError "Number of GNN layers must be greater than 1.")
  else
    rbind (select_node_encoder a task_ node_encoder_) (fun enc =>
    rbind (rfor_each (seq 0 num_layer_)
                     (init_layer a num_layer_ emb_dim task_ gnn_type handling)
                     no_lists) (fun ls =>
    inr {| num_layer := num_layer_; drop_scale := drop_scale_; JK := JK_;
           task := task_; residual := residual_;
           expander_edge_handling := handling; node_encoder := enc;
           convs := l_convs ls; batch_norms := l_batch_norms ls;
           expander_left_convs := l_left_convs ls;
           expander_left_batch_norms := l_left_batch_norms ls;
           expander_right_convs := l_right_convs ls;
           expander_right_batch_norms := l_right_batch_norms ls;
           summation := l_summation ls |})).

(** [GNN_node_expander.propagate]. *)
Definition propagate (m : t) (training : bool) (conv : ConvLayer)
           (bn : BatchNorm1d) (h : matrix) (ei : edge_index)
           (edge_attr_ : option matrix) (expander_node_mask_ : matrix)
           (no_act masking : bool) (update_nodes : string) : M matrix :=
  let h_residual := h in
  let h := conv training h ei edge_attr_ masking expander_node_mask_ update_nodes in
  let h := BatchNorm1d_forward bn training h in
  h <- (if no_act
        then F_dropout h (drop_scale m) training
        else F_dropout (mrelu h) (drop_scale m) training) ;;
  ret (if residual m then madd h h_residual else h).

(** The hub phase under the summation strategies (lines 218-220). *)
Definition summation_phase (sum_conv : SumConv) (training : bool) (h : matrix)
           (ei : edge_index) (mask : matrix) : matrix :=
  let h := mmul h mask in
  let h_edge := sum_conv training h ei in
  madd h (mmul h_edge (ssub one mask)).

(** The main phase of one layer. *)
Definition main_phase (m : t) (training : bool) (bg : BatchedGraph)
           (mask : matrix) (h_list : list matrix) (layer : nat) : M matrix :=
  let no_act := layer =? num_layer m - 1 in
  conv <- index (convs m) layer ;;
  bn <- index (batch_norms m) layer ;;
  h_in <- index h_list layer ;;
  propagate m training conv bn h_in (edge_index_ bg) (edge_attr bg) mask
            no_act false "original"%string.

(** The hub phase: from the original nodes to the hub nodes. *)
Definition hub_phase (m : t) (training : bool) (bg : BatchedGraph)
           (mask : matrix) (h : matrix) (layer : nat) : M matrix :=
  if is_summation (expander_edge_handling m) then
    sum_conv <- index (summation m) layer ;;
    ret (summation_phase sum_conv training h (expander_edge_index bg) mask)
  else
    let masking := (expander_edge_handling m =? "masking")%string in
    conv <- index (expander_left_convs m) layer ;;
    bn <- index (expander_left_batch_norms m) layer ;;
    propagate m training conv bn h (expander_edge_index bg) None mask
              false masking "expander"%string.

(** The return phase: from the hub nodes back to the original nodes. *)
Definition return_phase (m : t) (training : bool) (bg : BatchedGraph)
           (mask : matrix) (h : matrix) (layer : nat) : M matrix :=
  let reverse_expander_edge_index := swap_rows (expander_edge_index bg) in
  conv <- index (expander_right_convs m) layer ;;
  bn <- index (expander_right_batch_norms m) layer ;;
  propagate m training conv bn h reverse_expander_edge_index None mask
            false false "original"%string.

(** The values of [h] at the three points of one loop iteration. *)
Record phases : Type := {
  after_main : matrix;
  after_hub : matrix;
  after_return : matrix
}.

(** One iteration of the layer loop. *)
Definition layer_step (m : t) (training : bool) (bg : BatchedGraph)
           (mask : matrix) (h_list : list matrix) (layer : nat) : M phases :=
  h1 <- main_phase m training bg mask h_list layer ;;
  if negb (layer =? num_layer m - 1) then
    h2 <- hub_phase m training bg mask h1 layer ;;
    h3 <- return_phase m training bg mask h2 layer ;;
    ret {| after_main := h1; after_hub := h2; after_return := h3 |}
  else ret {| after_main := h1; after_hub := h1; after_return := h1 |}.

(** The encoder output before masking. *)
Definition encode (m : t) (bg : BatchedGraph) : M matrix :=
  match node_encoder m with
  | None => raise (AttributeError "node_encoder")
  | Some enc =>
      if (task m =? "code2")%string
      then ret (enc (x bg) (Some (node_depth bg)))
      else ret (enc (x bg) None)
  end.

(** The expanded mask and [h_list[0]] (lines 197-201). *)
Definition initial (bg : BatchedGraph) (h : matrix) : matrix * matrix :=
  let mask := expand (expander_node_mask bg) (shape1 h) in
  (mask, mmul h mask).

(** Lines 184-241 of [forward]: the history [h_list], together with the
    values of [h] at the three points of every iteration. *)
Definition trace (m : t) (training : bool) (bg : BatchedGraph)
  : M (list matrix * list phases) :=
  h <- encode m bg ;;
  let '(mask, h0) := initial bg h in
  for_each (seq 0 (num_layer m))
           (fun acc layer =>
              p <- layer_step m training bg mask (fst acc) layer ;;
              ret (fst acc ++ [after_return p], snd acc ++ [p]))
           ([h0], []).

Definition history (m : t) (training : bool) (bg : BatchedGraph)
  : M (list matrix) :=
  tr <- trace m training bg ;;
  ret (fst tr).

(** [GNN_node_expander.forward]. *)
Definition forward (m : t) (training : bool) (bg : BatchedGraph) : M matrix :=
  h_list <- history m training bg ;;
  JK_aggregate (JK m) (num_layer m) h_list.

(** The same model with another node encoder. *)
Definition with_node_encoder (m : t) (enc : NodeEncoder) : t :=
  {| num_layer := num_layer m; drop_scale := drop_scale m; JK := JK m;
     task := task m; residual := residual m;
     expander_edge_handling := expander_edge_handling m;
     node_encoder := Some enc; convs := convs m;
     batch_norms := batch_norms m;
     expander_left_convs := expander_left_convs m;
     expander_left_batch_norms := expander_left_batch_norms m;
     expander_right_convs := expander_right_convs m;
     expander_right_batch_norms := expander_right_batch_norms m;
     summation := summation m |}.
End Def.
End GNN_node_expander.

(* ================================================================= *)
(** ** [GNN]: encoder, propagation, readout and prediction heads *)

Module GNN.
Section Def.
Context {S : Scalar}.

(** A pooling object called as [pool(h_node, batch)]. *)
Definition Pool : Type := bool -> matrix -> list Z -> matrix.

(** The pooling operators imported from [torch_geometric.nn]. *)
Record PyG : Type := {
  global_add_pool : matrix -> list Z -> matrix;
  global_mean_pool : matrix -> list Z -> matrix;
  global_max_pool : matrix -> list Z -> matrix;
  (* GlobalAttention(gate_nn) *)
  GlobalAttention : (bool -> matrix -> matrix) -> Pool;
  (* Set2Set(emb_dim, processing_steps) *)
  Set2Set : nat -> nat -> Pool
}.

(** The sublayers the [GNN] constructor allocates itself. *)
Record HeadAlloc : Type := {
  gate_Linear_in : Linear;           (* Linear(emb_dim, 2*emb_dim) *)
  gate_BatchNorm : BatchNorm1d;      (* BatchNorm1d(2*emb_dim) *)
  gate_Linear_out : Linear;          (* Linear(2*emb_dim, 1) *)
  new_pred_Linear : nat -> Linear    (* the prediction heads *)
}.

(** The keyword arguments of [GNN.__init__]. *)
Record args : Type := {
  arg_task : string;
  arg_num_class : nat;
  arg_max_seq_len : option nat;
  arg_node_encoder : option NodeEncoder;
  arg_num_layer : nat;
  arg_emb_dim : nat;
  arg_gnn_type : string;
  arg_residual : bool;
  arg_drop_scale : carrier;
  arg_JK : string;
  arg_graph_pooling : string;
  arg_expander : bool;
  arg_expander_edge_handling : string
}.

Record t : Type := {
  num_layer : nat;
  drop_scale : carrier;
  JK : string;
  emb_dim : nat;
  num_class : nat;
  task : string;
  max_seq_len : option nat;
  graph_pooling : string;
  expander : bool;
  gnn_node : GNN_node.t + GNN_node_expander.t;
  pool : Pool;
  graph_pred_linear : option Linear;
  graph_pred_linear_list : list Linear
}.

(** The pooling function selected by [graph_pooling]. *)
Definition select_pool (lib : PyG) (ha : HeadAlloc) (graph_pooling_ : string)
           (emb_dim_ : nat) : result Pool :=
  if (graph_pooling_ =? "sum")%string then inr (fun _ => global_add_pool lib)
  else if (graph_pooling_ =? "mean")%string then inr (fun _ => global_mean_pool lib)
  else if (graph_pooling_ =? "max")%string then inr (fun _ => global_max_pool lib)
  else if (graph_pooling_ =? "attention")%string then
    inr (GlobalAttention lib
           (feed_forward (gate_Linear_in ha) (gate_BatchNorm ha) (gate_Linear_out ha)))
  else if (graph_pooling_ =? "set2set")%string then inr (Set2Set lib emb_dim_ 2)
  else inl (ValueError "Invalid graph pooling type.").

(** [GNN.__init__]. *)
Definition init (lib : PyG) (a : Alloc) (ha : HeadAlloc) (c : args) : result t :=
  rbind (if (arg_task c =? "code2")%string
         then match arg_max_seq_len c with
              | Some n => inr (Some n)
              | None => inl AssertionError
              end
         else inr None) (fun msl =>
  if arg_num_layer c <? 2 then
    inl (ValueError "Number of GNN layers must be greater than 1.")
  else
    rbind (if negb (arg_expander c)
           then rbind (GNN_node.init a (arg_num_layer c) (arg_emb_dim c)
                         (arg_task c) (arg_node_encoder c) (arg_drop_scale c)
                         (arg_JK c) (arg_residual c) (arg_gnn_type c))
                      (fun n => inr (inl n))
           else rbind (GNN_node_expander.init a (arg_num_layer c) (arg_emb_dim c)
                         (arg_task c) (arg_node_encoder c) (arg_drop_scale c)
                         (arg_JK c) (arg_residual c) (arg_gnn_type c)
                         (arg_expander_edge_handling c))
                      (fun n => inr (inr n))) (fun node =>
    rbind (select_pool lib ha (arg_graph_pooling c) (arg_emb_dim c)) (fun pl =>
    inr {| num_layer := arg_num_layer c; drop_scale := arg_drop_scale c;
           JK := arg_JK c; emb_dim := arg_emb_dim c;
           num_class := arg_num_class c; task := arg_task c;
           max_seq_len := msl; graph_pooling := arg_graph_pooling c;
           expander := arg_expander c; gnn_node := node; pool := pl;
           graph_pred_linear :=
             if (arg_task c =? "code2")%string then None
             else Some (new_pred_Linear ha 0);
           graph_pred_linear_list :=
             match msl with
             | Some n => map (new_pred_Linear ha) (seq 0 n)
             | None => []
             end |}))).

(** [torch.where(expander_node_mask > 0, batch, -1) + 1]. *)
Definition sentinel_batch (mask : vec) (batch_ : list Z) : list Z :=
  map2 (fun m b => ((if gt0 m then b else -1) + 1)%Z) mask batch_.

(** Lines 324-332 of [forward]: the pooled vector of every graph. *)
Definition readout (m : t) (training : bool) (bg : BatchedGraph)
           (h_node : matrix) : matrix :=
  if expander m then
    tl (pool m training h_node (sentinel_batch (expander_node_mask bg) (batch bg)))
  else pool m training h_node (batch bg).

(** [self.gnn_node(batched_data)]. *)
Definition node_forward (m : t) (training : bool) (bg : BatchedGraph) : M matrix :=
  match gnn_node m with
  | inl n => GNN_node.forward n training bg
  | inr n => GNN_node_expander.forward n training bg
  end.

Inductive output : Type :=
| Single (pred : matrix)
| Sequence (pred_list : list matrix).

(** [GNN.forward]. *)
Definition forward (m : t) (training : bool) (bg : BatchedGraph) : M output :=
  h_node <- node_forward m training bg ;;
  let h_graph := readout m training bg h_node in
  if (task m =? "code2")%string then
    match max_seq_len m with
    | None => raise (AttributeError "max_seq_len")
    | Some n =>
        pred_list <- for_each (seq 0 n)
                       (fun acc i =>
                          l <- index (graph_pred_linear_list m) i ;;
                          ret (acc ++ [Linear_forward l h_graph]))
                       [] ;;
        ret (Sequence pred_list)
    end
  else
    match graph_pred_linear m with
    | None => raise (AttributeError "graph_pred_linear")
    | Some l => ret (Single (Linear_forward l h_graph))
    end.
End Def.
End GNN.

(* ================================================================= *)
(** ** The pooling operators of [torch_geometric.nn]

    They are library code; the definitions follow their documented
    semantics: [scatter] reduces, for every segment [g], the rows whose
    index is [g]; an empty segment gives a zero row. *)

(** The operations on one element that pooling and batch statistics need
    beyond those of [Scalar]. *)
Class FieldOps (S : Scalar) : Type := {
  div : @carrier S -> @carrier S -> @carrier S;
  smax : @carrier S -> @carrier S -> @carrier S;
  exp : @carrier S -> @carrier S;
  sqrt : @carrier S -> @carrier S;
  of_nat : nat -> @carrier S;
  softmax_eps : @carrier S;           (* 1e-16 in [softmax] *)
  bn_eps : @carrier S                 (* 1e-5 in [BatchNorm1d] *)
}.

Section Pooling.
Context {S : Scalar} {F : FieldOps S}.

(** [int(batch.max()) + 1]. *)
Definition num_segments (idx : list Z) : nat :=
  Z.to_nat (fold_right Z.max (-1)%Z idx + 1).

(** The entries of [src] whose index is [g], in order. *)
Definition segment {A} (src : list A) (idx : list Z) (g : nat) : list A :=
  map snd (filter (fun kr => Z.eqb (fst kr) (Z.of_nat g)) (combine idx src)).

(** [scatter(src, index, dim=0, dim_size=n, reduce=...)]. *)
Definition scatter (reduce : list vec -> vec) (src : matrix) (idx : list Z)
           (n : nat) : matrix :=
  map (fun g => reduce (segment src idx g)) (seq 0 n).

Definition reduce_add (d : nat) (rows : list vec) : vec :=
  fold_left vadd rows (zeros d).

Definition reduce_mean (d : nat) (rows : list vec) : vec :=
  map (fun s => div s (of_nat (Nat.max 1 (length rows)))) (reduce_add d rows).

Definition reduce_max (d : nat) (rows : list vec) : vec :=
  match rows with
  | [] => zeros d
  | r :: rest => fold_left (map2 smax) rest r
  end.

Definition global_add_pool (x_ : matrix) (idx : list Z) : matrix :=
  scatter (reduce_add (shape1 x_)) x_ idx (num_segments idx).

Definition global_mean_pool (x_ : matrix) (idx : list Z) : matrix :=
  scatter (reduce_mean (shape1 x_)) x_ idx (num_segments idx).

Definition global_max_pool (x_ : matrix) (idx : list Z) : matrix :=
  scatter (reduce_max (shape1 x_)) x_ idx (num_segments idx).

(** [t[index]] for a tensor with one row per segment. *)
Definition gather_segments (t_ : matrix) (idx : list Z) : matrix :=
  map (fun b => row t_ (Z.to_nat b)) idx.

(** [torch_geometric.utils.softmax(src, index, num_nodes=n)] on an
    [N x 1] tensor: within every segment, [exp(src - max) / (sum + 1e-16)]. *)
Definition softmax (src : matrix) (idx : list Z) (n : nat) : matrix :=
  let src_max := gather_segments (scatter (reduce_max 1) src idx n) idx in
  let out := map2 (map2 (fun s m => exp (sub s m))) src src_max in
  let out_sum := gather_segments (scatter (reduce_add 1) out idx n) idx in
  map2 (map2 (fun o s => div o (add s softmax_eps))) out out_sum.

(** [gate * x] with [gate] of shape [N x 1]. *)
Definition scale_rows (gate : matrix) (x_ : matrix) : matrix :=
  map2 (fun g r => map (mul (hd zero g)) r) gate x_.

(** [GlobalAttention(gate_nn).forward(x, batch)]. *)
Definition global_attention (gate_nn : bool -> matrix -> matrix)
           (training : bool) (x_ : matrix) (idx : list Z) : matrix :=
  let size := num_segments idx in
  let gate := gate_nn training x_ in
  let gate := softmax gate idx size in
  scatter (reduce_add (shape1 x_)) (scale_rows gate x_) idx size.

(** [torch.nn.LSTM] on a batch of one-step sequences: the same cell on
    every row, from the input row and the row's state to the output row
    and the new state. *)
Definition LSTM : Type := vec -> vec * vec -> vec * (vec * vec).

Definition dot (a b : vec) : carrier :=
  fold_left add (map2 mul a b) zero.

(** One processing step of [Set2Set]. *)
Definition set2set_step (lstm : LSTM) (x_ : matrix) (idx : list Z) (size : nat)
           (st : matrix * list (vec * vec)) : matrix * list (vec * vec) :=
  let qh := map2 lstm (fst st) (snd st) in
  let q := map fst qh in
  let e := map2 (fun r qr => [dot r qr]) x_ (gather_segments q idx) in
  let a := softmax e idx size in
  let r := scatter (reduce_add (shape1 x_)) (scale_rows a x_) idx size in
  (map2 (@app carrier) q r, map snd qh).

(** [Set2Set(in_channels, processing_steps).forward(x, batch)]. *)
Definition set2set (lstm : LSTM) (in_channels processing_steps : nat)
           (x_ : matrix) (idx : list Z) : matrix :=
  let size := num_segments idx in
  let h0 := repeat (zeros in_channels, zeros in_channels) size in
  let q_star := repeat (zeros (2 * in_channels)) size in
  fst (Nat.iter processing_steps (set2set_step lstm x_ idx size) (q_star, h0)).

(** The operators as [GNN.__init__] imports them. *)
Definition pyg (lstm : LSTM) : GNN.PyG :=
  {| GNN.global_add_pool := global_add_pool;
     GNN.global_mean_pool := global_mean_pool;
     GNN.global_max_pool := global_max_pool;
     GNN.GlobalAttention := global_attention;
     GNN.Set2Set := fun d steps _ => set2set lstm d steps |}.

(** [BatchNorm1d] in training mode with weight [gamma] and bias [beta]:
    every column is centred with its mean over the batch and divided by
    the square root of its (biased) variance plus [1e-5]. *)
Definition column (x_ : matrix) (j : nat) : vec := map (fun r => nth j r zero) x_.

Definition mean (v : vec) : carrier := div (fold_left add v zero) (of_nat (length v)).

Definition variance (v : vec) : carrier :=
  mean (map (fun a => mul (sub a (mean v)) (sub a (mean v))) v).

Definition batch_norm_train (gamma beta : vec) (x_ : matrix) : matrix :=
  map (fun r =>
         map (fun j =>
                let c := column x_ j in
                add (mul (div (sub (nth j r zero) (mean c))
                              (sqrt (add (variance c) bn_eps)))
                         (nth j gamma zero))
                    (nth j beta zero))
             (seq 0 (length r)))
      x_.
End Pooling.

(* ================================================================= *)
(** ** Vocabulary of the statements *)

Section Vocabulary.
Context {S : Scalar}.

(** The elementwise sum of a non-empty list of tensors. *)
Definition msum (hs : list matrix) : matrix :=
  match hs with
  | [] => []
  | h0 :: rest => fold_left madd rest h0
  end.

(** Node [i] is an original node / a hub node of the mask. *)
Definition original_node (mask : vec) (i : nat) : Prop :=
  nth_error mask i = Some one.
Definition hub_node (mask : vec) (i : nat) : Prop :=
  nth_error mask i = Some zero.

(** [xs] and [ys] are as long as [sel] and agree wherever [sel] selects. *)
Fixpoint same_on {A} (sel : list bool) (xs ys : list A) : Prop :=
  match sel, xs, ys with
  | [], [], [] => True
  | s :: sel', a :: xs', b :: ys' => (s = true -> a = b) /\ same_on sel' xs' ys'
  | _, _, _ => False
  end.

(** The positions whose segment index is not the sentinel 0. *)
Definition in_real_segment (idx : list Z) : list bool :=
  map (fun b => (1 <=? b)%Z) idx.

(** Two tensors with one row per segment that agree on every row but
    row 0. *)
Definition same_from_1 {A} (q q' : list A) : Prop :=
  length q = length q' /\ tl q = tl q'.

(** The run of [c] does not read the generator: its outcome is the same
    from every tape, and the tape is handed on untouched. *)
Definition tape_free {A} (c : M A) : Prop :=
  exists r : result A,
    forall t, c t = match r with
                    | inl e => inl e
                    | inr a => inr (a, t)
                    end.

(** Two runs one after the other, the second starting from the
    generator state the first one left. *)
Definition two_runs {A} (c : M A) (t : tape) : option (A * A) :=
  match c t with
  | inr (a1, t1) => match c t1 with
                    | inr (a2, _) => Some (a1, a2)
                    | inl _ => None
                    end
  | inl _ => None
  end.

(** The lengths of the module lists after [i] constructor iterations. *)
Definition lists_after (L : nat) (handling : string) (i : nat)
           (ls : GNN_node_expander.lists) : Prop :=
  let k := Nat.min i (L - 1) in
  length (GNN_node_expander.l_convs ls) = i
  /\ length (GNN_node_expander.l_batch_norms ls) = i
  /\ length (GNN_node_expander.l_left_convs ls)
     = (if GNN_node_expander.is_summation handling then 0 else k)
  /\ length (GNN_node_expander.l_left_batch_norms ls) = k
  /\ length (GNN_node_expander.l_right_convs ls) = k
  /\ length (GNN_node_expander.l_right_batch_norms ls) = k
  /\ length (GNN_node_expander.l_summation ls)
     = (if GNN_node_expander.is_summation handling then k else 0).
End Vocabulary.

(* ================================================================= *)
(** ** A small model on the integers *)

Module Example.
(** [Linear(d, 2*d)] with weight [[I; 0]] and no bias, and
    [Linear(2*d, d)] with weight [[I 0]] and no bias. *)
Definition lin_pad : Linear := fun v => v ++ zeros (length v).
Definition lin_head : Linear := fun v => firstn (Nat.div2 (length v)) v.

(** A batch normalisation whose evaluation-mode map is [s * x + b] on
    every feature.  With [s = 0] (weight 0, bias [b]) the training-mode
    output is the same constant, whatever the batch. *)
Definition affine_bn (s b : Z) : BatchNorm1d :=
  {| bn_batch := map (map (fun v => (s * v + b)%Z));
     bn_running := map (fun v => (s * v + b)%Z) |}.

Definition gin (bn : BatchNorm1d) : GINParams :=
  {| new_Linear_in := lin_pad;
     new_BatchNorm := bn;
     new_Linear_out := lin_head;
     new_eps := 0%Z;
     new_BondEncoder := map (firstn 1);
     new_Linear7 := firstn 1;
     new_Linear2 := firstn 1 |}.

(** Modelled from the spec: [SumConv] of [models/conv/summation.py],
    which is not among the sources: per target node, the sum of the
    source rows over the edges directed into it. *)
Definition sum_conv : SumConv :=
  fun _ h ei => scatter_add (gather h (fst ei)) (snd ei) (shape0 h) (shape1 h).

(** The allocation: every feed-forward block normalises with [inner],
    every layer-level normalisation is [outer].  [GCNConv] is not among
    the sources and is never requested here. *)
Definition alloc (inner outer : BatchNorm1d) : Alloc :=
  {| gin_params := fun _ => gin inner;
     new_GCNConv := fun _ _ _ _ => inl NotImplementedError;
     new_BatchNorm1d := fun _ => outer;
     new_SumConv := fun _ _ _ => sum_conv;
     new_AtomEncoder := fun x => x;
     new_Embedding := fun x => x |}.

(** Two original nodes joined by one edge, one hub node joined to both. *)
Definition graph : BatchedGraph :=
  {| x := [[1]; [2]; [5]]%Z;
     edge_index_ := ([0], [1]);
     edge_attr := Some [[1; 0; 0]]%Z;
     node_depth := [];
     batch := [0; 0; 0]%Z;
     expander_edge_index := ([0; 1], [2; 2]);
     expander_node_mask := [1; 1; 0]%Z;
     num_nodes := 3 |}.


(** The two-layer expander engine for the molecule task over [alloc]. *)
Definition engine (handling : string) (inner outer : BatchNorm1d)
  : result GNN_node_expander.t :=
  GNN_node_expander.init (alloc inner outer) 2 1 "mol" None 2%Z "last" false
                         "gin" handling.

(** The two-layer engine without expander phases over [alloc]. *)
Definition plain_engine (inner outer : BatchNorm1d) : result GNN_node.t :=
  GNN_node.init (alloc inner outer) 2 1 "mol" None 2%Z "last" false "gin".

(** The engine a successful constructor call returned. *)
Definition built (r : result GNN_node_expander.t) : GNN_node_expander.t :=
  match r with
  | inr m => m
  | inl _ =>
      {| GNN_node_expander.num_layer := 0;
         GNN_node_expander.drop_scale := 1%Z;
         GNN_node_expander.JK := "last";
         GNN_node_expander.task := "mol";
         GNN_node_expander.residual := false;
         GNN_node_expander.expander_edge_handling := "learn-features";
         GNN_node_expander.node_encoder := None;
         GNN_node_expander.convs := [];
         GNN_node_expander.batch_norms := [];
         GNN_node_expander.expander_left_convs := [];
         GNN_node_expander.expander_left_batch_norms := [];
         GNN_node_expander.expander_right_convs := [];
         GNN_node_expander.expander_right_batch_norms := [];
         GNN_node_expander.summation := [] |}
  end.

(** A generator whose first [k] outcomes are "keep" and all later ones
    "drop". *)
Definition keeps_first (k : nat) : tape := fun i => i <? k.
End Example.


(* ================================================================= *)
(** ** A small model on the real numbers, with attention pooling *)

Module RealExample.
Definition RScalar : Scalar :=
  {| carrier := R;
     zero := 0%R;
     one := 1%R;
     add := Rplus;
     sub := Rminus;
     mul := Rmult;
     relu := Rmax 0;
     gt0 := fun v => if Rlt_dec 0 v then true else false |}.

Definition RFieldOps : FieldOps RScalar :=
  @Build_FieldOps RScalar
    Rdiv                     (* div *)
    Rmax                     (* smax *)
    Rtrigo_def.exp           (* exp *)
    R_sqrt.sqrt              (* sqrt *)
    INR                      (* of_nat *)
    (/ 10 ^ 16)%R            (* softmax_eps *)
    (/ 10 ^ 5)%R.            (* bn_eps *)

#[local] Existing Instance RScalar.
#[local] Existing Instance RFieldOps.

(** [Linear(1, 2)] with weight [[1]; [0]] and [Linear(2, 1)] with weight
    [[1 0]], both without bias. *)
Definition lin_in : Linear := fun v => v ++ [0%R].
Definition lin_out : Linear := fun v => firstn 1 v.

(** A freshly initialised [BatchNorm1d(k)]: weight 1, bias 0, running
    mean 0, running variance 1. *)
Definition fresh_bn (k : nat) : BatchNorm1d :=
  {| bn_batch := batch_norm_train (repeat 1%R k) (repeat 0%R k);
     bn_running := map (fun v => (v / R_sqrt.sqrt (1 + / 10 ^ 5))%R) |}.

Definition gin : GINParams :=
  {| new_Linear_in := lin_in;
     new_BatchNorm := fresh_bn 2;
     new_Linear_out := lin_out;
     new_eps := 0%R;
     new_BondEncoder := map (firstn 1);
     new_Linear7 := firstn 1;
     new_Linear2 := firstn 1 |}.

Definition alloc : Alloc :=
  {| gin_params := fun _ => gin;
     new_GCNConv := fun _ _ _ _ => inl NotImplementedError;
     new_BatchNorm1d := fun _ => fresh_bn 1;
     new_SumConv := fun _ _ _ _ h _ => h;
     new_AtomEncoder := fun x => x;
     new_Embedding := fun x => x |}.

Definition heads : GNN.HeadAlloc :=
  {| GNN.gate_Linear_in := lin_in;
     GNN.gate_BatchNorm := fresh_bn 2;
     GNN.gate_Linear_out := lin_out;
     GNN.new_pred_Linear := fun _ v => v |}.

(** The recurrent cell plays no part below. *)
Definition lstm : LSTM := fun q st => (firstn 1 q, st).

Definition args (pooling : string) : GNN.args :=
  {| GNN.arg_task := "mol"; GNN.arg_num_class := 1;
     GNN.arg_max_seq_len := None; GNN.arg_node_encoder := None;
     GNN.arg_num_layer := 2; GNN.arg_emb_dim := 1;
     GNN.arg_gnn_type := "gin"; GNN.arg_residual := false;
     GNN.arg_drop_scale := 2%R; GNN.arg_JK := "last";
     GNN.arg_graph_pooling := pooling; GNN.arg_expander := true;
     GNN.arg_expander_edge_handling := "learn-features" |}.

(** One graph: two original nodes and one hub node. *)
Definition graph : BatchedGraph :=
  {| x := [[0]; [1]; [0]]%R;
     edge_index_ := ([0], [1]);
     edge_attr := None;
     node_depth := [];
     batch := [0; 0; 0]%Z;
     expander_edge_index := ([0; 1], [2; 2]);
     expander_node_mask := [1; 1; 0]%R;
     num_nodes := 3 |}.

(** Two node tensors that differ in the hub row only. *)
Definition h_hub_high : matrix := [[0]; [1]; [2]]%R.
Definition h_hub_low : matrix := [[0]; [1]; [-1]]%R.
End RealExample.

From Stdlib Require Import Permutation.

(* ================================================================= *)
(** ** The outcome of the constructors, as a decision table *)

Section ConstructorTable.
Context {S : Scalar}.

Definition known_task (task_ : string) : bool :=
  (task_ =? "mol")%string || (task_ =? "ppo")%string || (task_ =? "code2")%string.

Definition known_pooling (pooling : string) : bool :=
  (pooling =? "sum")%string || (pooling =? "mean")%string
  || (pooling =? "max")%string || (pooling =? "attention")%string
  || (pooling =? "set2set")%string.

(** The exception a node engine with [gnn_type = "gin"] is refused with,
    in the order the checks run; [None] when it is constructed. *)
Definition gin_engine_error (L : nat) (task_ : string)
           (enc : option NodeEncoder) : option exn :=
  if L <? 2 then
    Some (ValueError "Number of GNN layers must be greater than 1.")
  else if (task_ =? "code2")%string && (match enc with None => true | _ => false end)
  then Some AssertionError
  else if negb (known_task task_) then Some NotImplementedError
  else None.

(** The same for the whole model. *)
Definition gin_model_error (c : GNN.args) : option exn :=
  if (GNN.arg_task c =? "code2")%string
     && (match GNN.arg_max_seq_len c with None => true | _ => false end)
  then Some AssertionError
  else match gin_engine_error (GNN.arg_num_layer c) (GNN.arg_task c)
                              (GNN.arg_node_encoder c) with
       | Some e => Some e
       | None => if known_pooling (GNN.arg_graph_pooling c) then None
                 else Some (ValueError "Invalid graph pooling type.")
       end.
End ConstructorTable.

(* ================================================================= *)
(** ** Edge lists *)

(** The laws of addition under which the order of summation is
    immaterial. *)
Class AddLaws (S : Scalar) : Prop := {
  add_commutes : forall x y : carrier, add x y = add y x;
  add_associates : forall x y z : carrier, add x (add y z) = add (add x y) z
}.

Section EdgeLists.
Context {S : Scalar}.

(** A graph's edges one by one: source, target and encoded feature row.
    [edge_index] holds the sources in row 0 and the targets in row 1, the
    edge embedding holds one row per edge, in the same order. *)
Definition edge : Type := (nat * nat * vec)%type.
Definition edge_source (e : edge) : nat := fst (fst e).
Definition edge_target (e : edge) : nat := snd (fst e).
Definition edge_row (e : edge) : vec := snd e.

Definition index_of_edges (es : list edge) : edge_index :=
  (map edge_source es, map edge_target es).
Definition rows_of_edges (es : list edge) : matrix := map edge_row es.
End EdgeLists.

(* ================================================================= *)
(** ** Deleting nodes from a batch *)

(** The entries of [xs] at the positions [sel] selects, in order. *)
Definition keep_rows {A} (sel : list bool) (xs : list A) : list A :=
  map snd (filter fst (combine sel xs)).

(* ================================================================= *)
(** ** The training scripts ([exp/run_mol.py], [exp/run_ppa.py],
       [exp/run_code2.py]) *)

Section EpochLoop.
(** The validation metric and its comparison [a > b]. *)
Variable score : Type.
Variable gt : score -> score -> bool.
Variable score_zero : score.

(** [np.argmax] on a one-dimensional array: the index of the first
    entry that no other entry exceeds; an empty array raises. *)
Fixpoint argmax_from (best_i : nat) (best : score) (i : nat)
         (l : list score) : nat :=
  match l with
  | [] => best_i
  | v :: rest => if gt v best then argmax_from i v (Datatypes.S i) rest
                 else argmax_from best_i best (Datatypes.S i) rest
  end.

Definition np_argmax (l : list score) : result nat :=
  match l with
  | [] => inl (ValueError "attempt to get argmax of an empty sequence")
  | v :: rest => inr (argmax_from 0 v 1 rest)
  end.

(** The state of the epoch loop that concerns the checkpoint:
    [best_val_so_far], and the position in [valid_curve] of the epoch
    whose weights [best_val_model.pt] holds, if the file was written. *)
Record checkpoint : Type := {
  best_val_so_far : score;
  saved_epoch : option nat
}.

(** The end of one epoch:
    [if valid_perf > best_val_so_far: torch.save(...); best_val_so_far = valid_perf]. *)
Definition epoch_end (st : checkpoint) (i : nat) (valid_perf : score)
  : checkpoint :=
  if gt valid_perf (best_val_so_far st)
  then {| best_val_so_far := valid_perf; saved_epoch := Some i |}
  else st.

Fixpoint epochs_from (i : nat) (valid_curve : list score) (st : checkpoint)
  : checkpoint :=
  match valid_curve with
  | [] => st
  | v :: rest => epochs_from (Datatypes.S i) rest (epoch_end st i v)
  end.

(** The whole loop, started with [best_val_so_far = 0]. *)
Definition run_epochs (valid_curve : list score) : checkpoint :=
  epochs_from 0 valid_curve
              {| best_val_so_far := score_zero; saved_epoch := None |}.
End EpochLoop.

(** [t[lo:hi]] for non-negative bounds. *)
Definition slice {A} (lo hi : nat) (l : list A) : list A :=
  skipn lo (firstn hi l).

(** The random split of [run_code2.py] (lines 196-204): the three slices
    of the permutation and the three assertions on their lengths. *)
Definition random_split (perm : list nat) (num_train num_valid num_test : nat)
  : result (list nat * list nat * list nat) :=
  let train := firstn num_train perm in
  let valid := slice num_train (num_train + num_valid) perm in
  let test := skipn (num_train + num_valid) perm in
  if negb (length train =? num_train) then inl AssertionError
  else if negb (length valid =? num_valid) then inl AssertionError
  else if negb (length test =? num_test) then inl AssertionError
  else inr (train, valid, test).

From Stdlib Require PrimFloat.

(* ================================================================= *)
(** ** The encoder output *)

Section EncoderOutput.
Context {S : Scalar}.

(** What the node encoder of the task returns on a batch:
    [AtomEncoder(emb_dim)(x)], [Embedding(1, emb_dim)(x)], or the supplied
    encoder on [x] and the node depths. *)
Definition encoder_output (a : Alloc) (task_ : string)
           (node_encoder : option NodeEncoder) (bg : BatchedGraph)
  : option matrix :=
  if (task_ =? "mol")%string then Some (new_AtomEncoder a (x bg))
  else if (task_ =? "ppa")%string then Some (new_Embedding a (x bg))
  else if (task_ =? "code2")%string then
    match node_encoder with
    | Some e => Some (e (x bg) (Some (node_depth bg)))
    | None => None
    end
  else None.

(** [torch.nn.BatchNorm1d] refuses a training batch with a single value
    per channel ([ValueError]); [BatchNorm1d_forward] gives the value on
    the batches it accepts. *)
Definition batch_norm_accepts (training : bool) (bg : BatchedGraph) : Prop :=
  training = false \/ shape0 (x bg) <> 1.
End EncoderOutput.

(* ================================================================= *)
(** ** A small model on binary64 floating-point numbers

    The tensors of the program hold IEEE 754 numbers; the special values
    (infinities, NaN, the two zeros) behave in binary64 as they do in the
    binary32 of the program. *)

Module FloatExample.
Definition FScalar : Scalar :=
  {| carrier := PrimFloat.float;
     zero := PrimFloat.zero;
     one := PrimFloat.one;
     add := PrimFloat.add;
     sub := PrimFloat.sub;
     mul := PrimFloat.mul;
     relu := fun v => if PrimFloat.ltb v PrimFloat.zero then PrimFloat.zero else v;
     gt0 := fun v => PrimFloat.ltb PrimFloat.zero v |}.

#[local] Existing Instance FScalar.

Definition two : PrimFloat.float := PrimFloat.two.
Definition five : PrimFloat.float :=
  PrimFloat.add (PrimFloat.add PrimFloat.two PrimFloat.two) PrimFloat.one.

(** [Linear(1, 2)] with weight [[1]; [0]] and [Linear(2, 1)] with weight
    [[1 0]], both without bias. *)
Definition lin_in : Linear := fun v => v ++ [PrimFloat.zero].
Definition lin_out : Linear := fun v => firstn 1 v.

(** A normalisation with weight 1, bias 0 and identity statistics. *)
Definition id_bn : BatchNorm1d :=
  {| bn_batch := fun h => h; bn_running := fun v => v |}.

Definition gin : GINParams :=
  {| new_Linear_in := lin_in;
     new_BatchNorm := id_bn;
     new_Linear_out := lin_out;
     new_eps := PrimFloat.zero;
     new_BondEncoder := map (firstn 1);
     new_Linear7 := firstn 1;
     new_Linear2 := firstn 1 |}.

(** A summation layer whose result overflows on every row. *)
Definition overflowing_sum : SumConv :=
  fun _ h _ => map (map (fun _ => PrimFloat.infinity)) h.

Definition alloc : Alloc :=
  {| gin_params := fun _ => gin;
     new_GCNConv := fun _ _ _ _ => inl NotImplementedError;
     new_BatchNorm1d := fun _ => id_bn;
     new_SumConv := fun _ _ _ => overflowing_sum;
     new_AtomEncoder := fun x => x;
     new_Embedding := fun x => x |}.

(** Two original nodes and one hub node joined to both. *)
Definition graph : BatchedGraph :=
  {| x := [[PrimFloat.one]; [two]; [five]];
     edge_index_ := ([0], [1]);
     edge_attr := None;
     node_depth := [];
     batch := [0; 0; 0]%Z;
     expander_edge_index := ([0; 1], [2; 2]);
     expander_node_mask := [PrimFloat.one; PrimFloat.one; PrimFloat.zero];
     num_nodes := 3 |}.

(** A node encoder of the sequence task whose output overflows on the
    last node. *)
Definition overflowing_encoder : NodeEncoder :=
  fun x_ _ => firstn 2 x_ ++ [[PrimFloat.infinity]].

Definition engine (task_ : string) (enc : option NodeEncoder) (handling : string)
  : result GNN_node_expander.t :=
  GNN_node_expander.init alloc 2 1 task_ enc two "last" false "gin" handling.

Definition has_nan (v : vec) : bool := existsb PrimFloat.is_nan v.
End FloatExample.

(* ================================================================= *)
(** ** What the constructor loops store *)

Section ConstructedLists.
Context {S : Scalar}.



End ConstructedLists.

(* ================================================================= *)
(** ** The aggregation over a well-formed edge list *)

Section EdgeSum.
Context {S : Scalar}.

(** Per target node, the sum over the edges of the graph that arrive at
    it of the edge's message; the graph has one edge per column of
    [edge_index]. *)
Definition edge_sum (x_ : matrix) (ei : edge_index)
           (edge_embedding : option matrix) : matrix :=
  map (fun i => fold_left vadd
                  (map (edge_message x_ (fst ei) edge_embedding)
                       (incoming (snd ei) (length (fst ei)) i))
                  (zeros (shape1 x_)))
      (seq 0 (shape0 x_)).
End EdgeSum.

(* ================================================================= *)
(** * Properties *)

Lemma ZScalar_exact : ExactScalar ZScalar.
Proof.
  constructor; simpl; try reflexivity; intros z; try lia.
  destruct z; reflexivity.
Qed.

(** ** Lists and rows *)

Section ListFacts.
Context {A B C : Type}.

Lemma map2_length (f : A -> B -> C) xs ys :
  length (map2 f xs ys) = Nat.min (length xs) (length ys).
Proof.
  revert ys; induction xs as [|x xs IH]; intros [|y ys]; simpl; auto.
Qed.

Lemma map2_nth (f : A -> B -> C) xs ys k da db dc :
  k < length xs -> k < length ys ->
  nth k (map2 f xs ys) dc = f (nth k xs da) (nth k ys db).
Proof.
  revert ys k; induction xs as [|x xs IH]; intros [|y ys] [|k]; simpl;
    intros; try lia; auto.
  apply IH; lia.
Qed.

Lemma combine_nth_min (xs : list A) (ys : list B) k da db :
  k < length xs -> k < length ys ->
  nth k (combine xs ys) (da, db) = (nth k xs da, nth k ys db).
Proof.
  revert ys k; induction xs as [|x xs IH]; intros [|y ys] [|k]; simpl;
    intros; try lia; auto.
  apply IH; lia.
Qed.

Lemma map_nth_in (f : A -> B) xs k da db :
  k < length xs -> nth k (map f xs) db = f (nth k xs da).
Proof.
  revert k; induction xs as [|x xs IH]; intros [|k]; simpl; intros;
    try lia; auto.
  apply IH; lia.
Qed.

Lemma list_as_map_nth (xs : list A) d :
  xs = map (fun k => nth k xs d) (seq 0 (length xs)).
Proof.
  induction xs as [|x xs IH]; simpl; auto.
  f_equal. rewrite <- seq_shift, map_map. exact IH.
Qed.

Lemma filter_map_comm (p : B -> bool) (f : A -> B) xs :
  filter p (map f xs) = map f (filter (fun a => p (f a)) xs).
Proof.
  induction xs as [|x xs IH]; simpl; auto.
  destruct (p (f x)); simpl; rewrite IH; reflexivity.
Qed.
End ListFacts.

Section RowFacts.
Context {S : Scalar}.

Lemma set_row_length (m : matrix) k r : length (set_row m k r) = length m.
Proof.
  revert k; induction m as [|r0 m IH]; intros [|k]; simpl; auto.
Qed.

Lemma row_set_row_same (m : matrix) k r :
  k < length m -> row (set_row m k r) k = r.
Proof.
  unfold row; revert k; induction m as [|r0 m IH]; intros [|k]; simpl;
    intros; try lia; auto.
  apply IH; lia.
Qed.

Lemma row_set_row_other (m : matrix) k i r :
  i <> k -> row (set_row m k r) i = row m i.
Proof.
  unfold row; revert k i; induction m as [|r0 m IH]; intros [|k] [|i]; simpl;
    intros; try congruence; auto.
Qed.

(** One scatter step seen from row [i]. *)
Lemma scatter_fold_row (krs : list (nat * vec)) (acc : matrix) i :
  i < length acc ->
  row (fold_left (fun out kr =>
                    set_row out (fst kr) (vadd (row out (fst kr)) (snd kr)))
                 krs acc) i
  = fold_left vadd (map snd (filter (fun kr => Nat.eqb (fst kr) i) krs))
              (row acc i).
Proof.
  revert acc; induction krs as [|[k r] krs IH]; intros acc Hi; simpl; auto.
  rewrite IH by (rewrite set_row_length; exact Hi).
  destruct (Nat.eqb_spec k i) as [->|Hne]; simpl.
  - rewrite row_set_row_same by exact Hi. reflexivity.
  - rewrite row_set_row_other by congruence. reflexivity.
Qed.

Lemma scatter_fold_length (krs : list (nat * vec)) (acc : matrix) :
  length (fold_left (fun out kr =>
                       set_row out (fst kr) (vadd (row out (fst kr)) (snd kr)))
                    krs acc) = length acc.
Proof.
  revert acc; induction krs as [|kr krs IH]; intros acc; simpl; auto.
  rewrite IH, set_row_length. reflexivity.
Qed.

Lemma row_repeat (r : vec) n i : i < n -> row (repeat r n) i = r.
Proof.
  unfold row; revert i; induction n as [|n IH]; intros [|i]; simpl; intros;
    try lia; auto.
  apply IH; lia.
Qed.

(** [scatter_add] row by row: each row is the sum, in edge order, of
    the source rows sent to it. *)
Lemma scatter_add_rows (src : matrix) idx n d :
  scatter_add src idx n d
  = map (fun i => fold_left vadd
                    (map snd (filter (fun kr => Nat.eqb (fst kr) i)
                                     (combine idx src)))
                    (zeros d))
        (seq 0 n).
Proof.
  unfold scatter_add.
  set (out := fold_left _ _ _).
  assert (Hlen : length out = n).
  { unfold out. rewrite scatter_fold_length, repeat_length. reflexivity. }
  rewrite (list_as_map_nth out []), Hlen.
  apply map_ext_in; intros i Hi. apply in_seq in Hi.
  change (nth i out []) with (row out i). unfold out.
  rewrite scatter_fold_row by (rewrite repeat_length; lia).
  rewrite row_repeat by lia. reflexivity.
Qed.
End RowFacts.

(** ** The additive convolution *)

Section GINFacts.
Context {S : Scalar}.

Lemma message_length (xj : matrix) (emb : option matrix) :
  length (message xj emb)
  = match emb with
    | Some ea => Nat.min (length xj) (length ea)
    | None => length xj
    end.
Proof.
  destruct emb; simpl; unfold mrelu, madd.
  - rewrite length_map, map2_length. reflexivity.
  - rewrite length_map. reflexivity.
Qed.

Lemma message_nth (x : matrix) sources (emb : option matrix) e :
  e < length (message (gather x sources) emb) ->
  nth e (message (gather x sources) emb) [] = edge_message x sources emb e.
Proof.
  rewrite message_length. unfold gather, edge_message, message.
  destruct emb as [ea|]; rewrite ?length_map; intros He.
  - unfold mrelu, madd.
    rewrite (map_nth_in vrelu _ e []) by (rewrite map2_length, length_map; lia).
    rewrite (map2_nth vadd _ _ e [] [] []) by (rewrite ?length_map; lia).
    rewrite (map_nth_in (row x) _ e O) by lia. reflexivity.
  - unfold mrelu.
    rewrite (map_nth_in vrelu _ e []) by (rewrite length_map; lia).
    rewrite (map_nth_in (row x) _ e O) by lia. reflexivity.
Qed.

(** The messages scattered to node [i] are the messages of the edges
    that arrive at [i], in edge order. *)
Lemma scattered_messages (x : matrix) sources targets emb i :
  let msgs := message (gather x sources) emb in
  map snd (filter (fun kr => Nat.eqb (fst kr) i) (combine targets msgs))
  = map (edge_message x sources emb)
        (incoming targets (Nat.min (length targets) (length msgs)) i).
Proof.
  intros msgs. set (l := combine targets msgs).
  assert (Hl : length l = Nat.min (length targets) (length msgs))
    by apply length_combine.
  rewrite (list_as_map_nth l (O, [])) at 1.
  rewrite filter_map_comm, map_map, Hl. unfold incoming.
  erewrite filter_ext_in.
  - apply map_ext_in. intros e He. apply filter_In in He as [He _].
    apply in_seq in He. unfold l.
    rewrite combine_nth_min by lia. simpl.
    apply message_nth. fold msgs. lia.
  - intros e He. apply in_seq in He. unfold l.
    rewrite combine_nth_min by lia. reflexivity.
Qed.

(** The aggregation computed by gather and scatter is the per-target
    sum over incoming edges. *)
Lemma propagate_is_incoming_sum (x : matrix) ei emb :
  mp_propagate "source_to_target" message update ei x emb
  = incoming_sum x ei emb.
Proof.
  unfold mp_propagate, update, incoming_sum. simpl.
  rewrite scatter_add_rows. apply map_ext. intros i.
  rewrite scattered_messages. rewrite message_length.
  unfold gather. rewrite length_map.
  destruct emb as [ea|]; [rewrite Nat.min_assoc|]; reflexivity.
Qed.

Context {E : ExactScalar S}.

Lemma vmul_repeat_one (r : vec) d :
  length r = d -> vmul r (repeat one d) = r.
Proof.
  unfold vmul.
  revert d; induction r as [|a r IH]; intros [|d] H; simpl in *;
    try discriminate; auto.
  rewrite mul_one_r. f_equal. apply IH. congruence.
Qed.

Lemma vmul_repeat_zero (r : vec) d :
  length r = d -> vmul r (repeat zero d) = zeros d.
Proof.
  unfold vmul, zeros.
  revert d; induction r as [|a r IH]; intros [|d] H; simpl in *;
    try discriminate; auto.
  rewrite mul_zero_r. f_equal. apply IH. congruence.
Qed.

Lemma mmul_expand_bits (h : matrix) bits d :
  Forall (fun r => length r = d) h -> length bits = length h ->
  mmul h (expand (map of_bool bits) d) = zero_hub_rows bits h.
Proof.
  unfold mmul, zero_hub_rows, expand.
  intros Hw. revert bits; induction Hw as [|r h Hr Hw IH];
    intros [|b bits] Hb; simpl in *; try discriminate; auto.
  f_equal.
  - destruct b; simpl.
    + apply vmul_repeat_one; exact Hr.
    + rewrite Hr. apply vmul_repeat_zero; exact Hr.
  - apply IH. congruence.
Qed.

Lemma shaped_shape1 n d (h : matrix) :
  shaped n d h -> h <> [] -> shape1 h = d.
Proof.
  intros [_ Hw] Hne. destruct h as [|r h]; [congruence|].
  inversion Hw; subst. reflexivity.
Qed.

Lemma masked_input_bits n d (h : matrix) bits masking :
  shaped n d h -> length bits = n ->
  masked_input h masking (expand (map of_bool bits) (shape1 h))
  = if masking then zero_hub_rows bits h else h.
Proof.
  intros Hs Hb. destruct masking; simpl; auto.
  destruct h as [|r h].
  - destruct bits; reflexivity.
  - rewrite (shaped_shape1 n d _ Hs) by discriminate.
    destruct Hs as [Hn Hw]. apply mmul_expand_bits; congruence.
Qed.
End GINFacts.

(** ** The forward-pass monad *)

Section MonadFacts.
Context {S : Scalar}.

Lemma bind_returns {A B} (c : M A) (k : A -> M B) t a t' :
  c t = inr (a, t') -> bind c k t = k a t'.
Proof. unfold bind. intros ->. reflexivity. Qed.

Lemma index_in_range {A} (xs : list A) i t :
  i < length xs -> exists a, nth_error xs i = Some a /\ index xs i t = inr (a, t).
Proof.
  intros Hi. unfold index.
  destruct (nth_error xs i) as [a|] eqn:Ha.
  - exists a. split; reflexivity.
  - apply nth_error_None in Ha. lia.
Qed.

Lemma dropout_rows_returns scale (h : matrix) t :
  exists h' t', dropout_rows scale h t = inr (h', t').
Proof.
  revert t; induction h as [|r h IH]; intros t; simpl.
  - exists [], t. reflexivity.
  - unfold bind at 1. unfold dropout_row, bind, draw, ret.
    destruct (IH (fun k => t (length r + k))) as (h' & t' & ->).
    eexists _, _. reflexivity.
Qed.

Lemma F_dropout_returns (h : matrix) scale training t :
  exists h' t', F_dropout h scale training t = inr (h', t').
Proof.
  destruct training; simpl.
  - apply dropout_rows_returns.
  - exists h, t. reflexivity.
Qed.

(** A loop over [range(start, start+len)] whose body keeps an invariant
    and always returns, returns with the invariant. *)
Lemma for_each_invariant {A} (P : nat -> A -> Prop) (body : A -> nat -> M A)
      len : forall start acc t,
  P start acc ->
  (forall i acc t, start <= i < start + len -> P i acc ->
                   exists acc' t', body acc i t = inr (acc', t') /\ P (Datatypes.S i) acc') ->
  exists acc' t', for_each (seq start len) body acc t = inr (acc', t')
                  /\ P (start + len) acc'.
Proof.
  induction len as [|len IH]; intros start acc t HP Hbody; simpl.
  - exists acc, t. rewrite Nat.add_0_r. split; [reflexivity|exact HP].
  - destruct (Hbody start acc t) as (acc1 & t1 & Hrun & HP1); [lia|exact HP|].
    rewrite (bind_returns _ _ _ _ _ Hrun).
    destruct (IH (Datatypes.S start) acc1 t1 HP1) as (acc2 & t2 & Hrest & HP2).
    { intros i acc' t' Hi. apply Hbody. lia. }
    exists acc2, t2. split; [exact Hrest|].
    replace (start + Datatypes.S len) with (Datatypes.S start + len) by lia.
    exact HP2.
Qed.

Lemma rfor_each_invariant {A} (P : nat -> A -> Prop)
      (body : A -> nat -> result A) len : forall start acc out,
  P start acc ->
  (forall i acc acc', start <= i < start + len -> P i acc ->
                      body acc i = inr acc' -> P (Datatypes.S i) acc') ->
  rfor_each (seq start len) body acc = inr out ->
  P (start + len) out.
Proof.
  induction len as [|len IH]; intros start acc out HP Hbody; simpl.
  - intros [= <-]. rewrite Nat.add_0_r. exact HP.
  - destruct (body acc start) as [e|acc1] eqn:Hb; simpl; [discriminate|].
    intros Hrest.
    replace (start + Datatypes.S len) with (Datatypes.S start + len) by lia.
    apply (IH (Datatypes.S start) acc1 out).
    + apply (Hbody start acc acc1); [lia|exact HP|exact Hb].
    + intros i a a' Hi. apply Hbody. lia.
    + exact Hrest.
Qed.
End MonadFacts.

(** ** What the constructors build *)

Section InitFacts.
Context {S : Scalar}.

Lemma GNN_node_init_fields a L emb task_ enc ds jk res gt m :
  GNN_node.init a L emb task_ enc ds jk res gt = inr m ->
  GNN_node.num_layer m = L /\ 2 <= L /\ GNN_node.JK m = jk
  /\ GNN_node.task m = task_
  /\ select_node_encoder a task_ enc = inr (GNN_node.node_encoder m)
  /\ length (GNN_node.convs m) = L /\ length (GNN_node.batch_norms m) = L.
Proof.
  unfold GNN_node.init.
  destruct (Nat.ltb_spec L 2) as [|HL]; [discriminate|].
  destruct (select_node_encoder a task_ enc) as [e|ne]; simpl; [discriminate|].
  destruct (rfor_each _ _ _) as [e|ls] eqn:Hloop; simpl; [discriminate|].
  intros [= <-]; simpl.
  apply (rfor_each_invariant
           (fun i (acc : list ConvLayer * list BatchNorm1d) =>
              length (fst acc) = i /\ length (snd acc) = i)) in Hloop.
  - simpl in Hloop. intuition.
  - simpl; auto.
  - intros i acc acc' _ [H1 H2] Hb.
    destruct (new_conv _ _ _ _ _ _); simpl in Hb; [discriminate|].
    injection Hb as <-. simpl. rewrite !length_app, H1, H2. simpl. lia.
Qed.

Lemma init_layer_lists a L emb task_ gt handling acc i acc' :
  i < L -> lists_after L handling i acc ->
  GNN_node_expander.init_layer a L emb task_ gt handling acc i = inr acc' ->
  lists_after L handling (Datatypes.S i) acc'.
Proof.
  unfold lists_after, GNN_node_expander.init_layer.
  remember (Nat.min i (L - 1)) as k eqn:Hk.
  remember (Nat.min (Datatypes.S i) (L - 1)) as k' eqn:Hk'.
  intros Hi (H1 & H2 & H3 & H4 & H5 & H6 & H7).
  destruct (new_conv a gt (Main i) emb task_ None); simpl; [discriminate|].
  destruct (GNN_node_expander.is_summation handling);
    destruct (Nat.eqb_spec i (L - 1)) as [Heq|Hne]; simpl;
    repeat (match goal with
            | |- context [new_conv ?a ?g ?s ?e ?t ?f] =>
                destruct (new_conv a g s e t f); simpl; [discriminate|]
            end);
    intros [= <-]; simpl;
    rewrite ?length_app, H1, H2, H3, H4, H5, H6, H7; simpl;
    repeat split; lia.
Qed.

Lemma GNN_node_expander_init_fields a L emb task_ enc ds jk res gt handling m :
  GNN_node_expander.init a L emb task_ enc ds jk res gt handling = inr m ->
  GNN_node_expander.num_layer m = L /\ 2 <= L /\ GNN_node_expander.JK m = jk
  /\ GNN_node_expander.task m = task_
  /\ GNN_node_expander.expander_edge_handling m = handling
  /\ select_node_encoder a task_ enc = inr (GNN_node_expander.node_encoder m)
  /\ lists_after L handling L
       {| GNN_node_expander.l_convs := GNN_node_expander.convs m;
          GNN_node_expander.l_batch_norms := GNN_node_expander.batch_norms m;
          GNN_node_expander.l_left_convs := GNN_node_expander.expander_left_convs m;
          GNN_node_expander.l_left_batch_norms :=
            GNN_node_expander.expander_left_batch_norms m;
          GNN_node_expander.l_right_convs := GNN_node_expander.expander_right_convs m;
          GNN_node_expander.l_right_batch_norms :=
            GNN_node_expander.expander_right_batch_norms m;
          GNN_node_expander.l_summation := GNN_node_expander.summation m |}.
Proof.
  unfold GNN_node_expander.init.
  destruct (Nat.ltb_spec L 2) as [|HL]; [discriminate|].
  destruct (select_node_encoder a task_ enc) as [e|ne]; simpl; [discriminate|].
  destruct (rfor_each _ _ _) as [e|ls] eqn:Hloop; simpl; [discriminate|].
  intros [= <-]; simpl.
  apply (rfor_each_invariant (lists_after L handling)) in Hloop.
  - destruct ls; simpl in *. intuition.
  - unfold lists_after; simpl.
    destruct (GNN_node_expander.is_summation handling); intuition.
  - intros i acc acc' Hi HP Hb. apply (init_layer_lists a L emb task_ gt handling acc i); auto.
    lia.
Qed.
End InitFacts.

(** ** The layer loops return *)

Section LoopFacts.
Context {S : Scalar}.

Lemma GNN_node_layer_step_returns m training bg mask h_list layer t :
  layer < length h_list ->
  layer < length (GNN_node.convs m) ->
  layer < length (GNN_node.batch_norms m) ->
  exists h t', GNN_node.layer_step m training bg mask h_list layer t = inr (h, t').
Proof.
  intros H1 H2 H3. unfold GNN_node.layer_step.
  destruct (index_in_range h_list layer t H1) as (h_in & _ & R1).
  rewrite (bind_returns _ _ _ _ _ R1).
  destruct (index_in_range (GNN_node.convs m) layer t H2) as (conv & _ & R2).
  rewrite (bind_returns _ _ _ _ _ R2).
  destruct (index_in_range (GNN_node.batch_norms m) layer t H3) as (bn & _ & R3).
  rewrite (bind_returns _ _ _ _ _ R3).
  match goal with
  | |- context [bind ?c _ t] =>
      assert (Hd : exists h' t', c t = inr (h', t'))
        by (destruct (layer =? _); apply F_dropout_returns);
      destruct Hd as (h' & t' & Hd); rewrite (bind_returns _ _ _ _ _ Hd)
  end.
  eexists _, _. reflexivity.
Qed.

Lemma GNN_node_history_returns m training bg enc t :
  GNN_node.node_encoder m = Some enc ->
  length (GNN_node.convs m) = GNN_node.num_layer m ->
  length (GNN_node.batch_norms m) = GNN_node.num_layer m ->
  exists h_list t',
    GNN_node.history m training bg t = inr (h_list, t')
    /\ length h_list = GNN_node.num_layer m + 1
    /\ GNN_node.encode m bg t = inr (hd [] h_list, t).
Proof.
  intros Henc Hc Hb. unfold GNN_node.history.
  assert (He : exists h, GNN_node.encode m bg t = inr (h, t)).
  { unfold GNN_node.encode. rewrite Henc.
    destruct (GNN_node.task m =? "code2")%string; eexists; reflexivity. }
  destruct He as (h & He). rewrite (bind_returns _ _ _ _ _ He).
  destruct (for_each_invariant
              (fun i (hl : list matrix) => length hl = i + 1 /\ hd [] hl = h)
              (fun h_list layer =>
                 h' <- GNN_node.layer_step m training bg
                         (ones (shape0 (x bg)) (shape1 h)) h_list layer ;;
                 ret (h_list ++ [h']))
              (GNN_node.num_layer m) 0 [h] t) as (hl & t' & Hrun & Hlen & Hhd).
  - split; reflexivity.
  - intros i acc t0 Hi [Hlen Hhd].
    destruct (GNN_node_layer_step_returns m training bg
                (ones (shape0 (x bg)) (shape1 h)) acc i t0) as (h' & t' & Hs);
      try lia.
    rewrite (bind_returns _ _ _ _ _ Hs). eexists _, _. split; [reflexivity|].
    rewrite length_app, Hlen. simpl. split; [lia|].
    destruct acc; [simpl in Hlen; lia|exact Hhd].
  - exists hl, t'. rewrite Hhd. auto.
Qed.

Lemma propagate_returns m training conv bn h ei ea mask no_act masking un t :
  exists h' t',
    GNN_node_expander.propagate m training conv bn h ei ea mask no_act masking un t
    = inr (h', t').
Proof.
  unfold GNN_node_expander.propagate.
  match goal with
  | |- context [bind ?c _ t] =>
      assert (Hd : exists h' t', c t = inr (h', t'))
        by (destruct no_act; apply F_dropout_returns);
      destruct Hd as (h' & t' & Hd); rewrite (bind_returns _ _ _ _ _ Hd)
  end.
  eexists _, _. reflexivity.
Qed.

Lemma expander_layer_step_returns m training bg mask h_list layer t :
  layer < length h_list ->
  layer < GNN_node_expander.num_layer m ->
  lists_after (GNN_node_expander.num_layer m)
              (GNN_node_expander.expander_edge_handling m)
              (GNN_node_expander.num_layer m)
       {| GNN_node_expander.l_convs := GNN_node_expander.convs m;
          GNN_node_expander.l_batch_norms := GNN_node_expander.batch_norms m;
          GNN_node_expander.l_left_convs := GNN_node_expander.expander_left_convs m;
          GNN_node_expander.l_left_batch_norms :=
            GNN_node_expander.expander_left_batch_norms m;
          GNN_node_expander.l_right_convs := GNN_node_expander.expander_right_convs m;
          GNN_node_expander.l_right_batch_norms :=
            GNN_node_expander.expander_right_batch_norms m;
          GNN_node_expander.l_summation := GNN_node_expander.summation m |} ->
  exists p t',
    GNN_node_expander.layer_step m training bg mask h_list layer t = inr (p, t').
Proof.
  intros H1 HL (L1 & L2 & L3 & L4 & L5 & L6 & L7). simpl in *.
  unfold GNN_node_expander.layer_step.
  assert (Hmain : exists h1 t1,
             GNN_node_expander.main_phase m training bg mask h_list layer t
             = inr (h1, t1)).
  { unfold GNN_node_expander.main_phase.
    destruct (index_in_range (GNN_node_expander.convs m) layer t)
      as (conv & _ & R1); [lia|].
    rewrite (bind_returns _ _ _ _ _ R1).
    destruct (index_in_range (GNN_node_expander.batch_norms m) layer t)
      as (bn & _ & R2); [lia|].
    rewrite (bind_returns _ _ _ _ _ R2).
    destruct (index_in_range h_list layer t H1) as (h_in & _ & R3).
    rewrite (bind_returns _ _ _ _ _ R3). apply propagate_returns. }
  destruct Hmain as (h1 & t1 & Hmain). rewrite (bind_returns _ _ _ _ _ Hmain).
  destruct (Nat.eqb_spec layer (GNN_node_expander.num_layer m - 1)) as [|Hne];
    simpl; [eexists _, _; reflexivity|].
  assert (Hin : layer < Nat.min (GNN_node_expander.num_layer m)
                               (GNN_node_expander.num_layer m - 1)) by lia.
  assert (Hhub : exists h2 t2,
             GNN_node_expander.hub_phase m training bg mask h1 layer t1 = inr (h2, t2)).
  { unfold GNN_node_expander.hub_phase.
    destruct (GNN_node_expander.is_summation _).
    - destruct (index_in_range (GNN_node_expander.summation m) layer t1)
        as (sc & _ & R); [lia|].
      rewrite (bind_returns _ _ _ _ _ R). eexists _, _. reflexivity.
    - destruct (index_in_range (GNN_node_expander.expander_left_convs m) layer t1)
        as (lc & _ & R); [lia|].
      rewrite (bind_returns _ _ _ _ _ R).
      destruct (index_in_range (GNN_node_expander.expander_left_batch_norms m)
                  layer t1) as (lb & _ & R'); [lia|].
      rewrite (bind_returns _ _ _ _ _ R'). apply propagate_returns. }
  destruct Hhub as (h2 & t2 & Hhub). rewrite (bind_returns _ _ _ _ _ Hhub).
  assert (Hret : exists h3 t3,
             GNN_node_expander.return_phase m training bg mask h2 layer t2
             = inr (h3, t3)).
  { unfold GNN_node_expander.return_phase.
    destruct (index_in_range (GNN_node_expander.expander_right_convs m) layer t2)
      as (rc & _ & R); [lia|].
    rewrite (bind_returns _ _ _ _ _ R).
    destruct (index_in_range (GNN_node_expander.expander_right_batch_norms m)
                layer t2) as (rb & _ & R'); [lia|].
    rewrite (bind_returns _ _ _ _ _ R'). apply propagate_returns. }
  destruct Hret as (h3 & t3 & Hret). rewrite (bind_returns _ _ _ _ _ Hret).
  eexists _, _. reflexivity.
Qed.
End LoopFacts.

Section HistoryFacts.
Context {S : Scalar}.

Lemma expander_history_returns m training bg enc t :
  GNN_node_expander.node_encoder m = Some enc ->
  lists_after (GNN_node_expander.num_layer m)
              (GNN_node_expander.expander_edge_handling m)
              (GNN_node_expander.num_layer m)
       {| GNN_node_expander.l_convs := GNN_node_expander.convs m;
          GNN_node_expander.l_batch_norms := GNN_node_expander.batch_norms m;
          GNN_node_expander.l_left_convs := GNN_node_expander.expander_left_convs m;
          GNN_node_expander.l_left_batch_norms :=
            GNN_node_expander.expander_left_batch_norms m;
          GNN_node_expander.l_right_convs := GNN_node_expander.expander_right_convs m;
          GNN_node_expander.l_right_batch_norms :=
            GNN_node_expander.expander_right_batch_norms m;
          GNN_node_expander.l_summation := GNN_node_expander.summation m |} ->
  exists h h_list ps t',
    GNN_node_expander.encode m bg t = inr (h, t)
    /\ GNN_node_expander.trace m training bg t = inr ((h_list, ps), t')
    /\ GNN_node_expander.history m training bg t = inr (h_list, t')
    /\ length h_list = GNN_node_expander.num_layer m + 1
    /\ length ps = GNN_node_expander.num_layer m
    /\ hd [] h_list = snd (GNN_node_expander.initial bg h).
Proof.
  intros Henc Hl.
  assert (He : exists h, GNN_node_expander.encode m bg t = inr (h, t)).
  { unfold GNN_node_expander.encode. rewrite Henc.
    destruct (GNN_node_expander.task m =? "code2")%string; eexists; reflexivity. }
  destruct He as (h & He).
  set (mask := expand (expander_node_mask bg) (shape1 h)).
  destruct (for_each_invariant
              (fun i (acc : list matrix * list GNN_node_expander.phases) =>
                 length (fst acc) = i + 1 /\ length (snd acc) = i
                 /\ hd [] (fst acc) = mmul h mask)
              (fun acc layer =>
                 p <- GNN_node_expander.layer_step m training bg mask (fst acc) layer ;;
                 ret (fst acc ++ [GNN_node_expander.after_return p], snd acc ++ [p]))
              (GNN_node_expander.num_layer m) 0 ([mmul h mask], []) t)
    as ([hl ps] & t' & Hrun & Hlen & Hps & Hhd).
  - repeat split; reflexivity.
  - intros i [acc ps] t0 Hi (Hlen & Hps & Hhd). simpl in *.
    destruct (expander_layer_step_returns m training bg mask acc i t0)
      as (p & t' & Hs); try lia; try exact Hl.
    rewrite (bind_returns _ _ _ _ _ Hs). eexists _, _. split; [reflexivity|].
    simpl. rewrite !length_app, Hlen, Hps. simpl. repeat split; try lia.
    destruct acc; [simpl in Hlen; lia|exact Hhd].
  - assert (Htrace : GNN_node_expander.trace m training bg t = inr ((hl, ps), t')).
    { unfold GNN_node_expander.trace. rewrite (bind_returns _ _ _ _ _ He).
      exact Hrun. }
    exists h, hl, ps, t'. simpl in *.
    unfold GNN_node_expander.history. rewrite (bind_returns _ _ _ _ _ Htrace).
    simpl. auto 10.
Qed.

Lemma JK_last (L : nat) (h_list : list matrix) t :
  h_list <> [] ->
  JK_aggregate "last" L h_list t = inr (last h_list [], t).
Proof.
  intros Hne. unfold JK_aggregate. simpl.
  destruct h_list; [congruence|reflexivity].
Qed.

(** The summing loop reads the entries after the first one in order. *)
Lemma JK_sum_loop (rest : list matrix) : forall (pre : list matrix) acc t,
  for_each (seq (length pre) (length rest))
           (fun acc layer => h <- index (pre ++ rest) layer ;; ret (madd acc h))
           acc t
  = inr (fold_left madd rest acc, t).
Proof.
  induction rest as [|r rest IH]; intros pre acc t; simpl; [reflexivity|].
  unfold bind at 1. unfold bind at 1. unfold index at 1.
  rewrite nth_error_app2, Nat.sub_diag by lia. simpl.
  replace (pre ++ r :: rest) with ((pre ++ [r]) ++ rest)
    by (rewrite <- app_assoc; reflexivity).
  replace (Datatypes.S (length pre)) with (length (pre ++ [r]))
    by (rewrite length_app; simpl; lia).
  apply IH.
Qed.

Lemma sadd_zero {E : ExactScalar S} (h : matrix) : sadd zero h = h.
Proof.
  unfold sadd. rewrite <- (map_id h) at 2. apply map_ext. intros r.
  rewrite <- (map_id r) at 2. apply map_ext. intros a. apply add_zero_l.
Qed.

Lemma JK_sum {E : ExactScalar S} (L : nat) (h_list : list matrix) t :
  length h_list = L + 1 ->
  JK_aggregate "sum" L h_list t = inr (msum h_list, t).
Proof.
  intros Hlen. unfold JK_aggregate. simpl.
  destruct h_list as [|h0 rest]; [simpl in Hlen; lia|].
  unfold bind, index. simpl.
  assert (HL : L = length rest) by (simpl in Hlen; lia). rewrite HL.
  rewrite (JK_sum_loop rest [h0]). rewrite sadd_zero. reflexivity.
Qed.

Lemma JK_unknown (jk : string) (L : nat) (h_list : list matrix) t :
  jk <> "last"%string -> jk <> "sum"%string ->
  JK_aggregate jk L h_list t = inl (UnboundLocalError "node_representation").
Proof.
  intros H1 H2. unfold JK_aggregate.
  destruct (String.eqb_spec jk "last"); [congruence|].
  destruct (String.eqb_spec jk "sum"); [congruence|]. reflexivity.
Qed.

End HistoryFacts.


(** ** Multiplication by a 0/1 mask, row by row *)

Section MaskFacts.
Context {S : Scalar} {E : ExactScalar S}.

Lemma row_map2 (f : vec -> vec -> vec) (a b : matrix) i :
  i < length a -> i < length b -> row (map2 f a b) i = f (row a i) (row b i).
Proof. intros Ha Hb. unfold row. apply map2_nth; assumption. Qed.

Lemma row_expand (mask : vec) d i m :
  nth_error mask i = Some m -> row (expand mask d) i = repeat m d.
Proof.
  unfold row, expand. revert i; induction mask as [|m0 mask IH];
    intros [|i]; simpl; try discriminate.
  - intros [= ->]. reflexivity.
  - apply IH.
Qed.

Lemma row_ssub (c : carrier) (m : matrix) i :
  row (ssub c m) i = map (sub c) (row m i).
Proof. unfold row, ssub. apply (map_nth (map (sub c)) m []). Qed.

Lemma row_width n d (h : matrix) i :
  shaped n d h -> i < n -> length (row h i) = d.
Proof.
  intros [Hn Hw] Hi. unfold row.
  rewrite Forall_forall in Hw. apply Hw. apply nth_In. lia.
Qed.

Lemma vmul_one_l (v : vec) d : length v = d -> vmul (repeat one d) v = v.
Proof.
  unfold vmul. revert d; induction v as [|a v IH]; intros [|d] H; simpl in *;
    try discriminate; auto.
  rewrite mul_one_l. f_equal. apply IH. congruence.
Qed.

Lemma vmul_zero_l (v : vec) d : length v = d -> vmul (repeat zero d) v = zeros d.
Proof.
  unfold vmul, zeros. revert d; induction v as [|a v IH]; intros [|d] H;
    simpl in *; try discriminate; auto.
  rewrite mul_zero_l. f_equal. apply IH. congruence.
Qed.

Lemma vadd_zeros_l (v : vec) d : length v = d -> vadd (zeros d) v = v.
Proof.
  unfold vadd, zeros. revert d; induction v as [|a v IH]; intros [|d] H;
    simpl in *; try discriminate; auto.
  rewrite add_zero_l. f_equal. apply IH. congruence.
Qed.

Lemma vadd_zeros_r (v : vec) d : length v = d -> vadd v (zeros d) = v.
Proof.
  unfold vadd, zeros. revert d; induction v as [|a v IH]; intros [|d] H;
    simpl in *; try discriminate; auto.
  rewrite add_zero_r. f_equal. apply IH. congruence.
Qed.

Lemma one_minus_ones d : map (sub one) (repeat one d) = repeat zero d.
Proof. induction d; simpl; [|rewrite sub_one_one, IHd]; reflexivity. Qed.

Lemma one_minus_zeros d : map (sub one) (repeat zero d) = repeat one d.
Proof. induction d; simpl; [|rewrite sub_one_zero, IHd]; reflexivity. Qed.

Lemma expand_length (mask : vec) d : length (expand mask d) = length mask.
Proof. unfold expand. apply length_map. Qed.

Lemma ssub_length (c : carrier) (m : matrix) : length (ssub c m) = length m.
Proof. unfold ssub. apply length_map. Qed.

Lemma mmul_length (a b : matrix) :
  length (mmul a b) = Nat.min (length a) (length b).
Proof. unfold mmul. apply map2_length. Qed.


Lemma mmul_mask_row (mask : vec) (h : matrix) n d i m :
  shaped n d h -> length mask = n -> nth_error mask i = Some m ->
  row (mmul h (expand mask d)) i = vmul (row h i) (repeat m d).
Proof.
  intros [Hn Hw] Hm Hi.
  assert (Hlt : i < n) by (rewrite <- Hm; apply nth_error_Some; congruence).
  unfold mmul. rewrite row_map2 by (rewrite ?expand_length; lia).
  rewrite (row_expand mask d i m Hi). reflexivity.
Qed.
End MaskFacts.

Section PhaseFacts.
Context {S : Scalar} {E : ExactScalar S}.

Lemma mmul_expand_shaped (mask : vec) (h : matrix) n d :
  shaped n d h -> length mask = n -> shaped n d (mmul h (expand mask d)).
Proof.
  intros [Hn Hw] Hm. unfold mmul, expand. split.
  - rewrite map2_length, length_map. lia.
  - clear Hn. revert mask n Hm. induction Hw as [|r h Hr Hw IH];
      intros [|m mask] n Hm; simpl; constructor.
    + unfold vmul. rewrite map2_length, repeat_length. lia.
    + apply (IH mask (length mask)). reflexivity.
Qed.





(** The summation hub phase, row by row. *)
Lemma summation_phase_rows (sum_conv : SumConv) training h ei (mask : vec) n d :
  shaped n d h -> length mask = n ->
  shaped n d (sum_conv training (mmul h (expand mask d)) ei) ->
  (forall i, original_node mask i ->
             row (GNN_node_expander.summation_phase sum_conv training h ei
                    (expand mask d)) i = row h i)
  /\ (forall i, hub_node mask i ->
                row (GNN_node_expander.summation_phase sum_conv training h ei
                       (expand mask d)) i
                = row (sum_conv training (mmul h (expand mask d)) ei) i).
Proof.
  intros Hs Hm Hout. unfold GNN_node_expander.summation_phase.
  pose proof (mmul_expand_shaped mask h n d Hs Hm) as Hx.
  assert (Hrow : forall i m, nth_error mask i = Some m ->
            i < n /\
            row (madd (mmul h (expand mask d))
                      (mmul (sum_conv training (mmul h (expand mask d)) ei)
                            (ssub one (expand mask d)))) i
            = vadd (vmul (row h i) (repeat m d))
                   (vmul (row (sum_conv training (mmul h (expand mask d)) ei) i)
                         (map (sub one) (repeat m d)))).
  { intros i m Hi.
    assert (Hlt : i < n) by (rewrite <- Hm; apply nth_error_Some; congruence).
    split; [exact Hlt|].
    pose proof (proj1 Hs) as Hn. pose proof (proj1 Hout) as Ho.
    pose proof (proj1 Hx) as Hxn.
    unfold madd. rewrite row_map2
      by (rewrite ?mmul_length, ?ssub_length, ?expand_length; lia).
    rewrite (mmul_mask_row mask h n d i m Hs Hm Hi).
    unfold mmul in Ho |- *. rewrite row_map2
      by (rewrite ?ssub_length, ?expand_length; lia).
    rewrite row_ssub, (row_expand mask d i m Hi). reflexivity. }
  split; intros i Hi; destruct (Hrow i _ Hi) as [Hlt ->].
  - rewrite one_minus_ones.
    rewrite vmul_repeat_one by (apply (row_width n d _ i Hs Hlt)).
    rewrite vmul_repeat_zero by (apply (row_width n d _ i Hout Hlt)).
    apply vadd_zeros_r. apply (row_width n d _ i Hs Hlt).
  - rewrite one_minus_zeros.
    rewrite vmul_repeat_zero by (apply (row_width n d _ i Hs Hlt)).
    rewrite vmul_repeat_one by (apply (row_width n d _ i Hout Hlt)).
    apply vadd_zeros_l. apply (row_width n d _ i Hout Hlt).
Qed.
End PhaseFacts.

(* ================================================================= *)
(** * The claims *)

(** C7. [GINConv("ppa")] raises at construction: the constructor compares
    the task key with ["ppo"], so the key ["ppa"] that the node encoder
    selection of the engines accepts falls through to
    [NotImplementedError], while ["mol"], ["code2"] and ["ppo"] return a
    layer. *)
Theorem GINConv_init_rejects_ppa :
  forall (S : Scalar) (p : GINParams) (emb_dim : nat) (flow_arg : option string),
    GINConv_init p emb_dim "ppa" flow_arg = inl NotImplementedError
    /\ (exists c, GINConv_init p emb_dim "mol" flow_arg = inr c)
    /\ (exists c, GINConv_init p emb_dim "code2" flow_arg = inr c)
    /\ (exists c, GINConv_init p emb_dim "ppo" flow_arg = inr c).
Proof.
  intros S p emb_dim flow_arg. unfold GINConv_init. simpl.
  repeat split; eexists; reflexivity.
Qed.

(** C6. A model constructed with [JK = "concat"] is returned by the
    constructor, and every forward pass of it fails at the end of the node
    engine with the unbound [node_representation]. *)
Theorem unknown_JK_passes_init_and_fails_forward :
  forall (S : Scalar) (lib : GNN.PyG) (a : Alloc) (ha : GNN.HeadAlloc)
         (ds : carrier) (training : bool) (bg : BatchedGraph) (t : tape),
    exists m,
      GNN.init lib a ha
        {| GNN.arg_task := "mol"; GNN.arg_num_class := 1;
           GNN.arg_max_seq_len := None; GNN.arg_node_encoder := None;
           GNN.arg_num_layer := 2; GNN.arg_emb_dim := 1;
           GNN.arg_gnn_type := "gin"; GNN.arg_residual := false;
           GNN.arg_drop_scale := ds; GNN.arg_JK := "concat";
           GNN.arg_graph_pooling := "mean"; GNN.arg_expander := false;
           GNN.arg_expander_edge_handling := "learn-features" |} = inr m
      /\ GNN.forward m training bg t
         = inl (UnboundLocalError "node_representation").
Proof.
  intros S lib a ha ds training bg t.
  destruct (GNN_node.init a 2 1 "mol" None ds "concat" false "gin")
    as [e|n] eqn:Hn; [discriminate Hn|].
  eexists. split.
  - unfold GNN.init. cbn -[GNN_node.init]. rewrite Hn. cbn. reflexivity.
  - unfold GNN.forward, GNN.node_forward. simpl.
    apply GNN_node_init_fields in Hn as (HL & _ & Hjk & _ & Hsel & Hc & Hb).
    simpl in Hsel. injection Hsel as Hsel. symmetry in Hsel.
    destruct (GNN_node_history_returns n training bg _ t Hsel)
      as (hl & t' & Hrun & _); try congruence.
    unfold GNN_node.forward. unfold bind at 1.
    rewrite (bind_returns _ _ _ _ _ Hrun), Hjk.
    rewrite JK_unknown by discriminate. reflexivity.
Qed.

(** C8. Under the summation strategies the hub phase of a layer returns,
    for whatever tensor (of the shape of [h]) the summation layer returns,
    a tensor whose original-node rows are the rows of [h] and whose
    hub-node rows are the rows of the summation layer's result. *)
Theorem summation_hub_phase_writes_hub_rows_only :
  forall (S : Scalar) (E : ExactScalar S) (m : GNN_node_expander.t)
         (training : bool) (bg : BatchedGraph) (mask : vec) (h : matrix)
         (layer : nat) (sum_conv : SumConv) (n d : nat) (t : tape),
    GNN_node_expander.is_summation (GNN_node_expander.expander_edge_handling m) = true ->
    nth_error (GNN_node_expander.summation m) layer = Some sum_conv ->
    shaped n d h -> length mask = n ->
    shaped n d (sum_conv training (mmul h (expand mask d)) (expander_edge_index bg)) ->
    exists h',
      GNN_node_expander.hub_phase m training bg (expand mask d) h layer t = inr (h', t)
      /\ (forall i, original_node mask i -> row h' i = row h i)
      /\ (forall i, hub_node mask i ->
                    row h' i
                    = row (sum_conv training (mmul h (expand mask d))
                                    (expander_edge_index bg)) i).
Proof.
  intros S E m training bg mask h layer sum_conv n d t Hsum Hsc Hs Hm Hout.
  unfold GNN_node_expander.hub_phase. rewrite Hsum.
  unfold bind, index. rewrite Hsc. simpl.
  eexists. split; [reflexivity|].
  apply (summation_phase_rows sum_conv training h (expander_edge_index bg) mask n d);
    assumption.
Qed.

Lemma summation_hub_phase_witness :
  let m := Example.built (Example.engine "summation" (Example.affine_bn 1 0)
                                         (Example.affine_bn 1 1)) in
  exists h',
    GNN_node_expander.hub_phase m false Example.graph
         (expand [1; 1; 0]%Z 1) [[2]; [5]; [1]]%Z 0 (Example.keeps_first 0)
    = inr (h', Example.keeps_first 0)
    /\ (forall i, original_node [1; 1; 0]%Z i -> row h' i = row [[2]; [5]; [1]]%Z i)
    /\ (forall i, hub_node [1; 1; 0]%Z i ->
                  row h' i
                  = row (Example.sum_conv false
                           (mmul [[2]; [5]; [1]]%Z (expand [1; 1; 0]%Z 1))
                           (expander_edge_index Example.graph)) i).
Proof.
  intros m.
  apply (summation_hub_phase_writes_hub_rows_only ZScalar ZScalar_exact m
           false Example.graph [1; 1; 0]%Z [[2]; [5]; [1]]%Z 0
           Example.sum_conv 3 1 (Example.keeps_first 0)).
  - reflexivity.
  - reflexivity.
  - split; [reflexivity|]. repeat constructor.
  - reflexivity.
  - split; [reflexivity|]. repeat constructor.
Defined.


Section InitialFacts.
Context {S : Scalar} {E : ExactScalar S}.

Lemma rows_ext (a b : matrix) :
  length a = length b ->
  (forall i, i < length a -> row a i = row b i) -> a = b.
Proof.
  intros Hl Hr. apply (nth_ext a b [] []); [exact Hl|exact Hr].
Qed.

Lemma shape1_of_shaped n d (h : matrix) :
  shaped n d h -> 0 < n -> shape1 h = d.
Proof.
  intros Hs Hn. apply (shaped_shape1 n d h Hs).
  destruct Hs as [Hl _]. destruct h; [simpl in Hl; lia|discriminate].
Qed.

Lemma initial_hub_row bg (h : matrix) n d i :
  shaped n d h -> length (expander_node_mask bg) = n ->
  hub_node (expander_node_mask bg) i ->
  row (snd (GNN_node_expander.initial bg h)) i = zeros d.
Proof.
  intros Hs Hm Hi. unfold GNN_node_expander.initial. simpl.
  assert (Hlt : i < n)
    by (rewrite <- Hm; apply nth_error_Some; unfold hub_node in Hi; congruence).
  rewrite (shape1_of_shaped n d h Hs) by lia.
  rewrite (mmul_mask_row _ h n d i zero Hs Hm Hi).
  apply vmul_repeat_zero. apply (row_width n d h i Hs Hlt).
Qed.

Lemma initial_ignores_hub_rows bg (h1 h2 : matrix) n d :
  shaped n d h1 -> shaped n d h2 -> length (expander_node_mask bg) = n ->
  (forall i, i < n -> hub_node (expander_node_mask bg) i \/ row h1 i = row h2 i) ->
  GNN_node_expander.initial bg h1 = GNN_node_expander.initial bg h2.
Proof.
  intros H1 H2 Hm Hagree. unfold GNN_node_expander.initial.
  destruct (Nat.eq_dec n 0) as [->|Hn].
  - destruct H1 as [L1 _], H2 as [L2 _].
    destruct h1; [|discriminate]. destruct h2; [|discriminate]. reflexivity.
  - rewrite (shape1_of_shaped n d h1 H1), (shape1_of_shaped n d h2 H2) by lia.
    f_equal. apply rows_ext.
    + rewrite !mmul_length, expand_length.
      destruct H1 as [-> _], H2 as [-> _]. reflexivity.
    + intros i Hi. rewrite mmul_length, expand_length in Hi.
      assert (Hlt : i < n) by (destruct H1 as [L1 _]; lia).
      destruct (nth_error (expander_node_mask bg) i) as [mi|] eqn:Hmi;
        [|apply nth_error_None in Hmi; lia].
      rewrite (mmul_mask_row _ h1 n d i mi H1 Hm Hmi),
              (mmul_mask_row _ h2 n d i mi H2 Hm Hmi).
      destruct (Hagree i Hlt) as [Hhub| ->]; [|reflexivity].
      unfold hub_node in Hhub. rewrite Hmi in Hhub. injection Hhub as ->.
      rewrite !vmul_repeat_zero; auto; apply (row_width n d _ i); auto.
Qed.
End InitialFacts.

(** C10. In the expander engine the rows of the hub nodes (mask 0) in
    history entry 0 are zero, and what the node encoder returns for hub
    nodes has no influence: two encoders whose outputs agree on all rows
    but those of hub nodes give the same trace and the same result. *)
Theorem encoder_output_of_hub_nodes_is_discarded :
  forall (S : Scalar) (E : ExactScalar S) (m : GNN_node_expander.t)
         (enc1 enc2 : NodeEncoder) (training : bool) (bg : BatchedGraph)
         (h1 h2 : matrix) (n d : nat) (t : tape),
    GNN_node_expander.encode (GNN_node_expander.with_node_encoder m enc1) bg t
    = inr (h1, t) ->
    GNN_node_expander.encode (GNN_node_expander.with_node_encoder m enc2) bg t
    = inr (h2, t) ->
    shaped n d h1 -> shaped n d h2 -> length (expander_node_mask bg) = n ->
    (forall i, i < n -> hub_node (expander_node_mask bg) i \/ row h1 i = row h2 i) ->
    (forall i, hub_node (expander_node_mask bg) i ->
               row (snd (GNN_node_expander.initial bg h1)) i = zeros d)
    /\ GNN_node_expander.trace (GNN_node_expander.with_node_encoder m enc1) training bg t
       = GNN_node_expander.trace (GNN_node_expander.with_node_encoder m enc2) training bg t
    /\ GNN_node_expander.forward (GNN_node_expander.with_node_encoder m enc1) training bg t
       = GNN_node_expander.forward (GNN_node_expander.with_node_encoder m enc2) training bg t.
Proof.
  intros S E m enc1 enc2 training bg h1 h2 n d t He1 He2 H1 H2 Hm Hagree.
  assert (Htrace :
            GNN_node_expander.trace (GNN_node_expander.with_node_encoder m enc1)
                                    training bg t
            = GNN_node_expander.trace (GNN_node_expander.with_node_encoder m enc2)
                                      training bg t).
  { unfold GNN_node_expander.trace.
    rewrite (bind_returns _ _ _ _ _ He1), (bind_returns _ _ _ _ _ He2).
    rewrite (initial_ignores_hub_rows bg h1 h2 n d H1 H2 Hm Hagree).
    reflexivity. }
  split; [|split].
  - intros i Hi. apply (initial_hub_row bg h1 n d i H1 Hm Hi).
  - exact Htrace.
  - unfold GNN_node_expander.forward, GNN_node_expander.history.
    unfold bind at 1 3. unfold bind at 1 2. rewrite Htrace. reflexivity.
Qed.

Lemma encoder_output_of_hub_nodes_witness :
  let m := Example.built (Example.engine "learn-features" (Example.affine_bn 1 0)
                                         (Example.affine_bn 1 1)) in
  let enc1 : NodeEncoder := fun x _ => x in
  let enc2 : NodeEncoder := fun x _ => firstn 2 x ++ [[100%Z]] in
  (forall i, hub_node (expander_node_mask Example.graph) i ->
             row (snd (GNN_node_expander.initial Example.graph [[1]; [2]; [5]]%Z)) i
             = zeros 1)
  /\ GNN_node_expander.trace (GNN_node_expander.with_node_encoder m enc1) true
                             Example.graph (Example.keeps_first 4)
     = GNN_node_expander.trace (GNN_node_expander.with_node_encoder m enc2) true
                               Example.graph (Example.keeps_first 4)
  /\ GNN_node_expander.forward (GNN_node_expander.with_node_encoder m enc1) true
                               Example.graph (Example.keeps_first 4)
     = GNN_node_expander.forward (GNN_node_expander.with_node_encoder m enc2) true
                                 Example.graph (Example.keeps_first 4).
Proof.
  intros m enc1 enc2.
  apply (encoder_output_of_hub_nodes_is_discarded ZScalar ZScalar_exact m enc1 enc2
           true Example.graph [[1]; [2]; [5]]%Z [[1]; [2]; [100]]%Z 3 1
           (Example.keeps_first 4)).
  - reflexivity.
  - reflexivity.
  - split; [reflexivity|]. repeat constructor.
  - split; [reflexivity|]. repeat constructor.
  - reflexivity.
  - intros [|[|[|i]]] Hi; [right; reflexivity|right; reflexivity|left; reflexivity|lia].
Defined.

Section EmptyEdgeSet.
Context {S : Scalar} {E : ExactScalar S}.



End EmptyEdgeSet.




(** ** Runs that do not read the generator *)

Section TapeFree.
Context {S : Scalar}.

Lemma tape_free_ret {A} (a : A) : tape_free (ret a).
Proof. exists (inr a). reflexivity. Qed.

Lemma tape_free_raise {A} (e : exn) : tape_free (@raise A e).
Proof. exists (inl e). reflexivity. Qed.

Lemma tape_free_bind {A B} (c : M A) (k : A -> M B) :
  tape_free c -> (forall a, tape_free (k a)) -> tape_free (bind c k).
Proof.
  intros [[e|a] Hc] Hk.
  - exists (inl e). intros t. unfold bind. rewrite Hc. reflexivity.
  - destruct (Hk a) as [r Hr]. exists r. intros t. unfold bind.
    rewrite Hc. apply Hr.
Qed.

Lemma tape_free_index {A} (xs : list A) i : tape_free (index xs i).
Proof.
  unfold index. destruct (nth_error xs i);
    [apply tape_free_ret|apply tape_free_raise].
Qed.

Lemma tape_free_for_each {A} (body : A -> nat -> M A) range_ :
  (forall acc i, tape_free (body acc i)) ->
  forall acc, tape_free (for_each range_ body acc).
Proof.
  intros Hb. induction range_ as [|i rest IH]; intros acc; simpl.
  - apply tape_free_ret.
  - apply tape_free_bind; [apply Hb|exact IH].
Qed.

Lemma tape_free_dropout_eval (h : matrix) scale :
  tape_free (F_dropout h scale false).
Proof. apply tape_free_ret. Qed.

Lemma tape_free_value {A} (c : M A) t1 t2 :
  tape_free c -> value (c t1) = value (c t2).
Proof.
  intros [r Hr]. rewrite (Hr t1), (Hr t2). destruct r; reflexivity.
Qed.

Create HintDb tape_free.
Hint Resolve tape_free_ret tape_free_raise tape_free_index
     tape_free_dropout_eval : tape_free.

Ltac tape_free_step :=
  match goal with
  | |- tape_free (bind _ _) => apply tape_free_bind; [|intros ?]
  | |- tape_free (for_each _ _ _) => apply tape_free_for_each; intros ? ?
  | |- tape_free (if ?b then _ else _) => destruct b
  | |- tape_free (match ?o with Some _ => _ | None => _ end) => destruct o
  | |- tape_free (let '(_, _) := ?p in _) => destruct p
  | |- tape_free _ => solve [auto with tape_free]
  end.

Lemma tape_free_JK jk L (hl : list matrix) : tape_free (JK_aggregate jk L hl).
Proof.
  unfold JK_aggregate. repeat tape_free_step.
Qed.

Lemma tape_free_GNN_node_forward (m : GNN_node.t) bg :
  tape_free (GNN_node.forward m false bg).
Proof.
  unfold GNN_node.forward, GNN_node.history, GNN_node.encode, GNN_node.layer_step.
  repeat tape_free_step. apply tape_free_JK.
Qed.

Lemma tape_free_propagate (m : GNN_node_expander.t) conv bn h ei ea mask
      no_act masking un :
  tape_free (GNN_node_expander.propagate m false conv bn h ei ea mask no_act
                                         masking un).
Proof. unfold GNN_node_expander.propagate. repeat tape_free_step. Qed.

Lemma tape_free_expander_forward (m : GNN_node_expander.t) bg :
  tape_free (GNN_node_expander.forward m false bg).
Proof.
  unfold GNN_node_expander.forward, GNN_node_expander.history,
    GNN_node_expander.trace, GNN_node_expander.encode,
    GNN_node_expander.layer_step, GNN_node_expander.main_phase,
    GNN_node_expander.hub_phase, GNN_node_expander.return_phase.
  repeat (tape_free_step || apply tape_free_propagate). apply tape_free_JK.
Qed.

Lemma tape_free_GNN_forward (m : GNN.t) bg : tape_free (GNN.forward m false bg).
Proof.
  unfold GNN.forward, GNN.node_forward.
  apply tape_free_bind.
  - destruct (GNN.gnn_node m);
      [apply tape_free_GNN_node_forward|apply tape_free_expander_forward].
  - intros h. repeat tape_free_step.
Qed.
End TapeFree.

(** C9, as the code has it.  In evaluation mode the forward pass is a
    function of the parameters and the input: the value it returns (or the
    error it raises) is the same whatever the state of the random
    generator.  This holds for the whole model and for both node engines. *)
Theorem forward_in_evaluation_mode_ignores_the_generator :
  forall (S : Scalar) (m : GNN.t) (plain : GNN_node.t)
         (expander : GNN_node_expander.t) (bg : BatchedGraph) (t1 t2 : tape),
    value (GNN.forward m false bg t1) = value (GNN.forward m false bg t2)
    /\ value (GNN_node.forward plain false bg t1)
       = value (GNN_node.forward plain false bg t2)
    /\ value (GNN_node_expander.forward expander false bg t1)
       = value (GNN_node_expander.forward expander false bg t2).
Proof.
  intros S m plain expander bg t1 t2. repeat split; apply tape_free_value.
  - apply tape_free_GNN_forward.
  - apply tape_free_GNN_node_forward.
  - apply tape_free_expander_forward.
Qed.

(** C9 as stated fails in training mode: with parameters and input fixed,
    two forward passes in a row differ, because dropout draws from the
    generator.  Every normalisation here has weight 0 and bias 1, and
    [drop_ratio] is one half. *)
Lemma two_training_runs_differ :
  (exists m,
      Example.plain_engine (Example.affine_bn 0 1) (Example.affine_bn 0 1) = inr m
      /\ two_runs (GNN_node.forward m true Example.graph) (Example.keeps_first 7)
         = Some ([[2]; [2]; [2]], [[0]; [0]; [0]])%Z)
  /\
  (exists m,
      Example.engine "learn-features" (Example.affine_bn 0 1) (Example.affine_bn 0 1)
      = inr m
      /\ two_runs (GNN_node_expander.forward m true Example.graph)
                  (Example.keeps_first 16)
         = Some ([[2]; [2]; [2]], [[0]; [0]; [0]])%Z).
Proof.
  split; eexists; (split; [reflexivity|vm_compute; reflexivity]).
Qed.


(** ** Segment locality of the pooling operators *)

Section SameOn.
Context {A B C : Type}.

Lemma same_on_map (f : A -> B) sel (xs ys : list A) :
  same_on sel xs ys -> same_on sel (map f xs) (map f ys).
Proof.
  revert xs ys; induction sel as [|s sel IH]; intros [|a xs] [|b ys]; simpl;
    try tauto.
  intros [Hh Ht]. split; [intros Hs; f_equal; auto|apply IH; exact Ht].
Qed.

Lemma same_on_map2 (f : A -> B -> C) sel (xs ys : list A) (us vs : list B) :
  same_on sel xs ys -> same_on sel us vs ->
  same_on sel (map2 f xs us) (map2 f ys vs).
Proof.
  revert xs ys us vs; induction sel as [|s sel IH];
    intros [|a xs] [|b ys] [|u us] [|v vs]; simpl; try tauto.
  intros [Hh Ht] [Hh' Ht']. split.
  - intros Hs. rewrite (Hh Hs), (Hh' Hs). reflexivity.
  - apply IH; assumption.
Qed.

(** A segment other than the sentinel holds the same entries in both. *)
Lemma segment_same_on (idx : list Z) (xs ys : list A) g :
  same_on (in_real_segment idx) xs ys -> 1 <= g ->
  segment xs idx g = segment ys idx g.
Proof.
  unfold segment, in_real_segment.
  revert xs ys; induction idx as [|b idx IH]; intros [|a xs] [|c ys]; simpl;
    try tauto.
  intros [Hh Ht] Hg. destruct (Z.eqb_spec b (Z.of_nat g)) as [->|Hne]; simpl.
  - rewrite Hh by (apply Z.leb_le; lia). f_equal. apply IH; assumption.
  - apply IH; assumption.
Qed.

Lemma same_from_1_map (f : A -> B) (q q' : list A) :
  same_from_1 q q' -> same_from_1 (map f q) (map f q').
Proof.
  intros [Hl Ht]. split; [rewrite !length_map; exact Hl|].
  destruct q, q'; simpl in *; try discriminate; congruence.
Qed.

Lemma same_from_1_map2 (f : A -> B -> C) (q q' : list A) (r r' : list B) :
  same_from_1 q q' -> same_from_1 r r' ->
  same_from_1 (map2 f q r) (map2 f q' r').
Proof.
  intros [Hl Ht] [Hl' Ht']. split; [rewrite !map2_length; congruence|].
  destruct q, q', r, r'; simpl in *; try discriminate; congruence.
Qed.

Lemma same_from_1_refl (q : list A) : same_from_1 q q.
Proof. split; reflexivity. Qed.
End SameOn.

Section PoolFacts.
Context {S : Scalar} {F : FieldOps S}.

Lemma scatter_same_from_1 (reduce reduce' : list vec -> vec) (xs ys : matrix)
      idx n :
  (forall rows, reduce rows = reduce' rows) ->
  same_on (in_real_segment idx) xs ys ->
  same_from_1 (scatter reduce xs idx n) (scatter reduce' ys idx n).
Proof.
  intros Hr Hs. unfold scatter. split; [rewrite !length_map; reflexivity|].
  destruct n as [|n]; simpl; [reflexivity|].
  apply map_ext_in. intros g Hg. apply in_seq in Hg.
  rewrite (segment_same_on idx xs ys g Hs) by lia. apply Hr.
Qed.

Lemma gather_segments_same_on (q q' : matrix) idx :
  same_from_1 q q' ->
  same_on (in_real_segment idx) (gather_segments q idx) (gather_segments q' idx).
Proof.
  intros [Hl Ht]. unfold gather_segments, in_real_segment.
  induction idx as [|b idx IH]; simpl; [exact I|].
  split; [|exact IH]. intros Hb. apply Z.leb_le in Hb.
  destruct (Z.to_nat b) as [|k] eqn:Hk; [lia|].
  unfold row. destruct q, q'; simpl in *; try discriminate; congruence.
Qed.

Lemma softmax_same_on (src src' : matrix) idx n :
  same_on (in_real_segment idx) src src' ->
  same_on (in_real_segment idx) (softmax src idx n) (softmax src' idx n).
Proof.
  intros Hs. unfold softmax.
  assert (Hout : same_on (in_real_segment idx)
            (map2 (map2 (fun s m => exp (sub s m))) src
                  (gather_segments (scatter (reduce_max 1) src idx n) idx))
            (map2 (map2 (fun s m => exp (sub s m))) src'
                  (gather_segments (scatter (reduce_max 1) src' idx n) idx))).
  { apply same_on_map2; [exact Hs|]. apply gather_segments_same_on.
    apply scatter_same_from_1; [reflexivity|exact Hs]. }
  apply same_on_map2; [exact Hout|].
  apply gather_segments_same_on. apply scatter_same_from_1; [reflexivity|exact Hout].
Qed.

Lemma attention_same_from_1 (gate gate' : matrix) (xs ys : matrix) idx n d :
  same_on (in_real_segment idx) gate gate' ->
  same_on (in_real_segment idx) xs ys ->
  same_from_1 (scatter (reduce_add d) (scale_rows (softmax gate idx n) xs) idx n)
              (scatter (reduce_add d) (scale_rows (softmax gate' idx n) ys) idx n).
Proof.
  intros Hg Hx. apply scatter_same_from_1; [reflexivity|].
  unfold scale_rows. apply same_on_map2; [|exact Hx].
  apply softmax_same_on. exact Hg.
Qed.

Lemma set2set_step_same (lstm : LSTM) (xs ys : matrix) idx n d
      (st st' : matrix * list (vec * vec)) :
  same_on (in_real_segment idx) xs ys -> shape1 xs = d -> shape1 ys = d ->
  same_from_1 (fst st) (fst st') -> same_from_1 (snd st) (snd st') ->
  same_from_1 (fst (set2set_step lstm xs idx n st))
              (fst (set2set_step lstm ys idx n st'))
  /\ same_from_1 (snd (set2set_step lstm xs idx n st))
                 (snd (set2set_step lstm ys idx n st')).
Proof.
  intros Hx Hd Hd' Hq Hh. unfold set2set_step. simpl.
  pose proof (same_from_1_map2 lstm _ _ _ _ Hq Hh) as Hqh.
  split; [|apply same_from_1_map; exact Hqh].
  apply same_from_1_map2; [apply same_from_1_map; exact Hqh|].
  rewrite Hd, Hd'. apply attention_same_from_1; [|exact Hx].
  apply same_on_map2; [exact Hx|].
  apply gather_segments_same_on. apply same_from_1_map. exact Hqh.
Qed.

Lemma set2set_same_from_1 (lstm : LSTM) in_channels steps (xs ys : matrix) idx d :
  same_on (in_real_segment idx) xs ys -> shape1 xs = d -> shape1 ys = d ->
  same_from_1 (set2set lstm in_channels steps xs idx)
              (set2set lstm in_channels steps ys idx).
Proof.
  intros Hx Hd Hd'. unfold set2set.
  set (st0 := (repeat (zeros (2 * in_channels)) (num_segments idx),
               repeat (zeros in_channels, zeros in_channels) (num_segments idx))).
  assert (H : same_from_1
                (fst (Nat.iter steps (set2set_step lstm xs idx (num_segments idx)) st0))
                (fst (Nat.iter steps (set2set_step lstm ys idx (num_segments idx)) st0))
              /\ same_from_1
                   (snd (Nat.iter steps (set2set_step lstm xs idx (num_segments idx)) st0))
                   (snd (Nat.iter steps (set2set_step lstm ys idx (num_segments idx)) st0))).
  { induction steps as [|k IH]; simpl.
    - split; apply same_from_1_refl.
    - destruct IH as [IH1 IH2].
      apply (set2set_step_same lstm xs ys idx _ d); assumption. }
  exact (proj1 H).
Qed.
End PoolFacts.

Section ReadoutFacts.
Context {S : Scalar} {F : FieldOps S}.

Lemma sentinel_same_on {A} (mask : vec) (batch_ : list Z) (xs ys : list A) :
  same_on (map gt0 mask) xs ys -> length batch_ = length mask ->
  same_on (in_real_segment (GNN.sentinel_batch mask batch_)) xs ys.
Proof.
  unfold in_real_segment, GNN.sentinel_batch.
  revert batch_ xs ys; induction mask as [|m mask IH];
    intros [|b batch_] [|a xs] [|c ys]; simpl; try tauto; try discriminate.
  intros [Hh Ht] Hl. split.
  - destruct (gt0 m); [intros _; apply Hh; reflexivity|discriminate].
  - apply IH; [exact Ht|congruence].
Qed.

Lemma feed_forward_eval_same_on (l1 l2 : Linear) (bn : BatchNorm1d) sel
      (xs ys : matrix) :
  same_on sel xs ys ->
  same_on sel (feed_forward l1 bn l2 false xs) (feed_forward l1 bn l2 false ys).
Proof.
  intros H. unfold feed_forward, Linear_forward, mrelu, BatchNorm1d_forward.
  repeat apply same_on_map. exact H.
Qed.

Lemma shaped_same_shape1 n d (h h' : matrix) :
  shaped n d h -> shaped n d h' -> shape1 h = shape1 h'.
Proof.
  intros [Hn Hw] [Hn' Hw']. destruct h as [|r h], h' as [|r' h']; simpl in *;
    try congruence.
  inversion Hw; inversion Hw'; subst. unfold shape1. simpl. congruence.
Qed.

Lemma GNN_init_pool lib a ha c m :
  GNN.init lib a ha c = inr m ->
  GNN.expander m = GNN.arg_expander c
  /\ GNN.select_pool lib ha (GNN.arg_graph_pooling c) (GNN.arg_emb_dim c)
     = inr (GNN.pool m).
Proof.
  unfold GNN.init.
  destruct (if (GNN.arg_task c =? "code2")%string then _ else _) as [e|msl];
    simpl; [discriminate|].
  destruct (GNN.arg_num_layer c <? 2); [discriminate|].
  destruct (if negb (GNN.arg_expander c) then _ else _) as [e|node];
    simpl; [discriminate|].
  destruct (GNN.select_pool _ _ _ _) as [e|pl]; simpl; [discriminate|].
  intros [= <-]. simpl. split; reflexivity.
Qed.
End ReadoutFacts.

(** C2, as the code has it.  In expander mode the pooled vectors of the
    real graphs do not depend on the rows of the hub nodes, for sum, mean,
    max and set-based pooling in either mode and for attention pooling in
    evaluation mode: two node tensors of the same shape that agree on
    every row whose mask is positive have the same readout. *)
Theorem readout_ignores_hub_rows :
  forall (S : Scalar) (F : FieldOps S) (lstm : LSTM) (a : Alloc)
         (ha : GNN.HeadAlloc) (c : GNN.args) (m : GNN.t) (training : bool)
         (bg : BatchedGraph) (h h' : matrix) (n d : nat),
    GNN.init (pyg lstm) a ha c = inr m ->
    GNN.arg_expander c = true ->
    (GNN.arg_graph_pooling c = "attention"%string -> training = false) ->
    shaped n d h -> shaped n d h' ->
    length (batch bg) = length (expander_node_mask bg) ->
    same_on (map gt0 (expander_node_mask bg)) h h' ->
    GNN.readout m training bg h = GNN.readout m training bg h'.
Proof.
  intros S F lstm a ha c m training bg h h' n d Hinit Hexp Hatt Hs Hs' Hl Hsame.
  apply GNN_init_pool in Hinit as [He Hpool].
  unfold GNN.readout. rewrite He, Hexp.
  pose proof (sentinel_same_on _ _ h h' Hsame Hl) as Hreal.
  pose proof (shaped_same_shape1 n d h h' Hs Hs') as Hd.
  set (idx := GNN.sentinel_batch (expander_node_mask bg) (batch bg)) in *.
  unfold GNN.select_pool in Hpool.
  destruct (String.eqb_spec (GNN.arg_graph_pooling c) "sum");
    [|destruct (String.eqb_spec (GNN.arg_graph_pooling c) "mean");
      [|destruct (String.eqb_spec (GNN.arg_graph_pooling c) "max");
        [|destruct (String.eqb_spec (GNN.arg_graph_pooling c) "attention");
          [|destruct (String.eqb_spec (GNN.arg_graph_pooling c) "set2set");
            [|discriminate]]]]];
    injection Hpool as <-; simpl.
  - unfold global_add_pool. rewrite Hd.
    apply scatter_same_from_1; [reflexivity|exact Hreal].
  - unfold global_mean_pool. rewrite Hd.
    apply scatter_same_from_1; [reflexivity|exact Hreal].
  - unfold global_max_pool. rewrite Hd.
    apply scatter_same_from_1; [reflexivity|exact Hreal].
  - rewrite (Hatt e). unfold global_attention. rewrite Hd.
    apply attention_same_from_1; [|exact Hreal].
    apply feed_forward_eval_same_on. exact Hreal.
  - apply (set2set_same_from_1 lstm _ _ h h' idx (shape1 h'));
      [exact Hreal|exact Hd|reflexivity].
Qed.

(** ** Attention pooling in training mode *)

Section RealCounterexample.
Import RealExample.
#[local] Existing Instance RScalar.
#[local] Existing Instance RFieldOps.
Local Open Scope R_scope.

Lemma relu_of_nonpositive (a s : R) :
  a <= 0 -> 0 < s -> Rmax 0 (a / s * 1 + 0) = 0.
Proof.
  intros Ha Hs. apply Rmax_left.
  assert (a / s <= 0).
  { unfold Rdiv. rewrite <- (Rmult_0_l (/ s)).
    apply Rmult_le_compat_r; [left; apply Rinv_0_lt_compat; exact Hs|exact Ha]. }
  lra.
Qed.

Lemma relu_of_nonnegative (a s : R) :
  0 <= a -> 0 < s -> Rmax 0 (a / s * 1 + 0) = a / s.
Proof.
  intros Ha Hs.
  assert (0 <= a / s).
  { unfold Rdiv. rewrite <- (Rmult_0_l (/ s)).
    apply Rmult_le_compat_r; [left; apply Rinv_0_lt_compat; exact Hs|exact Ha]. }
  rewrite Rmax_right by lra. lra.
Qed.

(** The standard deviation, with the [1e-5] of the normalisation, of both
    columns [0; 1; 2] and [0; 1; -1]. *)
Lemma spread_pos : 0 < R_sqrt.sqrt (2 / 3 + / 10 ^ 5).
Proof. apply sqrt_lt_R0. simpl. lra. Qed.

(** The gate network in training mode.  With the hub row at 2 the batch
    mean is 1 and both original nodes are rectified to 0; with the hub row
    at -1 the batch mean is 0 and the second original node keeps a
    positive gate. *)
Lemma gates_hub_high :
  feed_forward lin_in (fresh_bn 2) lin_out true h_hub_high
  = [[0]; [0]; [1 / R_sqrt.sqrt (2 / 3 + / 10 ^ 5)]].
Proof.
  unfold feed_forward, Linear_forward, BatchNorm1d_forward, fresh_bn, h_hub_high.
  cbn.
  match goal with
  | |- context [R_sqrt.sqrt ?r] =>
      replace r with (2 / 3 + / 10 ^ 5) by (simpl; lra)
  end.
  rewrite !relu_of_nonpositive by (try lra; apply spread_pos).
  rewrite relu_of_nonnegative by (try lra; apply spread_pos).
  repeat f_equal. lra.
Qed.

Lemma gates_hub_low :
  feed_forward lin_in (fresh_bn 2) lin_out true h_hub_low
  = [[0]; [1 / R_sqrt.sqrt (2 / 3 + / 10 ^ 5)]; [0]].
Proof.
  unfold feed_forward, Linear_forward, BatchNorm1d_forward, fresh_bn, h_hub_low.
  cbn.
  match goal with
  | |- context [R_sqrt.sqrt ?r] =>
      replace r with (2 / 3 + / 10 ^ 5) by (simpl; lra)
  end.
  rewrite relu_of_nonpositive by (try lra; apply spread_pos).
  rewrite relu_of_nonnegative by (try lra; apply spread_pos).
  rewrite relu_of_nonpositive by (try lra; apply spread_pos).
  repeat f_equal. lra.
Qed.

(** Attention pooling of three one-wide rows, the first two in segment 1
    and the third in the sentinel segment: the rows after the sentinel. *)
Lemma attention_of_three (g0 g1 g2 x0 x1 x2 : R) :
  tl (scatter (reduce_add 1)
              (scale_rows (softmax [[g0]; [g1]; [g2]] [1; 1; 0]%Z 2)
                          [[x0]; [x1]; [x2]])
              [1; 1; 0]%Z 2)
  = [[0
      + Rtrigo_def.exp (g0 - Rmax g0 g1)
        / (0 + Rtrigo_def.exp (g0 - Rmax g0 g1)
           + Rtrigo_def.exp (g1 - Rmax g0 g1) + / 10 ^ 16) * x0
      + Rtrigo_def.exp (g1 - Rmax g0 g1)
        / (0 + Rtrigo_def.exp (g0 - Rmax g0 g1)
           + Rtrigo_def.exp (g1 - Rmax g0 g1) + / 10 ^ 16) * x1]].
Proof.
  cbn -[pow]. change (Pos.to_nat 1) with 1%nat. cbn -[pow]. reflexivity.
Qed.

Lemma sentinel_batch_of_graph :
  GNN.sentinel_batch (expander_node_mask graph) (batch graph) = [1; 1; 0]%Z.
Proof.
  unfold GNN.sentinel_batch. simpl.
  destruct (Rlt_dec 0 1) as [_|H]; [|exfalso; lra].
  destruct (Rlt_dec 0 0) as [H|_]; [exfalso; lra|]. reflexivity.
Qed.

Lemma hub_rows_only_differ :
  same_on (map gt0 (expander_node_mask graph)) h_hub_high h_hub_low.
Proof.
  simpl. repeat split; auto.
  destruct (Rlt_dec 0 0) as [H|_]; [exfalso; lra|discriminate].
Qed.

(** C2 as stated fails for attention pooling in training mode: the gate
    network normalises with the statistics of the whole batch, hub rows
    included, so moving the hub row from 2 to -1 changes the pooled vector
    of the graph from [1 / (2 + 1e-16)] to
    [1 / (exp(-1/s) + 1 + 1e-16)], [s] the batch standard deviation. *)
Lemma attention_readout_depends_on_hub_rows :
  exists m,
    GNN.init (pyg lstm) alloc heads (args "attention") = inr m
    /\ shaped 3 1 h_hub_high /\ shaped 3 1 h_hub_low
    /\ same_on (map gt0 (expander_node_mask graph)) h_hub_high h_hub_low
    /\ GNN.readout m true graph h_hub_high <> GNN.readout m true graph h_hub_low.
Proof.
  destruct (GNN.init (pyg lstm) alloc heads (args "attention")) as [e|m] eqn:Hinit;
    [discriminate Hinit|].
  exists m. split; [reflexivity|].
  split; [split; [reflexivity|repeat constructor]|].
  split; [split; [reflexivity|repeat constructor]|].
  split; [exact hub_rows_only_differ|].
  apply GNN_init_pool in Hinit as [Hexp Hpool].
  unfold GNN.readout. rewrite Hexp. simpl GNN.arg_expander. cbv iota.
  rewrite sentinel_batch_of_graph. injection Hpool as <-.
  unfold global_attention. fold (fresh_bn 2).
  rewrite gates_hub_high, gates_hub_low.
  change (num_segments [1; 1; 0]%Z) with 2%nat.
  change (shape1 h_hub_high) with 1%nat. change (shape1 h_hub_low) with 1%nat.
  unfold h_hub_high, h_hub_low. rewrite !attention_of_three.
  set (t := 1 / R_sqrt.sqrt (2 / 3 + / 10 ^ 5)).
  assert (Ht : 0 < t).
  { unfold t. apply Rdiv_lt_0_compat; [lra|apply spread_pos]. }
  rewrite (Rmax_left 0 0) by lra. rewrite (Rmax_right 0 t) by lra.
  replace (0 - 0) with 0 by lra. replace (t - t) with 0 by lra.
  rewrite exp_0.
  assert (He : Rtrigo_def.exp (0 - t) < 1).
  { rewrite <- exp_0. apply exp_increasing. lra. }
  set (e := Rtrigo_def.exp (0 - t)) in *.
  set (a := 0 + 1 + 1 + / 10 ^ 16). set (b := 0 + e + 1 + / 10 ^ 16).
  intros Heq. injection Heq as Heq.
  assert (Hinv : / a = / b).
  { replace (/ a) with (0 + 1 / a * 0 + 1 / a * 1) by (unfold Rdiv; ring).
    replace (/ b) with (0 + e / b * 0 + 1 / b * 1) by (unfold Rdiv; ring).
    exact Heq. }
  apply Rinv_eq_reg in Hinv. unfold a, b in Hinv. lra.
Qed.

Lemma readout_ignores_hub_rows_witness :
  exists m,
    GNN.init (pyg lstm) alloc heads (args "mean") = inr m
    /\ GNN.readout m true graph h_hub_high = GNN.readout m true graph h_hub_low.
Proof.
  destruct (GNN.init (pyg lstm) alloc heads (args "mean")) as [e|m] eqn:Hinit;
    [discriminate Hinit|].
  exists m. split; [reflexivity|].
  apply (readout_ignores_hub_rows RScalar RFieldOps lstm alloc heads (args "mean")
           m true graph h_hub_high h_hub_low 3 1 Hinit).
  - reflexivity.
  - intros H. discriminate H.
  - split; [reflexivity|]. repeat constructor.
  - split; [reflexivity|]. repeat constructor.
  - reflexivity.
  - exact hub_rows_only_differ.
Defined.
End RealCounterexample.

(* ================================================================= *)
(** * Further properties of the constructors *)

Section ConstructorFacts.
Context {S : Scalar}.

Lemma rfor_each_all_return {A} (body : A -> nat -> result A) range_ :
  (forall acc i, In i range_ -> exists acc', body acc i = inr acc') ->
  forall acc, exists out, rfor_each range_ body acc = inr out.
Proof.
  induction range_ as [|i rest IH]; intros Hb acc; simpl.
  - exists acc. reflexivity.
  - destruct (Hb acc i (or_introl eq_refl)) as (acc' & ->). simpl.
    apply IH. intros a j Hj. apply Hb. right. exact Hj.
Qed.

Lemma rfor_each_first_raises {A} (body : A -> nat -> result A) i rest acc e :
  body acc i = inl e -> rfor_each (i :: rest) body acc = inl e.
Proof. intros H. simpl. rewrite H. reflexivity. Qed.

Lemma new_conv_gin a s emb task_ fl :
  (In task_ ["mol"; "ppo"; "code2"]%string ->
   exists c, new_conv a "gin" s emb task_ fl = inr c)
  /\ (~ In task_ ["mol"; "ppo"; "code2"]%string ->
      new_conv a "gin" s emb task_ fl = inl NotImplementedError).
Proof.
  unfold new_conv, GINConv_init. simpl. split.
  - intros [<-|[<-|[<-|[]]]]; simpl; eexists; reflexivity.
  - intros Hn.
    destruct (String.eqb_spec task_ "mol") as [->|_];
      [exfalso; apply Hn; simpl; auto|].
    destruct (String.eqb_spec task_ "ppo") as [->|_];
      [exfalso; apply Hn; simpl; auto|].
    destruct (String.eqb_spec task_ "code2") as [->|_];
      [exfalso; apply Hn; simpl; auto|].
    reflexivity.
Qed.

Lemma new_conv_unknown a gt s emb task_ fl :
  gt <> "gin"%string -> gt <> "gcn"%string ->
  new_conv a gt s emb task_ fl = inl (ValueError "Undefined GNN type").
Proof.
  intros H1 H2. unfold new_conv.
  destruct (String.eqb_spec gt "gin") as [|_]; [congruence|].
  destruct (String.eqb_spec gt "gcn") as [|_]; [congruence|]. reflexivity.
Qed.

Lemma seq_from_two L : 2 <= L -> exists rest, seq 0 L = 0 :: rest.
Proof. intros H. destruct L as [|L]; [lia|]. simpl. eexists. reflexivity. Qed.

(** When the node encoder selection returns. *)
Lemma select_node_encoder_returns a task_ enc :
  (exists ne, select_node_encoder a task_ enc = inr ne)
  <-> (task_ = "code2"%string -> enc <> None).
Proof.
  unfold select_node_encoder.
  destruct (String.eqb_spec task_ "mol") as [->|_].
  { split; [intros _ H; discriminate H|intros _; eexists; reflexivity]. }
  destruct (String.eqb_spec task_ "ppa") as [->|_].
  { split; [intros _ H; discriminate H|intros _; eexists; reflexivity]. }
  destruct (String.eqb_spec task_ "code2") as [->|Hn].
  - destruct enc as [e|]; split.
    + intros _ _. discriminate.
    + intros _. eexists; reflexivity.
    + intros [ne H]. discriminate H.
    + intros H. exfalso. apply (H eq_refl). reflexivity.
  - split; [intros _ H; contradiction|intros _; eexists; reflexivity].
Qed.

Lemma select_node_encoder_raises a task_ enc e :
  select_node_encoder a task_ enc = inl e -> e = AssertionError.
Proof.
  unfold select_node_encoder.
  destruct (task_ =? "mol")%string; [discriminate|].
  destruct (task_ =? "ppa")%string; [discriminate|].
  destruct (task_ =? "code2")%string; [|discriminate].
  destruct enc; [discriminate|]. congruence.
Qed.

(** With [gnn_type = "gin"] the two node engines are constructed exactly
    for a depth of at least 2, a task key the convolution knows, and, for
    the sequence task, a node encoder. *)
Lemma GNN_node_init_gin a L emb task_ enc ds jk res :
  (exists m, GNN_node.init a L emb task_ enc ds jk res "gin" = inr m)
  <-> (2 <= L /\ In task_ ["mol"; "ppo"; "code2"]%string
       /\ (task_ = "code2"%string -> enc <> None)).
Proof.
  unfold GNN_node.init. destruct (Nat.ltb_spec L 2) as [Hlt|Hge].
  { split; [intros [m H]; discriminate H|intros [H _]; lia]. }
  destruct (select_node_encoder a task_ enc) as [e|ne] eqn:Hsel; simpl.
  { split; [intros [m H]; discriminate H|].
    intros (_ & _ & Henc).
    destruct (proj2 (select_node_encoder_returns a task_ enc) Henc) as [ne Hne].
    congruence. }
  assert (Henc : task_ = "code2"%string -> enc <> None)
    by (apply (proj1 (select_node_encoder_returns a task_ enc)); eexists; exact Hsel).
  split.
  - intros [m Hm]. repeat split; auto.
    destruct (in_dec string_dec task_ ["mol"; "ppo"; "code2"]%string) as [|Hn]; auto.
    exfalso. destruct (seq_from_two L Hge) as [rest Hseq]. rewrite Hseq in Hm.
    rewrite (rfor_each_first_raises _ 0 rest _ NotImplementedError) in Hm;
      [discriminate Hm|].
    rewrite (proj2 (new_conv_gin a (Main 0) emb task_ None) Hn). reflexivity.
  - intros (_ & Htask & _).
    destruct (rfor_each_all_return
                (fun (acc : list ConvLayer * list BatchNorm1d) layer =>
                   rbind (new_conv a "gin" (Main layer) emb task_ None)
                         (fun c => inr (fst acc ++ [c],
                                        snd acc ++ [new_BatchNorm1d a (Main layer)])))
                (seq 0 L)) with (acc := (@nil ConvLayer, @nil BatchNorm1d))
      as [out Hout].
    + intros acc i _.
      destruct (proj1 (new_conv_gin a (Main i) emb task_ None) Htask) as [c ->].
      simpl. eexists; reflexivity.
    + rewrite Hout. simpl. eexists; reflexivity.
Qed.

Lemma init_layer_gin a L emb task_ handling acc i :
  (In task_ ["mol"; "ppo"; "code2"]%string ->
   exists acc', GNN_node_expander.init_layer a L emb task_ "gin" handling acc i
                = inr acc')
  /\ (~ In task_ ["mol"; "ppo"; "code2"]%string ->
      GNN_node_expander.init_layer a L emb task_ "gin" handling acc i
      = inl NotImplementedError).
Proof.
  unfold GNN_node_expander.init_layer. split.
  - intros Htask.
    destruct (proj1 (new_conv_gin a (Main i) emb task_ None) Htask) as [c ->].
    destruct (proj1 (new_conv_gin a (ExpanderLeft i) emb task_
                                  (Some "source_to_target"%string)) Htask) as [l ->].
    destruct (proj1 (new_conv_gin a (ExpanderRight i) emb task_
                                  (Some "source_to_target"%string)) Htask) as [r ->].
    simpl. destruct (negb (i =? L - 1));
      destruct (GNN_node_expander.is_summation handling); simpl;
      eexists; reflexivity.
  - intros Hn.
    rewrite (proj2 (new_conv_gin a (Main i) emb task_ None) Hn). reflexivity.
Qed.

Lemma GNN_node_expander_init_gin a L emb task_ enc ds jk res handling :
  (exists m, GNN_node_expander.init a L emb task_ enc ds jk res "gin" handling
             = inr m)
  <-> (2 <= L /\ In task_ ["mol"; "ppo"; "code2"]%string
       /\ (task_ = "code2"%string -> enc <> None)).
Proof.
  unfold GNN_node_expander.init. destruct (Nat.ltb_spec L 2) as [Hlt|Hge].
  { split; [intros [m H]; discriminate H|intros [H _]; lia]. }
  destruct (select_node_encoder a task_ enc) as [e|ne] eqn:Hsel; simpl.
  { split; [intros [m H]; discriminate H|].
    intros (_ & _ & Henc).
    destruct (proj2 (select_node_encoder_returns a task_ enc) Henc) as [ne Hne].
    congruence. }
  assert (Henc : task_ = "code2"%string -> enc <> None)
    by (apply (proj1 (select_node_encoder_returns a task_ enc)); eexists; exact Hsel).
  split.
  - intros [m Hm]. repeat split; auto.
    destruct (in_dec string_dec task_ ["mol"; "ppo"; "code2"]%string) as [|Hn]; auto.
    exfalso. destruct (seq_from_two L Hge) as [rest Hseq]. rewrite Hseq in Hm.
    rewrite (rfor_each_first_raises _ 0 rest _ NotImplementedError) in Hm;
      [discriminate Hm|].
    apply (proj2 (init_layer_gin a L emb task_ handling _ 0) Hn).
  - intros (_ & Htask & _).
    destruct (rfor_each_all_return
                (GNN_node_expander.init_layer a L emb task_ "gin" handling)
                (seq 0 L)) with (acc := GNN_node_expander.no_lists)
      as [out Hout].
    + intros acc i _. apply (proj1 (init_layer_gin a L emb task_ handling acc i) Htask).
    + rewrite Hout. simpl. eexists; reflexivity.
Qed.
End ConstructorFacts.

Section ConstructorTableFacts.
Context {S : Scalar}.

Lemma known_task_In task_ :
  known_task task_ = true <-> In task_ ["mol"; "ppo"; "code2"]%string.
Proof.
  unfold known_task. simpl.
  destruct (String.eqb_spec task_ "mol"); [split; auto|].
  destruct (String.eqb_spec task_ "ppo"); [split; auto|].
  destruct (String.eqb_spec task_ "code2"); [split; auto|].
  simpl. split; [discriminate|]. intros [H|[H|[H|[]]]]; congruence.
Qed.

Lemma rfor_each_raises_at_0 {A} (body : A -> nat -> result A) L acc e :
  2 <= L -> body acc 0 = inl e -> rfor_each (seq 0 L) body acc = inl e.
Proof.
  intros HL Hb. destruct (seq_from_two L HL) as [rest ->].
  apply rfor_each_first_raises. exact Hb.
Qed.

Lemma GNN_node_init_gin_outcome a L emb task_ enc ds jk res :
  match gin_engine_error L task_ enc with
  | Some e => GNN_node.init a L emb task_ enc ds jk res "gin" = inl e
  | None => exists m, GNN_node.init a L emb task_ enc ds jk res "gin" = inr m
  end.
Proof.
  unfold gin_engine_error.
  destruct (Nat.ltb_spec L 2) as [Hlt|Hge].
  { unfold GNN_node.init. destruct (Nat.ltb_spec L 2); [reflexivity|lia]. }
  destruct (String.eqb_spec task_ "code2") as [->|Hc]; simpl.
  - destruct enc as [e|]; simpl.
    + apply GNN_node_init_gin.
      split; [exact Hge|]. split; [simpl; auto|]. intros _. discriminate.
    + unfold GNN_node.init. destruct (Nat.ltb_spec L 2); [lia|]. reflexivity.
  - destruct (known_task task_) eqn:Hk; simpl.
    + apply GNN_node_init_gin.
      split; [exact Hge|]. split; [apply known_task_In; exact Hk|].
      intros ->. congruence.
    + unfold GNN_node.init. destruct (Nat.ltb_spec L 2); [lia|].
      destruct (proj2 (select_node_encoder_returns a task_ enc)) as [ne ->];
        [intros ->; congruence|]. simpl.
      rewrite (rfor_each_raises_at_0 _ L _ NotImplementedError Hge); [reflexivity|].
      rewrite (proj2 (new_conv_gin a (Main 0) emb task_ None)); [reflexivity|].
      intros Hin. apply known_task_In in Hin. congruence.
Qed.

Lemma GNN_node_expander_init_gin_outcome a L emb task_ enc ds jk res handling :
  match gin_engine_error L task_ enc with
  | Some e => GNN_node_expander.init a L emb task_ enc ds jk res "gin" handling
              = inl e
  | None => exists m, GNN_node_expander.init a L emb task_ enc ds jk res "gin"
                                             handling = inr m
  end.
Proof.
  unfold gin_engine_error.
  destruct (Nat.ltb_spec L 2) as [Hlt|Hge].
  { unfold GNN_node_expander.init. destruct (Nat.ltb_spec L 2); [reflexivity|lia]. }
  destruct (String.eqb_spec task_ "code2") as [->|Hc]; simpl.
  - destruct enc as [e|]; simpl.
    + apply GNN_node_expander_init_gin.
      split; [exact Hge|]. split; [simpl; auto|]. intros _. discriminate.
    + unfold GNN_node_expander.init. destruct (Nat.ltb_spec L 2); [lia|]. reflexivity.
  - destruct (known_task task_) eqn:Hk; simpl.
    + apply GNN_node_expander_init_gin.
      split; [exact Hge|]. split; [apply known_task_In; exact Hk|].
      intros ->. congruence.
    + unfold GNN_node_expander.init. destruct (Nat.ltb_spec L 2); [lia|].
      destruct (proj2 (select_node_encoder_returns a task_ enc)) as [ne ->];
        [intros ->; congruence|]. simpl.
      rewrite (rfor_each_raises_at_0 _ L _ NotImplementedError Hge); [reflexivity|].
      apply (proj2 (init_layer_gin a L emb task_ handling _ 0)).
      intros Hin. apply known_task_In in Hin. congruence.
Qed.

Lemma select_pool_outcome lib ha pooling emb :
  if known_pooling pooling
  then exists pl, GNN.select_pool lib ha pooling emb = inr pl
  else GNN.select_pool lib ha pooling emb
       = inl (ValueError "Invalid graph pooling type.").
Proof.
  unfold known_pooling, GNN.select_pool.
  destruct (pooling =? "sum")%string; simpl; [eexists; reflexivity|].
  destruct (pooling =? "mean")%string; simpl; [eexists; reflexivity|].
  destruct (pooling =? "max")%string; simpl; [eexists; reflexivity|].
  destruct (pooling =? "attention")%string; simpl; [eexists; reflexivity|].
  destruct (pooling =? "set2set")%string; simpl; [eexists; reflexivity|].
  reflexivity.
Qed.
End ConstructorTableFacts.

(** X1. With [gnn_type = "gin"], what [GNN(...)] does is decided by its
    arguments alone, in this order: the sequence task without
    [max_seq_len] fails its assertion; fewer than 2 layers raise
    [ValueError]; the sequence task without a node encoder fails its
    assertion; a task key other than mol, ppo, code2 raises
    [NotImplementedError] from the first convolution; an unknown pooling
    kind raises [ValueError]; every other call returns a model. *)
Theorem GNN_init_gin_outcome :
  forall (S : Scalar) (lib : GNN.PyG) (a : Alloc) (ha : GNN.HeadAlloc)
         (c : GNN.args),
    GNN.arg_gnn_type c = "gin"%string ->
    match gin_model_error c with
    | Some e => GNN.init lib a ha c = inl e
    | None => exists m, GNN.init lib a ha c = inr m
    end.
Proof.
  intros S lib a ha c Hgin. unfold gin_model_error, GNN.init. rewrite Hgin.
  destruct (GNN.arg_task c =? "code2")%string eqn:Hcode;
    destruct (GNN.arg_max_seq_len c) as [n|] eqn:Hmsl; simpl; try reflexivity.
  all: pose proof (GNN_node_init_gin_outcome a (GNN.arg_num_layer c)
                     (GNN.arg_emb_dim c) (GNN.arg_task c) (GNN.arg_node_encoder c)
                     (GNN.arg_drop_scale c) (GNN.arg_JK c) (GNN.arg_residual c))
         as Hplain.
  all: pose proof (GNN_node_expander_init_gin_outcome a (GNN.arg_num_layer c)
                     (GNN.arg_emb_dim c) (GNN.arg_task c) (GNN.arg_node_encoder c)
                     (GNN.arg_drop_scale c) (GNN.arg_JK c) (GNN.arg_residual c)
                     (GNN.arg_expander_edge_handling c)) as Hexp.
  all: pose proof (select_pool_outcome lib ha (GNN.arg_graph_pooling c)
                                       (GNN.arg_emb_dim c)) as Hpool.
  all: destruct (gin_engine_error _ _ _) as [e|] eqn:Herr.
  all: unfold gin_engine_error in Herr.
  all: destruct (GNN.arg_num_layer c <? 2) eqn:HL;
    [try (injection Herr as <-; reflexivity); try discriminate Herr|].
  all: destruct (GNN.arg_expander c); simpl.
  all: try (rewrite Hplain; reflexivity).
  all: try (rewrite Hexp; reflexivity).
  all: try (destruct Hplain as [m ->]; simpl).
  all: try (destruct Hexp as [m ->]; simpl).
  all: destruct (known_pooling (GNN.arg_graph_pooling c));
    [destruct Hpool as [pl ->]; simpl; eexists; reflexivity
    |rewrite Hpool; reflexivity].
Qed.

Lemma GNN_init_gin_outcome_witness :
  exists m,
    GNN.init (S := RealExample.RScalar)
             (pyg (F := RealExample.RFieldOps) RealExample.lstm)
             RealExample.alloc RealExample.heads (RealExample.args "mean") = inr m.
Proof.
  exact (GNN_init_gin_outcome RealExample.RScalar
           (pyg (F := RealExample.RFieldOps) RealExample.lstm)
           RealExample.alloc RealExample.heads (RealExample.args "mean") eq_refl).
Defined.

(** X2. A [gnn_type] other than gin and gcn is refused by the first
    iteration of the constructor loop with [ValueError], in both node
    engines and in the model, once the earlier checks (depth, and for the
    sequence task the node encoder and [max_seq_len]) have passed. *)
Theorem unknown_gnn_type_raises_ValueError :
  forall (S : Scalar) (lib : GNN.PyG) (a : Alloc) (ha : GNN.HeadAlloc)
         (c : GNN.args),
    GNN.arg_gnn_type c <> "gin"%string ->
    GNN.arg_gnn_type c <> "gcn"%string ->
    2 <= GNN.arg_num_layer c ->
    (GNN.arg_task c = "code2"%string ->
     GNN.arg_node_encoder c <> None /\ GNN.arg_max_seq_len c <> None) ->
    GNN_node.init a (GNN.arg_num_layer c) (GNN.arg_emb_dim c) (GNN.arg_task c)
                  (GNN.arg_node_encoder c) (GNN.arg_drop_scale c) (GNN.arg_JK c)
                  (GNN.arg_residual c) (GNN.arg_gnn_type c)
    = inl (ValueError "Undefined GNN type")
    /\ GNN_node_expander.init a (GNN.arg_num_layer c) (GNN.arg_emb_dim c)
                              (GNN.arg_task c) (GNN.arg_node_encoder c)
                              (GNN.arg_drop_scale c) (GNN.arg_JK c)
                              (GNN.arg_residual c) (GNN.arg_gnn_type c)
                              (GNN.arg_expander_edge_handling c)
       = inl (ValueError "Undefined GNN type")
    /\ GNN.init lib a ha c = inl (ValueError "Undefined GNN type").
Proof.
  intros S lib a ha c Hgin Hgcn HL Hcode.
  assert (Hsel : exists ne, select_node_encoder a (GNN.arg_task c)
                                                (GNN.arg_node_encoder c) = inr ne).
  { apply select_node_encoder_returns. intros H. apply (Hcode H). }
  destruct Hsel as [ne Hsel].
  assert (Hplain : GNN_node.init a (GNN.arg_num_layer c) (GNN.arg_emb_dim c)
                     (GNN.arg_task c) (GNN.arg_node_encoder c) (GNN.arg_drop_scale c)
                     (GNN.arg_JK c) (GNN.arg_residual c) (GNN.arg_gnn_type c)
                   = inl (ValueError "Undefined GNN type")).
  { unfold GNN_node.init.
    destruct (Nat.ltb_spec (GNN.arg_num_layer c) 2); [lia|].
    rewrite Hsel. simpl.
    rewrite (rfor_each_raises_at_0 _ _ _ (ValueError "Undefined GNN type") HL);
      [reflexivity|].
    rewrite new_conv_unknown by assumption. reflexivity. }
  assert (Hexp : GNN_node_expander.init a (GNN.arg_num_layer c) (GNN.arg_emb_dim c)
                   (GNN.arg_task c) (GNN.arg_node_encoder c) (GNN.arg_drop_scale c)
                   (GNN.arg_JK c) (GNN.arg_residual c) (GNN.arg_gnn_type c)
                   (GNN.arg_expander_edge_handling c)
                 = inl (ValueError "Undefined GNN type")).
  { unfold GNN_node_expander.init.
    destruct (Nat.ltb_spec (GNN.arg_num_layer c) 2); [lia|].
    rewrite Hsel. simpl.
    rewrite (rfor_each_raises_at_0 _ _ _ (ValueError "Undefined GNN type") HL);
      [reflexivity|].
    unfold GNN_node_expander.init_layer.
    rewrite new_conv_unknown by assumption. reflexivity. }
  split; [exact Hplain|]. split; [exact Hexp|].
  unfold GNN.init.
  destruct (String.eqb_spec (GNN.arg_task c) "code2") as [Hc|_].
  - destruct (Hcode Hc) as [_ Hmsl].
    destruct (GNN.arg_max_seq_len c); [|congruence]. simpl.
    destruct (Nat.ltb_spec (GNN.arg_num_layer c) 2); [lia|].
    destruct (GNN.arg_expander c); simpl; [rewrite Hexp|rewrite Hplain]; reflexivity.
  - simpl. destruct (Nat.ltb_spec (GNN.arg_num_layer c) 2); [lia|].
    destruct (GNN.arg_expander c); simpl; [rewrite Hexp|rewrite Hplain]; reflexivity.
Qed.

Lemma unknown_gnn_type_witness :
  let c := @GNN.Build_args RealExample.RScalar "mol" 1 None None 2 1 "gat"
                           false 2%R "last" "mean" true "masking" in
  GNN.init (pyg (F := RealExample.RFieldOps) RealExample.lstm)
           RealExample.alloc RealExample.heads c
  = inl (ValueError "Undefined GNN type").
Proof.
  intros c.
  apply (unknown_gnn_type_raises_ValueError
           RealExample.RScalar (pyg (F := RealExample.RFieldOps) RealExample.lstm)
           RealExample.alloc RealExample.heads c).
  - discriminate.
  - discriminate.
  - simpl. lia.
  - intros H. discriminate H.
Defined.

(* ================================================================= *)
(** * Further properties of the forward pass *)

Section ForwardFacts.
Context {S : Scalar}.

Lemma GNN_init_fields lib a ha c m :
  GNN.init lib a ha c = inr m ->
  GNN.task m = GNN.arg_task c
  /\ GNN.max_seq_len m
     = (if (GNN.arg_task c =? "code2")%string then GNN.arg_max_seq_len c else None)
  /\ ((GNN.arg_task c =? "code2")%string = true -> GNN.arg_max_seq_len c <> None)
  /\ GNN.graph_pred_linear m
     = (if (GNN.arg_task c =? "code2")%string then None
        else Some (GNN.new_pred_Linear ha 0))
  /\ GNN.graph_pred_linear_list m
     = match GNN.max_seq_len m with
       | Some n => map (GNN.new_pred_Linear ha) (seq 0 n)
       | None => []
       end
  /\ (if GNN.arg_expander c
      then exists n,
          GNN.gnn_node m = inr n
          /\ GNN_node_expander.init a (GNN.arg_num_layer c) (GNN.arg_emb_dim c)
               (GNN.arg_task c) (GNN.arg_node_encoder c) (GNN.arg_drop_scale c)
               (GNN.arg_JK c) (GNN.arg_residual c) (GNN.arg_gnn_type c)
               (GNN.arg_expander_edge_handling c) = inr n
      else exists n,
          GNN.gnn_node m = inl n
          /\ GNN_node.init a (GNN.arg_num_layer c) (GNN.arg_emb_dim c)
               (GNN.arg_task c) (GNN.arg_node_encoder c) (GNN.arg_drop_scale c)
               (GNN.arg_JK c) (GNN.arg_residual c) (GNN.arg_gnn_type c) = inr n).
Proof.
  unfold GNN.init.
  destruct (GNN.arg_task c =? "code2")%string eqn:Hcode;
    destruct (GNN.arg_max_seq_len c) as [k|] eqn:Hmsl; simpl; try discriminate.
  all: destruct (GNN.arg_num_layer c <? 2); [discriminate|].
  all: destruct (GNN.arg_expander c); simpl.
  all: match goal with
       | |- context [GNN_node.init ?a ?l ?e ?t ?n ?d ?j ?r ?g] =>
           destruct (GNN_node.init a l e t n d j r g) as [err|nd] eqn:Hnode
       | |- context [GNN_node_expander.init ?a ?l ?e ?t ?n ?d ?j ?r ?g ?h] =>
           destruct (GNN_node_expander.init a l e t n d j r g h) as [err|nd] eqn:Hnode
       end; simpl; [discriminate|].
  all: destruct (GNN.select_pool _ _ _ _) as [err|pl]; simpl; [discriminate|].
  all: intros [= <-]; simpl.
  all: repeat split; try reflexivity; try discriminate.
  all: exists nd; split; reflexivity.
Qed.





End ForwardFacts.



(** X4. A model whose task key is none of mol, ppa, code2 has no node
    encoder: whenever its construction succeeds, every forward pass raises
    [AttributeError] at the first use of [self.node_encoder].  The key
    ppo, which the convolution accepts, is such a key. *)
Theorem forward_without_node_encoder_raises :
  forall (S : Scalar) (lib : GNN.PyG) (a : Alloc) (ha : GNN.HeadAlloc)
         (c : GNN.args) (m : GNN.t) (training : bool) (bg : BatchedGraph)
         (t : tape),
    GNN.init lib a ha c = inr m ->
    ~ In (GNN.arg_task c) ["mol"; "ppa"; "code2"]%string ->
    GNN.forward m training bg t = inl (AttributeError "node_encoder").
Proof.
  intros S lib a ha c m training bg t Hinit Htask.
  assert (Hsel : select_node_encoder a (GNN.arg_task c) (GNN.arg_node_encoder c)
                 = inr None).
  { unfold select_node_encoder.
    destruct (String.eqb_spec (GNN.arg_task c) "mol") as [H|_];
      [exfalso; apply Htask; rewrite H; simpl; auto|].
    destruct (String.eqb_spec (GNN.arg_task c) "ppa") as [H|_];
      [exfalso; apply Htask; rewrite H; simpl; auto|].
    destruct (String.eqb_spec (GNN.arg_task c) "code2") as [H|_];
      [exfalso; apply Htask; rewrite H; simpl; auto|].
    reflexivity. }
  apply GNN_init_fields in Hinit as (_ & _ & _ & _ & _ & Hn).
  unfold GNN.forward, GNN.node_forward.
  destruct (GNN.arg_expander c); destruct Hn as (n & -> & Hn).
  - apply GNN_node_expander_init_fields in Hn as (_ & _ & _ & _ & _ & Hs & _).
    rewrite Hsel in Hs. injection Hs as Hs.
    unfold GNN_node_expander.forward, GNN_node_expander.history,
      GNN_node_expander.trace, GNN_node_expander.encode, bind.
    rewrite <- Hs. reflexivity.
  - apply GNN_node_init_fields in Hn as (_ & _ & _ & _ & Hs & _).
    rewrite Hsel in Hs. injection Hs as Hs.
    unfold GNN_node.forward, GNN_node.history, GNN_node.encode, bind.
    rewrite <- Hs. reflexivity.
Qed.

Lemma forward_without_node_encoder_witness :
  let c := @GNN.Build_args RealExample.RScalar "ppo" 1 None None 2 1 "gin"
                           false 2%R "last" "mean" true "masking" in
  exists m,
    GNN.init (pyg (F := RealExample.RFieldOps) RealExample.lstm)
             RealExample.alloc RealExample.heads c = inr m
    /\ GNN.forward m true RealExample.graph (fun _ => true)
       = inl (AttributeError "node_encoder").
Proof.
  intros c.
  destruct (GNN.init (pyg (F := RealExample.RFieldOps) RealExample.lstm)
              RealExample.alloc RealExample.heads c) as [e|m] eqn:Hinit;
    [discriminate Hinit|].
  exists m. split; [reflexivity|].
  apply (forward_without_node_encoder_raises
           RealExample.RScalar _ _ _ c m true RealExample.graph (fun _ => true) Hinit).
  simpl. intros [H|[H|[H|[]]]]; discriminate H.
Defined.

(** X7. The module lists of a constructed expander engine with
    [num_layer = L]: [L] main convolutions and normalisations; [L - 1]
    right convolutions and left and right normalisations; [L - 1] left
    convolutions and no summation layer under the learned and masking
    strategies, no left convolution and [L - 1] summation layers under the
    summation strategies (whose left normalisations are allocated all the
    same). *)
Theorem expander_module_lists_after_construction :
  forall (S : Scalar) (a : Alloc) (L emb : nat) (task_ : string)
         (enc : option NodeEncoder) (ds : carrier) (jk : string) (res : bool)
         (gt handling : string) (m : GNN_node_expander.t),
    GNN_node_expander.init a L emb task_ enc ds jk res gt handling = inr m ->
    let s := GNN_node_expander.is_summation handling in
    length (GNN_node_expander.convs m) = L
    /\ length (GNN_node_expander.batch_norms m) = L
    /\ length (GNN_node_expander.expander_left_convs m) = (if s then 0 else L - 1)
    /\ length (GNN_node_expander.expander_left_batch_norms m) = L - 1
    /\ length (GNN_node_expander.expander_right_convs m) = L - 1
    /\ length (GNN_node_expander.expander_right_batch_norms m) = L - 1
    /\ length (GNN_node_expander.summation m) = (if s then L - 1 else 0).
Proof.
  intros S a L emb task_ enc ds jk res gt handling m Hinit s.
  apply GNN_node_expander_init_fields in Hinit as (_ & HL & _ & _ & _ & _ & Hl).
  unfold lists_after in Hl. simpl in Hl.
  replace (Nat.min L (L - 1)) with (L - 1) in Hl by lia. exact Hl.
Qed.

Lemma expander_module_lists_witness :
  let m := Example.built (Example.engine "summation" (Example.affine_bn 1 0)
                                         (Example.affine_bn 1 0)) in
  length (GNN_node_expander.convs m) = 2
  /\ length (GNN_node_expander.batch_norms m) = 2
  /\ length (GNN_node_expander.expander_left_convs m) = 0
  /\ length (GNN_node_expander.expander_left_batch_norms m) = 1
  /\ length (GNN_node_expander.expander_right_convs m) = 1
  /\ length (GNN_node_expander.expander_right_batch_norms m) = 1
  /\ length (GNN_node_expander.summation m) = 1.
Proof.
  intros m.
  apply (expander_module_lists_after_construction
           ZScalar (Example.alloc (Example.affine_bn 1 0) (Example.affine_bn 1 0))
           2 1 "mol" None 2%Z "last" false "gin" "summation" m).
  reflexivity.
Defined.

(* ================================================================= *)
(** * The directional update under particular masks *)

Section MaskFacts.
Context {S : Scalar} {E : ExactScalar S}.

Lemma ones_select (out x_ : matrix) d : forall n,
  shaped n d out -> shaped n d x_ ->
  madd (mmul (ones n d) out) (mmul (ssub one (ones n d)) x_) = out.
Proof.
  unfold madd, mmul, ssub, ones. revert x_.
  induction out as [|r out IH]; intros [|r' x_] n [Hn Hw] [Hn' Hw'];
    simpl in *; subst; simpl; try reflexivity; try discriminate.
  inversion Hw as [|? ? Hr Hw0]; inversion Hw' as [|? ? Hr' Hw0']; subst.
  rewrite one_minus_ones.
  rewrite (vmul_one_l r (length r) eq_refl).
  rewrite (vmul_zero_l r' (length r) Hr').
  rewrite (vadd_zeros_r r (length r) eq_refl).
  f_equal. apply (IH x_ (length out)).
  - split; [reflexivity|assumption].
  - split; [congruence|assumption].
Qed.
End MaskFacts.

(** X5. In the plain engine the mask is all ones, and the directional
    update of the convolution is then the identity: the layer returns the
    feed-forward output itself (exact arithmetic, tensors of one shape). *)
Theorem all_ones_mask_makes_update_identity :
  forall (S : Scalar) (E : ExactScalar S) (c : GINConv) (training : bool)
         (h : matrix) (ei : edge_index) (ea : option matrix) (n d : nat),
    shaped n d h ->
    shaped n d (GINConv_out c training h ei ea false (ones n d)) ->
    GINConv_forward c training h ei ea false (ones n d) "original"
    = GINConv_out c training h ei ea false (ones n d).
Proof.
  intros S E c training h ei ea n d Hh Hout.
  unfold GINConv_forward. simpl. apply ones_select; assumption.
Qed.

Lemma all_ones_mask_witness :
  let c := {| flow := "source_to_target";
              mlp := feed_forward Example.lin_pad (Example.affine_bn 1 0)
                                  Example.lin_head;
              eps := 0%Z; edge_encoder := map (firstn 1) |} in
  let h := [[2]; [5]; [1]]%Z in
  let ei := ([0; 1], [2; 2]) in
  GINConv_forward c false h ei None false (ones 3 1) "original"
  = GINConv_out c false h ei None false (ones 3 1).
Proof.
  intros c h ei.
  apply (all_ones_mask_makes_update_identity ZScalar ZScalar_exact c false h ei
           None 3 1).
  - split; [reflexivity|]. repeat constructor.
  - split; [reflexivity|]. repeat constructor.
Defined.

Section MaskingFacts.
Context {S : Scalar} {E : ExactScalar S}.

Lemma zero_hub_rows_same_on bits (h h' : matrix) d :
  Forall (fun r => length r = d) h -> Forall (fun r => length r = d) h' ->
  same_on bits h h' -> zero_hub_rows bits h = zero_hub_rows bits h'.
Proof.
  unfold zero_hub_rows. intros Hw. revert bits h'.
  induction Hw as [|r h Hr Hw IH]; intros [|b bits] [|r' h'] Hw' Hs;
    simpl in *; try contradiction; try reflexivity.
  inversion Hw' as [|? ? Hr' Hw0']; subst. destruct Hs as [Hb Hs].
  f_equal; [|apply IH; assumption].
  destruct b; [apply Hb; reflexivity|congruence].
Qed.

Lemma same_on_length {A} bits (xs ys : list A) :
  same_on bits xs ys -> length bits = length xs /\ length bits = length ys.
Proof.
  revert xs ys; induction bits as [|b bits IH]; intros [|a xs] [|b' ys] H;
    simpl in *; try contradiction; auto.
  destruct H as [_ H]. destruct (IH _ _ H). split; congruence.
Qed.

Lemma masked_same_on bits (h h' : matrix) d :
  Forall (fun r => length r = d) h -> Forall (fun r => length r = d) h' ->
  same_on bits h h' ->
  mmul h (expand (map of_bool bits) d) = mmul h' (expand (map of_bool bits) d).
Proof.
  intros Hw Hw' Hs. destruct (same_on_length _ _ _ Hs) as [Hl Hl'].
  rewrite (mmul_expand_bits h bits d Hw Hl), (mmul_expand_bits h' bits d Hw' Hl').
  apply (zero_hub_rows_same_on bits h h' d); assumption.
Qed.
End MaskingFacts.

(** X6. Under the strategies that multiply the input by the node mask
    (the convolution called with [masking=True], and the summation
    phase), the result does not depend on the values the hub rows had on
    entry: two inputs that agree on the rows of the original nodes give
    the same output on every row (0/1 mask, exact arithmetic). *)
Theorem masked_phases_ignore_incoming_hub_rows :
  forall (S : Scalar) (E : ExactScalar S) (c : GINConv) (sum_conv : SumConv)
         (training : bool) (h h' : matrix) (ei : edge_index)
         (ea : option matrix) (bits : list bool) (d : nat)
         (update_nodes : string),
    Forall (fun r => length r = d) h ->
    Forall (fun r => length r = d) h' ->
    same_on bits h h' ->
    let mask := expand (map of_bool bits) d in
    GINConv_forward c training h ei ea true mask update_nodes
    = GINConv_forward c training h' ei ea true mask update_nodes
    /\ GNN_node_expander.summation_phase sum_conv training h ei mask
       = GNN_node_expander.summation_phase sum_conv training h' ei mask.
Proof.
  intros S E c sum_conv training h h' ei ea bits d un Hw Hw' Hs mask.
  pose proof (masked_same_on bits h h' d Hw Hw' Hs) as Heq. fold mask in Heq.
  split.
  - unfold GINConv_forward, GINConv_out, masked_input. rewrite Heq. reflexivity.
  - unfold GNN_node_expander.summation_phase. rewrite Heq. reflexivity.
Qed.

Lemma masked_phases_witness :
  let c := {| flow := "source_to_target";
              mlp := feed_forward Example.lin_pad (Example.affine_bn 1 0)
                                  Example.lin_head;
              eps := 0%Z; edge_encoder := map (firstn 1) |} in
  let ei := ([0; 1], [2; 2]) in
  let mask := expand (map of_bool [true; true; false]) 1 in
  GINConv_forward c false [[2]; [5]; [1]]%Z ei None true mask "expander"
  = GINConv_forward c false [[2]; [5]; [7]]%Z ei None true mask "expander"
  /\ GNN_node_expander.summation_phase Example.sum_conv false [[2]; [5]; [1]]%Z
       ei mask
     = GNN_node_expander.summation_phase Example.sum_conv false [[2]; [5]; [7]]%Z
         ei mask.
Proof.
  intros c ei mask.
  apply (masked_phases_ignore_incoming_hub_rows ZScalar ZScalar_exact c
           Example.sum_conv false [[2]; [5]; [1]]%Z [[2]; [5]; [7]]%Z ei None
           [true; true; false] 1 "expander").
  - repeat constructor.
  - repeat constructor.
  - simpl. repeat split; try reflexivity; discriminate.
Defined.

(* ================================================================= *)
(** * The aggregation and the order of the edges *)

Lemma ZScalar_add_laws : AddLaws ZScalar.
Proof. constructor; simpl; intros; lia. Qed.

Section AggregationFacts.
Context {S : Scalar} {A : AddLaws S}.

Lemma vadd_swap (a r1 r2 : vec) :
  vadd (vadd a r1) r2 = vadd (vadd a r2) r1.
Proof.
  unfold vadd. revert r1 r2; induction a as [|z a IH]; intros [|z1 r1] [|z2 r2];
    simpl; try reflexivity.
  f_equal; [|apply IH].
  rewrite <- !add_associates. f_equal. apply add_commutes.
Qed.

Lemma fold_vadd_permutation (rs rs' : list vec) :
  Permutation rs rs' -> forall a, fold_left vadd rs a = fold_left vadd rs' a.
Proof.
  induction 1 as [|r rs rs' _ IH|r1 r2 rs|rs rs' rs'' _ IH1 _ IH2]; intros a; simpl.
  - reflexivity.
  - apply IH.
  - rewrite vadd_swap. reflexivity.
  - rewrite IH1. apply IH2.
Qed.

Lemma filter_permutation {B} (p : B -> bool) (l l' : list B) :
  Permutation l l' -> Permutation (filter p l) (filter p l').
Proof.
  induction 1 as [|b l l' _ IH|b1 b2 l|l l' l'' _ IH1 _ IH2]; simpl.
  - constructor.
  - destruct (p b); [constructor|]; exact IH.
  - destruct (p b1), (p b2); try apply Permutation_refl. constructor.
  - eapply Permutation_trans; eassumption.
Qed.

(** The (target, message) pairs of the scatter step, edge by edge. *)
Lemma messages_of_edges (x_ : matrix) (es : list edge) :
  combine (map edge_target es)
          (message (gather x_ (map edge_source es)) (Some (rows_of_edges es)))
  = map (fun e => (edge_target e,
                   vrelu (vadd (row x_ (edge_source e)) (edge_row e)))) es.
Proof.
  unfold message, mrelu, madd, gather, rows_of_edges.
  induction es as [|e es IH]; simpl; [reflexivity|].
  f_equal. exact IH.
Qed.

Lemma messages_of_bare_edges (x_ : matrix) (es : list edge) :
  combine (map edge_target es)
          (message (gather x_ (map edge_source es)) None)
  = map (fun e => (edge_target e, vrelu (row x_ (edge_source e)))) es.
Proof.
  unfold message, mrelu, gather.
  induction es as [|e es IH]; simpl; [reflexivity|].
  f_equal. exact IH.
Qed.

Lemma scatter_add_permutation (krs krs' : list (nat * vec)) d i :
  Permutation krs krs' ->
  fold_left vadd (map snd (filter (fun kr => Nat.eqb (fst kr) i) krs)) (zeros d)
  = fold_left vadd (map snd (filter (fun kr => Nat.eqb (fst kr) i) krs')) (zeros d).
Proof.
  intros Hp. apply fold_vadd_permutation. apply Permutation_map.
  apply filter_permutation. exact Hp.
Qed.
End AggregationFacts.

(** X8. The aggregation of [GINConv] does not depend on the order in
    which the edges are listed: listing the same edges (source, target,
    feature row) in another order gives the same aggregated tensor, with
    and without edge features, when addition is commutative and
    associative. *)
Theorem aggregation_ignores_edge_order :
  forall (S : Scalar) (A : AddLaws S) (x_ : matrix) (es es' : list edge),
    Permutation es es' ->
    mp_propagate "source_to_target" message update (index_of_edges es) x_
                 (Some (rows_of_edges es))
    = mp_propagate "source_to_target" message update (index_of_edges es') x_
                   (Some (rows_of_edges es'))
    /\ mp_propagate "source_to_target" message update (index_of_edges es) x_ None
       = mp_propagate "source_to_target" message update (index_of_edges es') x_
                      None.
Proof.
  intros S A x_ es es' Hp.
  unfold mp_propagate, update, index_of_edges.
  rewrite String.eqb_refl. cbv beta iota. cbn [fst snd].
  rewrite !scatter_add_rows. split; apply map_ext; intros i.
  - rewrite !messages_of_edges.
    apply scatter_add_permutation.
    apply Permutation_map. exact Hp.
  - rewrite !messages_of_bare_edges.
    apply scatter_add_permutation.
    apply Permutation_map. exact Hp.
Qed.

Lemma aggregation_ignores_edge_order_witness :
  let x_ := [[1]; [2]; [5]]%Z in
  let e1 : edge := (0, 2, [3]%Z) in
  let e2 : edge := (1, 2, [4]%Z) in
  mp_propagate "source_to_target" message update (index_of_edges [e1; e2]) x_
               (Some (rows_of_edges [e1; e2]))
  = mp_propagate "source_to_target" message update (index_of_edges [e2; e1]) x_
                 (Some (rows_of_edges [e2; e1])).
Proof.
  intros x_ e1 e2.
  apply (aggregation_ignores_edge_order ZScalar ZScalar_add_laws x_
           [e1; e2] [e2; e1]).
  apply perm_swap.
Defined.

Section IsolatedNode.
Context {S : Scalar}.

Lemma incoming_of_absent_target (targets : list nat) n_edges i :
  n_edges <= length targets -> ~ In i targets -> incoming targets n_edges i = [].
Proof.
  intros Hn Hi. unfold incoming.
  assert (Hall : Forall (fun e => Nat.eqb (nth e targets O) i = false)
                        (seq 0 n_edges)).
  { apply Forall_forall. intros e He. apply in_seq in He. apply Nat.eqb_neq.
    intros Heq. apply Hi. rewrite <- Heq. apply nth_In. lia. }
  induction Hall as [|e l He _ IH]; simpl; [reflexivity|].
  rewrite He. exact IH.
Qed.
End IsolatedNode.

(** X9. A node at which no edge arrives receives the zero row from the
    aggregation, whatever the other nodes hold. *)
Theorem node_without_incoming_edge_aggregates_zero :
  forall (S : Scalar) (x_ : matrix) (ei : edge_index) (emb : option matrix)
         (i : nat),
    i < shape0 x_ ->
    ~ In i (snd ei) ->
    row (mp_propagate "source_to_target" message update ei x_ emb) i
    = zeros (shape1 x_).
Proof.
  intros S x_ ei emb i Hi Hn.
  rewrite propagate_is_incoming_sum. unfold incoming_sum, row.
  rewrite (map_nth_in _ _ i O) by (rewrite length_seq; exact Hi).
  rewrite seq_nth by exact Hi. simpl.
  rewrite incoming_of_absent_target; [reflexivity| |exact Hn].
  destruct emb; lia.
Qed.

Lemma node_without_incoming_edge_witness :
  row (mp_propagate "source_to_target" message update ([0; 1], [2; 2])
                    [[1]; [2]; [5]]%Z None) 0
  = zeros 1.
Proof.
  apply (node_without_incoming_edge_aggregates_zero ZScalar [[1]; [2]; [5]]%Z
           ([0; 1], [2; 2]) None 0).
  - simpl. lia.
  - simpl. intros [H|[H|[]]]; discriminate H.
Defined.

(* ================================================================= *)
(** * The readout as pooling of the original nodes *)

Section KeepRows.
Context {S : Scalar} {F : FieldOps S}.

Lemma keep_rows_cons {A} (b : bool) sel (a : A) xs :
  keep_rows (b :: sel) (a :: xs)
  = if b then a :: keep_rows sel xs else keep_rows sel xs.
Proof. unfold keep_rows. simpl. destruct b; reflexivity. Qed.

Lemma keep_rows_Forall {A} (P : A -> Prop) sel (xs : list A) :
  Forall P xs -> Forall P (keep_rows sel xs).
Proof.
  intros H. revert sel; induction H as [|a xs Ha _ IH]; intros [|b sel];
    try constructor.
  rewrite keep_rows_cons. destruct b; [constructor; [exact Ha|]|]; apply IH.
Qed.

Lemma keep_rows_same_length {A B} sel (xs : list A) (ys : list B) :
  length xs = length sel -> length ys = length sel ->
  length (keep_rows sel xs) = length (keep_rows sel ys).
Proof.
  revert xs ys; induction sel as [|b sel IH]; intros [|a xs] [|c ys] Hx Hy;
    simpl in *; try discriminate; try reflexivity.
  rewrite !keep_rows_cons. destruct b; simpl; [f_equal|]; apply IH; congruence.
Qed.

(** Segment [g + 1] of the sentinel index holds the kept entries of
    segment [g]. *)
Lemma segment_of_sentinel {A} (mask : vec) (batch_ : list Z) (xs : list A) g :
  length batch_ = length mask -> length xs = length mask ->
  segment xs (GNN.sentinel_batch mask batch_) (Datatypes.S g)
  = segment (keep_rows (map gt0 mask) xs) (keep_rows (map gt0 mask) batch_) g.
Proof.
  unfold segment, GNN.sentinel_batch.
  revert batch_ xs; induction mask as [|m mask IH]; intros [|b batch_] [|a xs] Hb Hx;
    simpl in *; try discriminate; try reflexivity.
  rewrite !keep_rows_cons. destruct (gt0 m); simpl.
  - destruct (Z.eqb_spec (b + 1) (Z.pos (Pos.of_succ_nat g))) as [H1|H1];
      destruct (Z.eqb_spec b (Z.of_nat g)) as [H2|H2]; try lia; simpl;
      [f_equal|]; apply IH; congruence.
  - apply IH; congruence.
Qed.

Lemma max_of_sentinel (mask : vec) (batch_ : list Z) :
  length batch_ = length mask -> Forall (fun b => (0 <= b)%Z) batch_ ->
  mask <> [] ->
  fold_right Z.max (-1)%Z (GNN.sentinel_batch mask batch_)
  = (fold_right Z.max (-1)%Z (keep_rows (map gt0 mask) batch_) + 1)%Z
  /\ (-1 <= fold_right Z.max (-1)%Z (keep_rows (map gt0 mask) batch_))%Z.
Proof.
  unfold GNN.sentinel_batch.
  revert batch_; induction mask as [|m mask IH]; intros [|b batch_] Hl Hn Hne;
    simpl in *; try discriminate; try congruence.
  inversion Hn as [|? ? Hb Hn']; subst.
  rewrite keep_rows_cons.
  destruct mask as [|m' mask].
  - destruct batch_; [|discriminate]. unfold keep_rows. simpl.
    destruct (gt0 m); simpl; lia.
  - destruct (IH batch_) as [IH1 IH2]; [congruence|exact Hn'|discriminate|].
    rewrite IH1.
    set (M := fold_right Z.max (-1)%Z (keep_rows (map gt0 (m' :: mask)) batch_))
      in *.
    destruct (gt0 m); cbn [fold_right]; lia.
Qed.

Lemma num_segments_of_sentinel (mask : vec) (batch_ : list Z) :
  length batch_ = length mask -> Forall (fun b => (0 <= b)%Z) batch_ ->
  mask <> [] ->
  num_segments (GNN.sentinel_batch mask batch_)
  = Datatypes.S (num_segments (keep_rows (map gt0 mask) batch_)).
Proof.
  intros Hl Hn Hne. unfold num_segments.
  destruct (max_of_sentinel mask batch_ Hl Hn Hne) as [-> Hge]. lia.
Qed.

Lemma tl_map_seq {B} (f : nat -> B) k :
  tl (map f (seq 0 (Datatypes.S k))) = map (fun g => f (Datatypes.S g)) (seq 0 k).
Proof. simpl. rewrite <- seq_shift, map_map. reflexivity. Qed.

(** Scatter over the sentinel index, without segment 0, is scatter over
    the kept nodes. *)
Lemma scatter_of_sentinel (reduce : nat -> list vec -> vec) (mask : vec)
      (batch_ : list Z) (h : matrix) n d :
  shaped n d h -> length batch_ = n -> length mask = n ->
  Forall (fun b => (0 <= b)%Z) batch_ ->
  let sb := GNN.sentinel_batch mask batch_ in
  let sel := map gt0 mask in
  tl (scatter (reduce (shape1 h)) h sb (num_segments sb))
  = scatter (reduce (shape1 (keep_rows sel h))) (keep_rows sel h)
            (keep_rows sel batch_) (num_segments (keep_rows sel batch_)).
Proof.
  intros Hs Hb Hm Hn sb sel. unfold scatter.
  destruct n as [|n].
  { destruct mask; [|discriminate]. destruct batch_; [|discriminate].
    destruct Hs as [Hh _]. destruct h; [|discriminate]. reflexivity. }
  assert (Hne : mask <> []) by (intros ->; discriminate).
  assert (Hnum := num_segments_of_sentinel mask batch_ ltac:(congruence) Hn Hne).
  fold sb sel in Hnum. rewrite Hnum, tl_map_seq.
  destruct (keep_rows sel batch_) as [|b0 kb] eqn:Hkb; [reflexivity|].
  assert (Hd : shape1 (keep_rows sel h) = shape1 h).
  { destruct Hs as [Hh Hw].
    pose proof (keep_rows_same_length sel h batch_) as Hlen.
    unfold sel in Hlen. rewrite length_map in Hlen.
    specialize (Hlen ltac:(congruence) ltac:(congruence)).
    fold sel in Hlen. rewrite Hkb in Hlen.
    pose proof (keep_rows_Forall _ sel h Hw) as Hw'.
    destruct (keep_rows sel h) as [|r kh]; [discriminate Hlen|].
    inversion Hw'; subst. destruct h as [|r' h]; [destruct sel; discriminate|].
    inversion Hw; subst. unfold shape1. simpl. congruence. }
  rewrite Hd. apply map_ext. intros g. f_equal.
  rewrite <- Hkb. apply segment_of_sentinel; destruct Hs; congruence.
Qed.
End KeepRows.

(** X10. In expander mode with sum, mean or max pooling, the readout is
    the same pooling applied to the batch from which the hub nodes (mask
    not positive) have been deleted: the sentinel segment takes the hub
    rows and only them, and the remaining segments are those of the
    original nodes, in the same order. *)
Theorem expander_readout_is_pooling_of_original_nodes :
  forall (S : Scalar) (F : FieldOps S) (lstm : LSTM) (a : Alloc)
         (ha : GNN.HeadAlloc) (c : GNN.args) (m : GNN.t) (training : bool)
         (bg : BatchedGraph) (h : matrix) (n d : nat),
    GNN.init (pyg lstm) a ha c = inr m ->
    GNN.arg_expander c = true ->
    In (GNN.arg_graph_pooling c) ["sum"; "mean"; "max"]%string ->
    shaped n d h ->
    length (batch bg) = n ->
    length (expander_node_mask bg) = n ->
    Forall (fun b => (0 <= b)%Z) (batch bg) ->
    let sel := map gt0 (expander_node_mask bg) in
    GNN.readout m training bg h
    = GNN.pool m training (keep_rows sel h) (keep_rows sel (batch bg)).
Proof.
  intros S F lstm a ha c m training bg h n d Hinit Hexp Hpool Hs Hb Hm Hn sel.
  apply GNN_init_pool in Hinit as [He Hsel].
  unfold GNN.readout. rewrite He, Hexp.
  unfold GNN.select_pool in Hsel.
  destruct Hpool as [Hp|[Hp|[Hp|[]]]]; rewrite <- Hp in Hsel; simpl in Hsel;
    injection Hsel as <-.
  - apply (scatter_of_sentinel reduce_add _ _ h n d); assumption.
  - apply (scatter_of_sentinel reduce_mean _ _ h n d); assumption.
  - apply (scatter_of_sentinel reduce_max _ _ h n d); assumption.
Qed.

Lemma expander_readout_witness :
  exists m,
    GNN.init (S := RealExample.RScalar)
             (pyg (F := RealExample.RFieldOps) RealExample.lstm)
             RealExample.alloc RealExample.heads (RealExample.args "mean") = inr m
    /\ GNN.readout m true RealExample.graph RealExample.h_hub_high
       = GNN.pool m true
           (keep_rows (map gt0 (expander_node_mask RealExample.graph))
                      RealExample.h_hub_high)
           (keep_rows (map gt0 (expander_node_mask RealExample.graph))
                      (batch RealExample.graph)).
Proof.
  destruct (GNN.init (S := RealExample.RScalar)
              (pyg (F := RealExample.RFieldOps) RealExample.lstm)
              RealExample.alloc RealExample.heads (RealExample.args "mean"))
    as [e|m] eqn:Hinit; [discriminate Hinit|].
  exists m. split; [reflexivity|].
  apply (expander_readout_is_pooling_of_original_nodes
           RealExample.RScalar RealExample.RFieldOps RealExample.lstm
           RealExample.alloc RealExample.heads (RealExample.args "mean")
           m true RealExample.graph RealExample.h_hub_high 3 1 Hinit).
  - reflexivity.
  - simpl. auto.
  - split; [reflexivity|]. repeat constructor.
  - reflexivity.
  - reflexivity.
  - simpl. repeat constructor; lia.
Defined.

(* ================================================================= *)
(** * The training scripts *)

Section EpochLoopFacts.
Variable score : Type.
Variable gt : score -> score -> bool.
Variable score_zero : score.
Hypothesis gt_above : forall a b c, gt a b = true -> gt c b = false -> gt a c = true.

(** Once a checkpoint holds the running maximum, the loop and [argmax]
    move together. *)
Lemma epochs_follow_argmax (l : list score) : forall i best best_i,
  saved_epoch score
    (epochs_from score gt i l
       {| best_val_so_far := best; saved_epoch := Some best_i |})
  = Some (argmax_from score gt best_i best i l).
Proof.
  induction l as [|v l IH]; intros i best best_i; simpl; [reflexivity|].
  unfold epoch_end. simpl. destruct (gt v best); apply IH.
Qed.

(** Before the first positive score nothing is saved, and the running
    maximum of [argmax] is not positive. *)
Lemma epochs_before_first_positive (l : list score) : forall i best best_i,
  gt best score_zero = false ->
  existsb (fun v => gt v score_zero) l = true ->
  saved_epoch score
    (epochs_from score gt i l
       {| best_val_so_far := score_zero; saved_epoch := None |})
  = Some (argmax_from score gt best_i best i l).
Proof.
  induction l as [|v l IH]; intros i best best_i Hb Hex; simpl in *;
    [discriminate|].
  unfold epoch_end. simpl. destruct (gt v score_zero) eqn:Hv.
  - rewrite (gt_above v score_zero best Hv Hb). apply epochs_follow_argmax.
  - simpl in Hex. destruct (gt v best); apply IH; assumption.
Qed.

Lemma epochs_without_positive (l : list score) : forall i,
  existsb (fun v => gt v score_zero) l = false ->
  epochs_from score gt i l {| best_val_so_far := score_zero; saved_epoch := None |}
  = {| best_val_so_far := score_zero; saved_epoch := None |}.
Proof.
  induction l as [|v l IH]; intros i Hex; simpl in *; [reflexivity|].
  apply orb_false_iff in Hex as [Hv Hex].
  unfold epoch_end. simpl. rewrite Hv. apply IH. exact Hex.
Qed.
End EpochLoopFacts.

(** X11. The epoch loop writes [best_val_model.pt] at the epoch that
    [np.argmax(valid_curve)] reports afterwards, provided some validation
    score is above 0, the initial [best_val_so_far]; when no score is
    above 0 the file is never written.  The comparison is assumed to be
    that of a total order. *)
Theorem checkpoint_is_the_argmax_epoch :
  forall (score : Type) (gt : score -> score -> bool) (score_zero : score)
         (valid_curve : list score),
    (forall a b c, gt a b = true -> gt c b = false -> gt a c = true) ->
    if existsb (fun v => gt v score_zero) valid_curve
    then exists i,
        saved_epoch score (run_epochs score gt score_zero valid_curve) = Some i
        /\ np_argmax score gt valid_curve = inr i
    else saved_epoch score (run_epochs score gt score_zero valid_curve) = None.
Proof.
  intros score gt score_zero valid_curve Hgt.
  destruct (existsb _ valid_curve) eqn:Hex.
  - destruct valid_curve as [|v l]; [discriminate|].
    unfold run_epochs, np_argmax. simpl. unfold epoch_end. simpl.
    simpl in Hex. destruct (gt v score_zero) eqn:Hv.
    + eexists. split; [apply epochs_follow_argmax|reflexivity].
    + simpl in Hex. eexists. split; [|reflexivity].
      apply (epochs_before_first_positive score gt score_zero Hgt); assumption.
  - unfold run_epochs. rewrite epochs_without_positive by exact Hex. reflexivity.
Qed.

Lemma checkpoint_is_the_argmax_epoch_witness :
  exists i,
    saved_epoch Z (run_epochs Z Z.gtb 0%Z [0; 3; 5; 5; 2]%Z) = Some i
    /\ np_argmax Z Z.gtb [0; 3; 5; 5; 2]%Z = inr i.
Proof.
  apply (checkpoint_is_the_argmax_epoch Z Z.gtb 0%Z [0; 3; 5; 5; 2]%Z).
  intros a b c Hab Hcb.
  rewrite Z.gtb_ltb in *. apply Z.ltb_lt. apply Z.ltb_lt in Hab.
  apply Z.ltb_ge in Hcb. lia.
Defined.

Section SplitFacts.
Lemma slices_join (perm : list nat) a b :
  firstn a perm ++ slice a (a + b) perm ++ skipn (a + b) perm = perm.
Proof.
  unfold slice.
  replace (firstn a perm) with (firstn a (firstn (a + b) perm))
    by (rewrite firstn_firstn; f_equal; lia).
  rewrite app_assoc, firstn_skipn. apply firstn_skipn.
Qed.
End SplitFacts.

(** X12. The random split of [run_code2.py] passes its three assertions
    exactly when the three split sizes add up to the length of the
    permutation; the three parts are then consecutive pieces of the
    permutation of the asserted lengths, so that every index falls in
    exactly one of them. *)
Theorem random_split_outcome :
  forall (perm : list nat) (num_train num_valid num_test : nat),
    if length perm =? num_train + num_valid + num_test
    then exists train valid test,
        random_split perm num_train num_valid num_test = inr (train, valid, test)
        /\ train ++ valid ++ test = perm
        /\ length train = num_train
        /\ length valid = num_valid
        /\ length test = num_test
    else random_split perm num_train num_valid num_test = inl AssertionError.
Proof.
  intros perm a b c. unfold random_split.
  pose proof (length_firstn a perm) as Ht.
  assert (Hv : length (slice a (a + b) perm) = Nat.min (a + b) (length perm) - a)
    by (unfold slice; rewrite length_skipn, length_firstn; reflexivity).
  pose proof (length_skipn (a + b) perm) as He.
  destruct (Nat.eqb_spec (length perm) (a + b + c)) as [Hn|Hn].
  - exists (firstn a perm), (slice a (a + b) perm), (skipn (a + b) perm).
    destruct (Nat.eqb_spec (length (firstn a perm)) a); [|lia].
    destruct (Nat.eqb_spec (length (slice a (a + b) perm)) b); [|lia].
    destruct (Nat.eqb_spec (length (skipn (a + b) perm)) c); [|lia].
    simpl. split; [reflexivity|]. split; [apply slices_join|]. lia.
  - destruct (Nat.eqb_spec (length (firstn a perm)) a); [|reflexivity].
    destruct (Nat.eqb_spec (length (slice a (a + b) perm)) b); [|reflexivity].
    destruct (Nat.eqb_spec (length (skipn (a + b) perm)) c); [|reflexivity].
    lia.
Qed.

(* ================================================================= *)
(** * One layer of the plain engine *)

Section PlainLayerFacts.
Context {S : Scalar}.

Lemma GINConv_init_fields p emb task_ c :
  GINConv_init p emb task_ None = inr c ->
  flow c = "source_to_target"%string
  /\ mlp c = feed_forward (new_Linear_in p) (new_BatchNorm p) (new_Linear_out p)
  /\ eps c = new_eps p.
Proof.
  unfold GINConv_init.
  destruct (task_ =? "mol")%string; [intros [= <-]; simpl; auto|].
  destruct (task_ =? "ppo")%string; [intros [= <-]; simpl; auto|].
  destruct (task_ =? "code2")%string; [intros [= <-]; simpl; auto|].
  discriminate.
Qed.

(** What the constructor loop of the plain engine has stored at every
    layer. *)
Lemma GNN_node_init_gin_layers a L emb task_ enc ds jk res m :
  GNN_node.init a L emb task_ enc ds jk res "gin" = inr m ->
  forall layer, layer < L ->
    exists c,
      GINConv_init (gin_params a (Main layer)) emb task_ None = inr c
      /\ nth_error (GNN_node.convs m) layer = Some (GINConv_forward c)
      /\ nth_error (GNN_node.batch_norms m) layer
         = Some (new_BatchNorm1d a (Main layer)).
Proof.
  unfold GNN_node.init.
  destruct (Nat.ltb_spec L 2) as [|HL]; [discriminate|].
  destruct (select_node_encoder a task_ enc) as [e|ne]; simpl; [discriminate|].
  destruct (rfor_each _ _ _) as [e|ls] eqn:Hloop; simpl; [discriminate|].
  intros [= <-]; simpl.
  apply (rfor_each_invariant
           (fun i (acc : list ConvLayer * list BatchNorm1d) =>
              length (fst acc) = i /\ length (snd acc) = i
              /\ forall layer, layer < i ->
                   exists c,
                     GINConv_init (gin_params a (Main layer)) emb task_ None = inr c
                     /\ nth_error (fst acc) layer = Some (GINConv_forward c)
                     /\ nth_error (snd acc) layer
                        = Some (new_BatchNorm1d a (Main layer)))) in Hloop.
  - simpl in Hloop. apply Hloop.
  - simpl. split; [reflexivity|]. split; [reflexivity|]. intros layer H. lia.
  - intros i acc acc' _ (H1 & H2 & H3) Hb.
    unfold new_conv in Hb. simpl in Hb.
    destruct (GINConv_init (gin_params a (Main i)) emb task_ None) as [e|c] eqn:Hc;
      simpl in Hb; [discriminate|].
    injection Hb as <-. simpl. rewrite !length_app, H1, H2. simpl.
    split; [lia|]. split; [lia|].
    intros layer Hlayer. destruct (Nat.eq_dec layer i) as [->|Hne].
    + exists c. split; [exact Hc|].
      rewrite !nth_error_app2 by lia. rewrite H1, H2, Nat.sub_diag. simpl. auto.
    + destruct (H3 layer ltac:(lia)) as (c' & Hc' & Hn1 & Hn2).
      exists c'. split; [exact Hc'|].
      rewrite !nth_error_app1 by lia. auto.
Qed.
End PlainLayerFacts.

(** X13. One layer of a constructed plain engine with [gnn_type = "gin"] is
    the GIN update: the feed-forward block of that layer applied to
    [(1 + eps) * h + A], where row [i] of [A] sums [relu(h_j + e_ji)] over
    the edges arriving at [i]; then the layer's batch normalisation, the
    ReLU except in the last layer, dropout, and the residual sum when
    configured.  The all-ones mask leaves no trace (exact arithmetic,
    tensors of one shape). *)
Theorem plain_gin_layer_is_the_GIN_update :
  forall (S : Scalar) (E : ExactScalar S) (a : Alloc) (L emb : nat)
         (task_ : string) (enc : option NodeEncoder) (ds : carrier)
         (jk : string) (res : bool) (m : GNN_node.t) (training : bool)
         (bg : BatchedGraph) (h_list : list matrix) (layer : nat)
         (h_in : matrix) (d : nat) (t : tape),
    GNN_node.init a L emb task_ enc ds jk res "gin" = inr m ->
    layer < L ->
    nth_error h_list layer = Some h_in ->
    shaped (shape0 (x bg)) d h_in ->
    (forall c,
        GINConv_init (gin_params a (Main layer)) emb task_ None = inr c ->
        shaped (shape0 (x bg)) d
               (mlp c training
                    (madd (smul (add one (eps c)) h_in)
                          (incoming_sum h_in (edge_index_ bg)
                             (option_map (edge_encoder c) (edge_attr bg)))))) ->
    exists c,
      GINConv_init (gin_params a (Main layer)) emb task_ None = inr c
      /\ let update :=
           mlp c training
               (madd (smul (add one (eps c)) h_in)
                     (incoming_sum h_in (edge_index_ bg)
                                   (option_map (edge_encoder c) (edge_attr bg)))) in
         let normed :=
           BatchNorm1d_forward (new_BatchNorm1d a (Main layer)) training update in
         GNN_node.layer_step m training bg (ones (shape0 (x bg)) d) h_list layer t
         = (h <- F_dropout (if layer =? L - 1 then normed else mrelu normed)
                           ds training ;;
            ret (if res then madd h h_in else h)) t.
Proof.
  intros S E a L emb task_ enc ds jk res m training bg h_list layer h_in d t
         Hinit Hlayer Hh Hs Hmlp.
  destruct (GNN_node_init_gin_layers a L emb task_ enc ds jk res m Hinit layer Hlayer)
    as (c & Hc & Hconv & Hbn).
  exists c. split; [exact Hc|].
  destruct (GINConv_init_fields _ _ _ _ Hc) as (Hflow & _ & _).
  assert (Hfields : GNN_node.num_layer m = L /\ GNN_node.drop_scale m = ds
                    /\ GNN_node.residual m = res).
  { revert Hinit. unfold GNN_node.init.
    destruct (L <? 2); [discriminate|].
    destruct (select_node_encoder a task_ enc); simpl; [discriminate|].
    destruct (rfor_each _ _ _); simpl; [discriminate|].
    intros [= <-]. simpl. auto. }
  destruct Hfields as (HL & Hds & Hres).
  cbv zeta. unfold GNN_node.layer_step, index.
  unfold bind at 1. rewrite Hh. unfold ret at 1.
  unfold bind at 1. rewrite Hconv. unfold ret at 1.
  unfold bind at 1. rewrite Hbn. unfold ret at 1.
  rewrite HL, Hds, Hres.
  assert (Hout : GINConv_forward c training h_in (edge_index_ bg) (edge_attr bg)
                   false (ones (shape0 (x bg)) d) "original"
                 = mlp c training
                     (madd (smul (add one (eps c)) h_in)
                           (incoming_sum h_in (edge_index_ bg)
                              (option_map (edge_encoder c) (edge_attr bg))))).
  { assert (Hraw : GINConv_out c training h_in (edge_index_ bg) (edge_attr bg)
                      false (ones (shape0 (x bg)) d)
                    = mlp c training
                        (madd (smul (add one (eps c)) h_in)
                              (incoming_sum h_in (edge_index_ bg)
                                 (option_map (edge_encoder c) (edge_attr bg))))).
    { unfold GINConv_out. simpl. rewrite Hflow, propagate_is_incoming_sum.
      destruct (edge_attr bg); reflexivity. }
    unfold GINConv_forward. simpl. rewrite Hraw.
    apply ones_select; [apply Hmlp; exact Hc|exact Hs]. }
  rewrite Hout. destruct (layer =? L - 1); reflexivity.
Qed.

Lemma plain_gin_layer_witness :
  let bn := Example.affine_bn 1 0 in
  let bg := Example.graph in
  exists m c,
    Example.plain_engine bn bn = inr m
    /\ GINConv_init (gin_params (Example.alloc bn bn) (Main 0)) 1 "mol" None = inr c
    /\ GNN_node.layer_step m false bg (ones 3 1) [x bg] 0 (fun _ => true)
       = (h <- F_dropout
                 (mrelu
                    (BatchNorm1d_forward bn false
                       (mlp c false
                            (madd (smul (add one (eps c)) (x bg))
                                  (incoming_sum (x bg) (edge_index_ bg)
                                     (option_map (edge_encoder c) (edge_attr bg)))))))
                 2%Z false ;;
          ret h) (fun _ => true).
Proof.
  intros bn bg.
  destruct (Example.plain_engine bn bn) as [e|m] eqn:Hinit; [discriminate Hinit|].
  destruct (plain_gin_layer_is_the_GIN_update
              ZScalar ZScalar_exact (Example.alloc bn bn) 2 1 "mol" None 2%Z "last"
              false m false bg [x bg] 0 (x bg) 1 (fun _ => true) Hinit)
    as (c & Hc & Hstep).
  - lia.
  - reflexivity.
  - split; [reflexivity|]. repeat constructor.
  - intros c Hc. injection Hc as <-. split; [reflexivity|]. repeat constructor.
  - exists m, c. split; [reflexivity|]. split; [exact Hc|]. exact Hstep.
Defined.

(* ================================================================= *)
(** * Non-finite values *)

Section FloatCounterexamples.
Import FloatExample.
#[local] Existing Instance FScalar.

Lemma differ_by_nan (u v : vec) :
  has_nan u = true -> has_nan v = false -> u <> v.
Proof. intros Hu Hv Heq. rewrite Heq in Hu. congruence. Qed.

(** C8 as stated fails on floating-point tensors.  When the summation
    layer returns an infinity on the row of an original node, the hub
    phase computes [1 + inf * (1 - 1)], which is NaN: the original row is
    not left unchanged. *)
Lemma summation_hub_phase_loses_an_original_row :
  exists m h',
    engine "mol" None "summation" = inr m
    /\ GNN_node_expander.hub_phase m false graph
         (expand (expander_node_mask graph) 1) (x graph) 0 (fun _ => true)
       = inr (h', fun _ => true)
    /\ original_node (expander_node_mask graph) 0
    /\ row h' 0 <> row (x graph) 0.
Proof.
  do 2 eexists. split; [reflexivity|]. split; [vm_compute; reflexivity|].
  split; [reflexivity|].
  apply differ_by_nan; vm_compute; reflexivity.
Qed.

(** C10 as stated fails on floating-point tensors.  Two encoders of the
    sequence task return the same rows for the original nodes; one
    returns an infinity for the hub node.  Its history entry 0 then holds
    NaN, not zero, on the hub row, and the result of the forward pass
    differs on the row of an original node. *)
Lemma overflowing_encoder_output_is_not_discarded :
  let finite_encoder : NodeEncoder := fun x_ _ => x_ in
  (forall i, original_node (expander_node_mask graph) i ->
             row (overflowing_encoder (x graph) (Some (node_depth graph))) i
             = row (finite_encoder (x graph) (Some (node_depth graph))) i)
  /\ exists m1 m2 hl t1 r1 r2,
      engine "code2" (Some overflowing_encoder) "learn-features" = inr m1
      /\ engine "code2" (Some finite_encoder) "learn-features" = inr m2
      /\ GNN_node_expander.history m1 false graph (fun _ => true) = inr (hl, t1)
      /\ hub_node (expander_node_mask graph) 2
      /\ row (hd [] hl) 2 <> zeros 1
      /\ GNN_node_expander.forward m1 false graph (fun _ => true)
         = inr (r1, fun _ => true)
      /\ GNN_node_expander.forward m2 false graph (fun _ => true)
         = inr (r2, fun _ => true)
      /\ original_node (expander_node_mask graph) 0
      /\ row r1 0 <> row r2 0.
Proof.
  intros finite_encoder. split.
  - intros [|[|[|i]]] Hi; try reflexivity; discriminate Hi.
  - do 6 eexists. split; [reflexivity|]. split; [reflexivity|].
    split; [vm_compute; reflexivity|]. split; [reflexivity|].
    split; [apply differ_by_nan; vm_compute; reflexivity|].
    split; [vm_compute; reflexivity|]. split; [vm_compute; reflexivity|].
    split; [reflexivity|].
    apply differ_by_nan; vm_compute; reflexivity.
Qed.

(** C3 as stated fails on floating-point tensors.  With the masking flag
    set and an infinity on the row of a hub node, [x * mask] holds NaN on
    that row, not zero, and the output differs from the feed-forward block
    applied to the combination built from the zeroed rows. *)
Lemma masking_does_not_zero_an_infinite_row :
  let h : matrix := [[PrimFloat.one]; [two]; [PrimFloat.infinity]] in
  let bits := [true; true; false] in
  let ei : edge_index := ([0], [1]) in
  let h' := zero_hub_rows bits h in
  exists c,
    GINConv_init gin 1 "mol" None = inr c
    /\ GINConv_out c false h ei None true (expand (map of_bool bits) (shape1 h))
       <> mlp c false (madd (smul (add one (eps c)) h') (incoming_sum h' ei None)).
Proof.
  intros h bits ei h'. eexists. split; [reflexivity|].
  intros Heq. apply (f_equal (fun out => has_nan (row out 2))) in Heq.
  vm_compute in Heq. discriminate Heq.
Qed.
End FloatCounterexamples.

(* ================================================================= *)
(** * The phases of a constructed expander engine *)

Section ConstructedListFacts.
Context {S : Scalar}.




End ConstructedListFacts.



(* ================================================================= *)
(** * The output of a constructed convolution *)

Section ConstructedConvFacts.
Context {S : Scalar}.

Lemma GINConv_init_sublayers p emb task_ flow_arg c :
  GINConv_init p emb task_ flow_arg = inr c ->
  flow c = match flow_arg with
           | None => "source_to_target"%string
           | Some f => f
           end
  /\ mlp c = feed_forward (new_Linear_in p) (new_BatchNorm p) (new_Linear_out p)
  /\ eps c = new_eps p
  /\ edge_encoder c
     = (if (task_ =? "mol")%string then new_BondEncoder p
        else if (task_ =? "ppo")%string then Linear_forward (new_Linear7 p)
             else Linear_forward (new_Linear2 p)).
Proof.
  unfold GINConv_init.
  destruct (task_ =? "mol")%string; [intros [= <-]; simpl; auto|].
  destruct (task_ =? "ppo")%string; [intros [= <-]; simpl; auto|].
  destruct (task_ =? "code2")%string; [intros [= <-]; simpl; auto|].
  discriminate.
Qed.

Lemma incoming_sum_is_edge_sum (x_ : matrix) (ei : edge_index)
      (emb : option matrix) :
  length (snd ei) = length (fst ei) ->
  (forall ea, emb = Some ea -> length ea = length (fst ei)) ->
  incoming_sum x_ ei emb = edge_sum x_ ei emb.
Proof.
  intros He Hea. unfold incoming_sum, edge_sum.
  destruct emb as [ea|].
  - rewrite He, (Hea ea eq_refl), !Nat.min_id. reflexivity.
  - rewrite He, Nat.min_id. reflexivity.
Qed.
End ConstructedConvFacts.

(** C3, as the code has it.  For a convolution the constructor returned
    (flow left at its default or given as source_to_target) and a
    well-formed input (a 0/1 mask, in-range edge ends, one encoded edge
    row of the width of [h] per edge), the output before the directional
    update is [Linear(2*emb, emb)] of [ReLU] of [BatchNorm1d] of
    [Linear(emb, 2*emb)] applied to [(1 + eps) * h' + A]: [h'] is [h] with
    the mask-0 rows zeroed exactly when the masking flag is set, and row
    [i] of [A] sums, over the edges arriving at [i],
    [relu(source row + encoded edge row)], or [relu(source row)] without
    edge features.  The edge encoder is the one of the task.  Exact
    arithmetic. *)
Theorem GINConv_out_is_feed_forward_of_combination :
  forall (S : Scalar) (E : ExactScalar S) (p : GINParams) (emb : nat)
         (task_ : string) (flow_arg : option string) (c : GINConv)
         (training : bool) (h : matrix) (ei : edge_index)
         (edge_attr_ : option matrix) (masking : bool) (bits : list bool)
         (n d : nat),
    GINConv_init p emb task_ flow_arg = inr c ->
    flow_arg = None \/ flow_arg = Some "source_to_target"%string ->
    shaped n d h -> length bits = n ->
    length (snd ei) = length (fst ei) ->
    Forall (fun k => k < n) (fst ei) ->
    Forall (fun k => k < n) (snd ei) ->
    (forall ea, edge_attr_ = Some ea ->
                shaped (length (fst ei)) d (edge_encoder c ea)) ->
    let h' := if masking then zero_hub_rows bits h else h in
    let A := edge_sum h' ei (option_map (edge_encoder c) edge_attr_) in
    edge_encoder c
    = (if (task_ =? "mol")%string then new_BondEncoder p
       else if (task_ =? "ppo")%string then Linear_forward (new_Linear7 p)
            else Linear_forward (new_Linear2 p))
    /\ GINConv_out c training h ei edge_attr_ masking
                   (expand (map of_bool bits) (shape1 h))
       = Linear_forward (new_Linear_out p)
           (mrelu
              (BatchNorm1d_forward (new_BatchNorm p) training
                 (Linear_forward (new_Linear_in p)
                    (madd (smul (add one (new_eps p)) h') A)))).
Proof.
  intros S E p emb task_ flow_arg c training h ei edge_attr_ masking bits n d
         Hinit Hflow Hs Hb He Hsrc Htgt Hea h' A.
  destruct (GINConv_init_sublayers p emb task_ flow_arg c Hinit)
    as (Hfl & Hmlp & Heps & Henc).
  split; [exact Henc|].
  assert (Hst : flow c = "source_to_target"%string)
    by (destruct Hflow as [Hf|Hf]; rewrite Hf in Hfl; exact Hfl).
  unfold GINConv_out.
  rewrite (masked_input_bits n d h bits masking Hs Hb). fold h'.
  rewrite Hst, propagate_is_incoming_sum, Hmlp, Heps.
  unfold feed_forward. do 4 f_equal.
  replace (match edge_attr_ with
           | Some ea => Some (edge_encoder c ea)
           | None => None
           end) with (option_map (edge_encoder c) edge_attr_)
    by (destruct edge_attr_; reflexivity).
  unfold A. f_equal. apply incoming_sum_is_edge_sum; [exact He|].
  intros ea Hopt. destruct edge_attr_ as [ea0|]; [|discriminate Hopt].
  injection Hopt as <-. apply (proj1 (Hea ea0 eq_refl)).
Qed.

Lemma GINConv_out_witness :
  let p := Example.gin (Example.affine_bn 1 0) in
  let h := [[2]; [5]; [1]]%Z in
  let ei := ([0; 1], [2; 2]) in
  let ea := Some [[1; 0; 0]; [3; 0; 0]]%Z in
  let bits := [true; true; false] in
  exists c,
    GINConv_init p 1 "mol" None = inr c
    /\ GINConv_out c false h ei ea true (expand (map of_bool bits) (shape1 h))
       = Linear_forward (new_Linear_out p)
           (mrelu
              (BatchNorm1d_forward (new_BatchNorm p) false
                 (Linear_forward (new_Linear_in p)
                    (madd (smul (add one (new_eps p)) (zero_hub_rows bits h))
                          (edge_sum (zero_hub_rows bits h) ei
                                    (option_map (edge_encoder c) ea)))))).
Proof.
  intros p h ei ea bits.
  destruct (GINConv_init p 1 "mol" None) as [e|c] eqn:Hc; [discriminate Hc|].
  exists c. split; [reflexivity|].
  apply (GINConv_out_is_feed_forward_of_combination
           ZScalar ZScalar_exact p 1 "mol" None c false h ei ea true bits 3 1 Hc).
  - left. reflexivity.
  - split; [reflexivity|]. repeat constructor.
  - reflexivity.
  - reflexivity.
  - repeat constructor.
  - repeat constructor.
  - intros ea0 Hea. injection Hea as <-. injection Hc as <-.
    split; [reflexivity|]. repeat constructor.
Defined.

(* ================================================================= *)
(** * The history of a forward pass *)

Section EncoderFacts.
Context {S : Scalar}.

(** The encoder the constructor selected returns the encoder output of
    the task. *)
Lemma selected_encoder_output a task_ enc ne (bg : BatchedGraph) :
  In task_ ["mol"; "ppa"; "code2"]%string ->
  select_node_encoder a task_ enc = inr ne ->
  exists e h_enc,
    ne = Some e
    /\ encoder_output a task_ enc bg = Some h_enc
    /\ (if (task_ =? "code2")%string
        then e (x bg) (Some (node_depth bg))
        else e (x bg) None) = h_enc.
Proof.
  unfold select_node_encoder, encoder_output.
  intros [<-|[<-|[<-|[]]]]; simpl.
  - intros [= <-]. eexists _, _. repeat split.
  - intros [= <-]. eexists _, _. repeat split.
  - destruct enc as [e|]; [|discriminate]. intros [= <-].
    eexists _, _. repeat split.
Qed.
End EncoderFacts.

(** C4, as the code has it.  For a model the constructors returned (task
    mol, ppa or code2) and a batch its normalisations accept, a forward
    pass of [L] layers keeps a history of exactly [L + 1] entries.  Entry
    0 is the output of the task's node encoder in the plain engine, and
    that output multiplied by the expanded node mask in the expander
    engine.  With [JK = "last"] the node representation is the final
    entry, with [JK = "sum"] the elementwise sum of all [L + 1] entries
    (exact arithmetic). *)
Theorem history_length_and_jumping_knowledge :
  forall (S : Scalar) (E : ExactScalar S) (a : Alloc) (L emb : nat)
         (task_ : string) (enc : option NodeEncoder) (ds : carrier)
         (jk : string) (res : bool) (gt handling : string)
         (training : bool) (bg : BatchedGraph) (t : tape),
    In task_ ["mol"; "ppa"; "code2"]%string ->
    batch_norm_accepts training bg ->
    (forall m, GNN_node.init a L emb task_ enc ds jk res gt = inr m ->
       exists h_enc h_list t',
         encoder_output a task_ enc bg = Some h_enc
         /\ GNN_node.history m training bg t = inr (h_list, t')
         /\ length h_list = L + 1
         /\ hd [] h_list = h_enc
         /\ (jk = "last"%string ->
             GNN_node.forward m training bg t = inr (last h_list [], t'))
         /\ (jk = "sum"%string ->
             GNN_node.forward m training bg t = inr (msum h_list, t')))
    /\
    (forall m, GNN_node_expander.init a L emb task_ enc ds jk res gt handling = inr m ->
       exists h_enc h_list t',
         encoder_output a task_ enc bg = Some h_enc
         /\ GNN_node_expander.history m training bg t = inr (h_list, t')
         /\ length h_list = L + 1
         /\ hd [] h_list
            = mmul h_enc (expand (expander_node_mask bg) (shape1 h_enc))
         /\ (jk = "last"%string ->
             GNN_node_expander.forward m training bg t = inr (last h_list [], t'))
         /\ (jk = "sum"%string ->
             GNN_node_expander.forward m training bg t = inr (msum h_list, t'))).
Proof.
  intros S E a L emb task_ enc ds jk res gt handling training bg t Htask _.
  split; intros m Hinit.
  - apply GNN_node_init_fields in Hinit
      as (HL & _ & Hjk & Ht & Hsel & Hc & Hb).
    destruct (selected_encoder_output a task_ enc _ bg Htask Hsel)
      as (e & h_enc & He & Hout & Hval).
    destruct (GNN_node_history_returns m training bg e t He)
      as (hl & t' & Hrun & Hlen & Henc); try congruence.
    exists h_enc, hl, t'. rewrite HL in Hlen.
    split; [exact Hout|]. split; [exact Hrun|]. split; [exact Hlen|].
    split.
    { unfold GNN_node.encode in Henc. rewrite He, Ht in Henc.
      destruct (task_ =? "code2")%string; injection Henc as Henc; congruence. }
    split; intros ->; unfold GNN_node.forward;
      rewrite (bind_returns _ _ _ _ _ Hrun), Hjk, HL.
    + apply JK_last. destruct hl; [simpl in Hlen; lia|discriminate].
    + apply JK_sum. exact Hlen.
  - apply GNN_node_expander_init_fields in Hinit
      as (HL & _ & Hjk & Ht & Hh & Hsel & Hl).
    destruct (selected_encoder_output a task_ enc _ bg Htask Hsel)
      as (e & h_enc & He & Hout & Hval).
    rewrite <- HL, <- Hh in Hl.
    destruct (expander_history_returns m training bg e t He Hl)
      as (h & hl & ps & t' & Henc & _ & Hrun & Hlen & _ & Hhd).
    exists h_enc, hl, t'. rewrite HL in Hlen.
    assert (Hhe : h = h_enc).
    { unfold GNN_node_expander.encode in Henc. rewrite He, Ht in Henc.
      destruct (task_ =? "code2")%string; injection Henc as Henc; congruence. }
    subst h.
    split; [exact Hout|]. split; [exact Hrun|]. split; [exact Hlen|].
    split; [exact Hhd|].
    split; intros ->; unfold GNN_node_expander.forward;
      rewrite (bind_returns _ _ _ _ _ Hrun), Hjk, HL.
    + apply JK_last. destruct hl; [simpl in Hlen; lia|discriminate].
    + apply JK_sum. exact Hlen.
Qed.

Lemma history_length_witness :
  let a := Example.alloc (Example.affine_bn 1 0) (Example.affine_bn 1 1) in
  let m := Example.built
             (GNN_node_expander.init a 2 1 "mol" None 2%Z "sum" false "gin"
                                     "learn-features") in
  let t := Example.keeps_first 4 in
  exists h_enc h_list t',
    encoder_output a "mol" None Example.graph = Some h_enc
    /\ GNN_node_expander.history m true Example.graph t = inr (h_list, t')
    /\ length h_list = 2 + 1
    /\ hd [] h_list
       = mmul h_enc (expand (expander_node_mask Example.graph) (shape1 h_enc))
    /\ ("sum"%string = "last"%string ->
        GNN_node_expander.forward m true Example.graph t = inr (last h_list [], t'))
    /\ ("sum"%string = "sum"%string ->
        GNN_node_expander.forward m true Example.graph t = inr (msum h_list, t')).
Proof.
  intros a m t.
  destruct (history_length_and_jumping_knowledge
              ZScalar ZScalar_exact a 2 1 "mol" None 2%Z "sum" false "gin"
              "learn-features" true Example.graph t) as [_ Hexp].
  - left. reflexivity.
  - right. simpl. lia.
  - apply (Hexp m). reflexivity.
Defined.

(** C4 as stated fails in the expander engine: entry 0 of the history is
    not the encoder output.  On a graph with one hub node the encoder
    returns the rows 1, 2, 5 and the history starts with 1, 2, 0. *)
Lemma expander_history_does_not_start_with_the_encoder_output :
  exists m h_enc h_list t',
    Example.engine "learn-features" (Example.affine_bn 1 0) (Example.affine_bn 1 0)
    = inr m
    /\ encoder_output (Example.alloc (Example.affine_bn 1 0) (Example.affine_bn 1 0))
                      "mol" None Example.graph = Some h_enc
    /\ GNN_node_expander.history m false Example.graph (Example.keeps_first 0)
       = inr (h_list, t')
    /\ h_enc = [[1]; [2]; [5]]%Z
    /\ hd [] h_list = [[1]; [2]; [0]]%Z
    /\ hd [] h_list <> h_enc.
Proof.
  do 4 eexists. split; [reflexivity|]. split; [reflexivity|].
  split; [vm_compute; reflexivity|]. split; [reflexivity|].
  split; [reflexivity|]. discriminate.
Qed.
